(** * Source terms of the CDO schemes: cell mask, cellwise dispatch, evaluators

    Shallow embedding of [cs_source_term.c] (Code_Saturne): the
    initialisation [cs_source_term_init] that binds one evaluator to each
    source-term definition and builds the per-cell mask, the cellwise
    dispatcher [cs_source_term_compute_cellwise], and the family of
    evaluators [cs_source_term_*] it calls.

    Modelling conventions.
    - [cs_real_t] ([double] in the sources) is modelled by the exact
      rationals [Qc]: rounding, underflow, infinities and NaN are outside
      this model, and its theorems state which entries are written and
      with which expression.  What depends on the arithmetic of [double]
      (the divisions of the barycentric evaluator) is stated on a second
      embedding of that evaluator, on binary64 numbers, in [Binary64].
    - C arrays are lists.  A read [a[i]] is [a !!! i]; a store
      [a[i] = x] is [<[i:=x]> a] and [a[i] += x] is
      [alter (fun y => y + x) i a].  An access outside the array is
      undefined in C; in the model such a read gives [0] and such a store
      leaves the list unchanged.  Reads in the tables of pointers
      ([source_terms], [compute_source]) and in the mask are checked and
      stop with [undefined_behaviour].
    - A pointer that may be NULL is an [option]: a definition, the Hodge
      matrix [cb->hdg], the mask, an entry of [compute_source].  The cell
      [cm], the builder [cb] and the array [values] are values of the
      model, never NULL.
    - [bft_error] does not return: the model stops with [Err (bft_error _ _)].
      [assert] is modelled as in a debug build: a failed assertion stops
      with [Err assert_failure].
    - The scratch areas [cb->values], [cb->vectors] and [cb->ids] are
      written by every evaluator before it reads them; they are modelled by
      local bindings. *)

From Stdlib Require Import ZArith QArith Qcanon String PrimFloat.
From stdpp Require Import base numbers list strings option.

Open Scope Qc_scope.

(** ** Numbers *)

Abbreviation cs_real_t := Qc (only parsing).

#[global] Instance cs_real_inhabited : Inhabited Qc := populate 0.

(** A decimal constant of the sources, such as [0.375]. *)
Definition dbl (q : Q) : cs_real_t := Q2Qc q.

(** ** Outcomes *)

Inductive cs_error : Type :=
| bft_error (fmt : string) (args : list Z)  (* fatal error: format and its arguments *)
| assert_failure                            (* failed [assert] *)
| undefined_behaviour.                      (* NULL dereferenced or called, read outside a table *)

Inductive result (A : Type) : Type :=
| Ok (a : A)
| Err (e : cs_error).
Arguments Ok {A} a.
Arguments Err {A} e.

#[global] Instance cs_error_eq_dec : EqDecision cs_error.
Proof. solve_decision. Defined.

#[global] Instance result_eq_dec {A : Type} `{EqDecision A} : EqDecision (result A).
Proof. solve_decision. Defined.

Definition bind {A B : Type} (m : result A) (k : A -> result B) : result B :=
  match m with
  | Ok a => k a
  | Err e => Err e
  end.

Notation "'do' x <- m ; k" := (bind m (fun x => k))
  (at level 10, x name, m at level 100, k at level 200).
Notation "'do' ' p <- m ; k" := (bind m (fun x => let 'p := x in k))
  (at level 10, p pattern, m at level 100, k at level 200).

Definition c_assert (b : bool) : result unit :=
  if b then Ok tt else Err assert_failure.

Notation "'assert!' b ; k" := (bind (c_assert b) (fun _ => k))
  (at level 10, b at level 100, k at level 200).

(** [for (i = lo; i < hi; i++) body], on a state [S]. *)
Definition for_loop {S : Type} (lo hi : nat) (body : nat -> S -> S) (s : S) : S :=
  foldl (fun s i => body i s) s (seq lo (hi - lo)).

(** The same loop when the body can stop with an error. *)
Definition for_loopM {S : Type} (lo hi : nat) (body : nat -> S -> result S)
    (s : S) : result S :=
  foldl (fun r i => do s <- r; body i s) (Ok s) (seq lo (hi - lo)).

(** ** Enumerations *)

Inductive cs_space_scheme_t : Type :=
| CS_SPACE_SCHEME_CDOVB
| CS_SPACE_SCHEME_CDOVCB
| CS_SPACE_SCHEME_CDOFB
| CS_SPACE_SCHEME_HHO.

Inductive cs_xdef_type_t : Type :=
| CS_XDEF_BY_ANALYTIC_FUNCTION
| CS_XDEF_BY_ARRAY
| CS_XDEF_BY_DOF_FUNCTION
| CS_XDEF_BY_QOV
| CS_XDEF_BY_VALUE.

Inductive cs_quadrature_type_t : Type :=
| CS_QUADRATURE_NONE
| CS_QUADRATURE_BARY
| CS_QUADRATURE_BARY_SUBDIV
| CS_QUADRATURE_HIGHER
| CS_QUADRATURE_HIGHEST.

(** ** What the sources take from headers and modules outside this file

    [cs_source_term.c] uses constants, one type and four functions declared
    elsewhere ([cs_source_term.h], [cs_cdo.h], [cs_cdo_local.h],
    [cs_math.h], [cs_quadrature.h], the local matrices).  They are
    parameters of the development: every theorem holds for all their
    values. *)

Class cs_headers : Type := {
  (* cs_source_term.h *)
  CS_N_MAX_SOURCE_TERMS : nat;
  cs_mask_bits : nat;                 (* width in bits of the unsigned type cs_mask_t *)
  (* metadata of a definition *)
  CS_FLAG_PRIMAL : Z;
  CS_FLAG_DUAL : Z;
  CS_FLAG_VERTEX : Z;
  CS_FLAG_CELL : Z;
  CS_FLAG_FULL_LOC : Z;
  (* metadata of the algebraic system *)
  CS_FLAG_SYS_SOURCETERM : Z;
  CS_FLAG_SYS_HLOC_CONF : Z;
  CS_FLAG_SYS_SOURCES_HLOC : Z;
  (* what a cs_cell_mesh_t holds *)
  CS_CDO_LOCAL_PV : Z;
  CS_CDO_LOCAL_PVQ : Z;
  CS_CDO_LOCAL_PEQ : Z;
  CS_CDO_LOCAL_DEQ : Z;
  CS_CDO_LOCAL_PFQ : Z;
  CS_CDO_LOCAL_EV : Z;
  CS_CDO_LOCAL_FEQ : Z;
  CS_CDO_LOCAL_HFQ : Z;
  CS_CDO_LOCAL_FE : Z;
  cs_test_flag : Z -> Z -> bool;
  (* cs_math.h *)
  cs_math_onesix : cs_real_t;
  cs_math_voltet : list cs_real_t -> list cs_real_t -> list cs_real_t ->
                   list cs_real_t -> cs_real_t;
  (* cs_quadrature.h: Gauss points (flat, 3 per point) and weights *)
  cs_quadrature_tet_5pts : list cs_real_t -> list cs_real_t -> list cs_real_t ->
                           list cs_real_t -> cs_real_t ->
                           list cs_real_t * list cs_real_t;
  (* local dense matrix and its product with a vector *)
  cs_locmat_t : Type;
  cs_locmat_matvec : cs_locmat_t -> list cs_real_t -> list cs_real_t
}.

(** ** Data *)

(** [cs_analytic_func_t]: time, number of points, their coordinates (flat);
    the values at the points.  The context pointer of the C callback is
    part of the closure. *)
Definition cs_analytic_func_t : Type :=
  cs_real_t -> nat -> list cs_real_t -> list cs_real_t.

Record cs_xdef_analytic_input_t : Type := { func : cs_analytic_func_t }.

(** The callback fills [n_pts] entries of its output. *)
Definition anai_eval (anai : cs_xdef_analytic_input_t) (tcur : cs_real_t)
    (n_pts : nat) (xyz : list cs_real_t) : list cs_real_t :=
  resize n_pts 0 (func anai tcur n_pts xyz).

(** [void *input] of a definition, by what it points to. *)
Inductive cs_xdef_input_t : Type :=
| input_values (vals : list cs_real_t)
| input_analytic (anai : cs_xdef_analytic_input_t).

Record cs_xdef_t : Type := {
  type : cs_xdef_type_t;
  z_id : Z;
  meta : Z;
  qtype : cs_quadrature_type_t;
  input : cs_xdef_input_t
}.

(** [(const cs_real_t * )source->input], [(cs_xdef_analytic_input_t * )source->input] *)
Definition as_values (i : cs_xdef_input_t) : result (list cs_real_t) :=
  match i with
  | input_values vals => Ok vals
  | input_analytic _ => Err undefined_behaviour
  end.

Definition as_analytic (i : cs_xdef_input_t) : result cs_xdef_analytic_input_t :=
  match i with
  | input_analytic anai => Ok anai
  | input_values _ => Err undefined_behaviour
  end.

Record cs_quant_t : Type := {
  meas : cs_real_t;
  unitv : list cs_real_t;
  center : list cs_real_t
}.

#[global] Instance cs_quant_inhabited : Inhabited cs_quant_t :=
  populate {| meas := 0; unitv := []; center := [] |}.

Record cs_cell_mesh_t : Type := {
  flag : Z;
  c_id : nat;
  xc : list cs_real_t;
  vol_c : cs_real_t;
  n_vc : nat;
  xv : list cs_real_t;
  wvc : list cs_real_t;
  n_ec : nat;
  edge : list cs_quant_t;
  e2v_ids : list nat;
  n_fc : nat;
  face : list cs_quant_t;
  hfc : list cs_real_t;
  f2e_idx : list nat;
  f2e_ids : list nat;
  tef : list cs_real_t
}.

Record cs_cell_builder_t `{cs_headers} : Type := {
  hdg : option cs_locmat_t
}.

Record cs_cell_sys_t : Type := {
  n_dofs : nat;
  source : list cs_real_t
}.

#[global] Instance cs_cell_sys_eq_dec : EqDecision cs_cell_sys_t.
Proof. solve_decision. Defined.

Record cs_volume_zone_t : Type := {
  cell_ids : list nat
}.

(** [z->n_cells] *)
Definition z_n_cells (z : cs_volume_zone_t) : nat := length (cell_ids z).

Record cs_cdo_quantities_t : Type := {
  n_cells : nat;
  n_vertices : nat
}.

Record cs_time_step_t : Type := { t_cur : cs_real_t }.

(** The static pointers to shared structures, set once by
    [cs_source_term_set_shared_pointers], and the table of volume zones
    behind [cs_volume_zone_by_id]: ambient state that every function of
    the file reads. *)
Class cs_shared : Type := {
  cs_cdo_quant : cs_cdo_quantities_t;
  cs_time_step : cs_time_step_t;
  cs_volume_zone_by_id : Z -> cs_volume_zone_t
}.

(** [cs_source_term_cellwise_t]: the definition (or NULL), the cell, the
    builder, the array of values; the array of values after the call. *)
Abbreviation cs_source_term_cellwise_t :=
  (option cs_xdef_t -> cs_cell_mesh_t -> cs_cell_builder_t ->
   list cs_real_t -> result (list cs_real_t)).

Definition _err_empty_st : string :=
  " Stop setting an empty cs_xdef_t structure.
 Please check your settings.
".

(** * The evaluators *)

Section SourceTerm.

Context {hdrs : cs_headers} {shared : cs_shared}.

(** [assert(cb != NULL && cb->hdg != NULL)] *)
Definition hdg_not_null (cb : cs_cell_builder_t) : result cs_locmat_t :=
  match hdg cb with
  | Some h => Ok h
  | None => Err assert_failure
  end.

(** [p + 3*v]: the three coordinates [p[3*v]], [p[3*v+1]], [p[3*v+2]] onwards. *)
Definition coords (p : list cs_real_t) (v : nat) : list cs_real_t := drop (3 * v) p.

(** Scalar potential at primal vertices, by value. *)
Definition cs_source_term_pvsp_by_value : cs_source_term_cellwise_t :=
  fun source cm cb values =>
  match source with
  | None => Ok values
  | Some source =>
    do h <- hdg_not_null cb;
    assert! cs_test_flag (flag cm) CS_CDO_LOCAL_PV;
    do input <- as_values (input source);
    let pot_value := input !!! 0%nat in
    (* values of the potential at each cell vertex *)
    let eval := replicate (n_vc cm) pot_value in
    (* product with the cellwise Hodge operator *)
    let hdg_eval := cs_locmat_matvec h eval in
    Ok (for_loop 0 (n_vc cm)
          (fun v values => alter (fun x => x + hdg_eval !!! v) v values) values)
  end.

(** Scalar potential at primal vertices, by analytic function. *)
Definition cs_source_term_pvsp_by_analytic : cs_source_term_cellwise_t :=
  fun source cm cb values =>
  match source with
  | None => Ok values
  | Some source =>
    do h <- hdg_not_null cb;
    assert! cs_test_flag (flag cm) CS_CDO_LOCAL_PV;
    let tcur := t_cur cs_time_step in
    do anai <- as_analytic (input source);
    let eval := anai_eval anai tcur (n_vc cm) (xv cm) in
    let hdg_eval := cs_locmat_matvec h eval in
    Ok (for_loop 0 (n_vc cm)
          (fun v values => alter (fun x => x + hdg_eval !!! v) v values) values)
  end.

(** Scalar density at dual cells, by value. *)
Definition cs_source_term_dcsd_by_value : cs_source_term_cellwise_t :=
  fun source cm cb values =>
  match source with
  | None => Ok values
  | Some source =>
    assert! cs_test_flag (flag cm) CS_CDO_LOCAL_PVQ;
    do input <- as_values (input source);
    let density_value := input !!! 0%nat in
    Ok (for_loop 0 (n_vc cm)
          (fun v values =>
             alter (fun x => x + density_value * wvc cm !!! v * vol_c cm) v values)
          values)
  end.

(** [xfc[k] = 0.25*(xf[k] + cm->xc[k])], the part of the barycenter of a
    sub-tetrahedron (vertex, edge center, face center, cell center) that
    the face center and the cell center give. *)
Definition xfc_of (cm : cs_cell_mesh_t) (xf : list cs_real_t) : list cs_real_t :=
  map (fun k => dbl 0.25 * (xf !!! k + xc cm !!! k)) (seq 0 3).

(** Scalar density at dual cells, by analytic function, barycentric
    quadrature.  The division [1/vol_vc[v]] has no guard, here as in the
    sources; what it gives on a zero divisor is a matter of [double]
    arithmetic, for which see [Binary64]. *)
Definition cs_source_term_dcsd_bary_by_analytic : cs_source_term_cellwise_t :=
  fun source cm cb values =>
  match source with
  | None => Ok values
  | Some source =>
    assert! cs_test_flag (flag cm)
      (Z.lor (Z.lor (Z.lor (Z.lor (Z.lor CS_CDO_LOCAL_PVQ CS_CDO_LOCAL_PFQ)
         CS_CDO_LOCAL_HFQ) CS_CDO_LOCAL_FE) CS_CDO_LOCAL_FEQ) CS_CDO_LOCAL_EV);
    do anai <- as_analytic (input source);
    (* barycenter of each portion of dual cells *)
    let xgv := replicate (3 * n_vc cm) 0 in
    let xgv :=
      for_loop 0 (n_fc cm) (fun f xgv =>
        let xf := center (face cm !!! f) in
        let hf_coef := cs_math_onesix * hfc cm !!! f in
        let xfc := xfc_of cm xf in
        for_loop (f2e_idx cm !!! f) (f2e_idx cm !!! (f + 1)%nat) (fun i xgv =>
          let e := f2e_ids cm !!! i in
          let v1 := e2v_ids cm !!! (2 * e)%nat in
          let v2 := e2v_ids cm !!! (2 * e + 1)%nat in
          let xv1 := coords (xv cm) v1 in
          let xv2 := coords (xv cm) v2 in
          let tet_vol := tef cm !!! i * hf_coef in
          let xgv :=
            for_loop 0 3 (fun k xgv =>
              alter (fun x => x + tet_vol *
                       (xfc !!! k + dbl 0.375 * xv1 !!! k + dbl 0.125 * xv2 !!! k))
                    (3 * v1 + k)%nat xgv) xgv in
          for_loop 0 3 (fun k xgv =>
            alter (fun x => x + tet_vol *
                     (xfc !!! k + dbl 0.375 * xv2 !!! k + dbl 0.125 * xv1 !!! k))
                  (3 * v2 + k)%nat xgv) xgv) xgv) xgv in
    (* source term contribution for each vertex *)
    let xgv :=
      for_loop 0 (n_vc cm) (fun v xgv =>
        let vol_vc := vol_c cm * wvc cm !!! v in
        let invvol := 1 / vol_vc in
        for_loop 0 3 (fun k xgv =>
          alter (fun x => x * invvol) (3 * v + k)%nat xgv) xgv) xgv in
    let tcur := t_cur cs_time_step in
    let eval_xgv := anai_eval anai tcur (n_vc cm) xgv in
    Ok (for_loop 0 (n_vc cm)
          (fun v values =>
             <[v := vol_c cm * wvc cm !!! v * eval_xgv !!! v]> values) values)
  end.

(** Scalar density at dual cells, by analytic function, one evaluation per
    sub-tetrahedron. *)
Definition cs_source_term_dcsd_q1o1_by_analytic : cs_source_term_cellwise_t :=
  fun source cm cb values =>
  match source with
  | None => Ok values
  | Some source =>
    assert! cs_test_flag (flag cm)
      (Z.lor (Z.lor (Z.lor (Z.lor CS_CDO_LOCAL_PFQ CS_CDO_LOCAL_HFQ)
         CS_CDO_LOCAL_FE) CS_CDO_LOCAL_FEQ) CS_CDO_LOCAL_EV);
    let tcur := t_cur cs_time_step in
    do anai <- as_analytic (input source);
    Ok (for_loop 0 (n_fc cm) (fun f values =>
          let xf := center (face cm !!! f) in
          let hf_coef := cs_math_onesix * hfc cm !!! f in
          let xfc := xfc_of cm xf in
          for_loop (f2e_idx cm !!! f) (f2e_idx cm !!! (f + 1)%nat) (fun i values =>
            let e := f2e_ids cm !!! i in
            let v1 := e2v_ids cm !!! (2 * e)%nat in
            let v2 := e2v_ids cm !!! (2 * e + 1)%nat in
            let xv1 := coords (xv cm) v1 in
            let xv2 := coords (xv cm) v2 in
            let half_pef_vol := tef cm !!! i * hf_coef in
            let xg :=
              map (fun k => xfc !!! k + dbl 0.375 * xv1 !!! k + dbl 0.125 * xv2 !!! k)
                  (seq 0 3) ++
              map (fun k => xfc !!! k + dbl 0.375 * xv2 !!! k + dbl 0.125 * xv1 !!! k)
                  (seq 0 3) in
            let eval_xg := anai_eval anai tcur 2 xg in
            let values :=
              alter (fun x => x + half_pef_vol * eval_xg !!! 0%nat) v1 values in
            alter (fun x => x + half_pef_vol * eval_xg !!! 1%nat) v2 values)
          values) values)
  end.

(** Scalar density at dual cells, by analytic function, ten-point rule. *)
Definition cs_source_term_dcsd_q10o2_by_analytic : cs_source_term_cellwise_t :=
  fun source cm cb values =>
  match source with
  | None => Ok values
  | Some source =>
    assert! cs_test_flag (flag cm)
      (Z.lor (Z.lor (Z.lor (Z.lor (Z.lor (Z.lor CS_CDO_LOCAL_PFQ CS_CDO_LOCAL_HFQ)
         CS_CDO_LOCAL_FE) CS_CDO_LOCAL_FEQ) CS_CDO_LOCAL_EV) CS_CDO_LOCAL_PVQ)
         CS_CDO_LOCAL_PEQ);
    let tcur := t_cur cs_time_step in
    do anai <- as_analytic (input source);
    (* 1) contributions seen by the whole portion of dual cell *)
    let eval_c := anai_eval anai tcur 1 (xc cm) !!! 0%nat in
    let eval_v := anai_eval anai tcur (n_vc cm) (xv cm) in
    let xvc :=
      flat_map (fun v =>
        map (fun k => dbl 0.5 * (xc cm !!! k + coords (xv cm) v !!! k)) (seq 0 3))
        (seq 0 (n_vc cm)) in
    let eval_vc := anai_eval anai tcur (n_vc cm) xvc in
    (* -1/20 on extremity points and 1/5 on midpoints *)
    let contrib :=
      map (fun v => wvc cm !!! v * vol_c cm *
                    (dbl (-0.05) * (eval_c + eval_v !!! v) + dbl 0.2 * eval_vc !!! v))
          (seq 0 (n_vc cm)) in
    (* 2) contribution related to edges *)
    let x_e :=
      flat_map (fun e => map (fun k => center (edge cm !!! e) !!! k) (seq 0 3))
               (seq 0 (n_ec cm)) in
    let xec :=
      flat_map (fun e =>
        map (fun k => dbl 0.5 * (xc cm !!! k + center (edge cm !!! e) !!! k)) (seq 0 3))
        (seq 0 (n_ec cm)) in
    let eval_e := anai_eval anai tcur (2 * n_ec cm) (x_e ++ xec) in
    let eval_ec := drop (n_ec cm) eval_e in
    let xve :=
      flat_map (fun e =>
        let xe := center (edge cm !!! e) in
        let xv1 := coords (xv cm) (e2v_ids cm !!! (2 * e)%nat) in
        let xv2 := coords (xv cm) (e2v_ids cm !!! (2 * e + 1)%nat) in
        map (fun k => dbl 0.5 * (xv1 !!! k + xe !!! k)) (seq 0 3) ++
        map (fun k => dbl 0.5 * (xv2 !!! k + xe !!! k)) (seq 0 3))
        (seq 0 (n_ec cm)) in
    let eval_ve := anai_eval anai tcur (2 * n_ec cm) xve in
    (* 3) main loop on faces *)
    let contrib :=
      for_loop 0 (n_fc cm) (fun f contrib =>
        let xf := center (face cm !!! f) in
        let hfc := hfc cm !!! f in
        let pvf_vol := replicate (n_vc cm) 0 in
        let '(pvf_vol, contrib) :=
          for_loop (f2e_idx cm !!! f) (f2e_idx cm !!! (f + 1)%nat)
            (fun i '(pvf_vol, contrib) =>
              let e := f2e_ids cm !!! i in
              let v1 := e2v_ids cm !!! (2 * e)%nat in
              let v2 := e2v_ids cm !!! (2 * e + 1)%nat in
              let half_pef_vol := cs_math_onesix * tef cm !!! i * hfc in
              let pvf_vol := alter (fun x => x + half_pef_vol) v1 pvf_vol in
              let pvf_vol := alter (fun x => x + half_pef_vol) v2 pvf_vol in
              let xef :=
                map (fun k => dbl 0.5 * (center (edge cm !!! e) !!! k + xf !!! k))
                    (seq 0 3) in
              let eval_ef := anai_eval anai tcur 1 xef !!! 0%nat in
              (* 1/5 (EF + EC) -1/20 * (E) *)
              let common_ef_contrib :=
                dbl 0.2 * (eval_ef + eval_ec !!! e) - dbl 0.05 * eval_e !!! e in
              let contrib :=
                alter (fun x => x + half_pef_vol *
                         (common_ef_contrib + dbl 0.2 * eval_ve !!! (2 * e)%nat))
                      v1 contrib in
              let contrib :=
                alter (fun x => x + half_pef_vol *
                         (common_ef_contrib + dbl 0.2 * eval_ve !!! (2 * e + 1)%nat))
                      v2 contrib in
              (pvf_vol, contrib))
            (pvf_vol, contrib) in
        (* contributions related to this face *)
        let xvfc :=
          map (fun k => xf !!! k) (seq 0 3) ++
          map (fun k => dbl 0.5 * (xf !!! k + xc cm !!! k)) (seq 0 3) in
        let '(ids, xvfc) :=
          for_loop 0 (n_vc cm) (fun v '(ids, xvfc) =>
            if decide (0 < pvf_vol !!! v) then
              (ids ++ [v],
               xvfc ++ map (fun k => dbl 0.5 * (xf !!! k + xv cm !!! (3 * v + k)%nat))
                           (seq 0 3))
            else (ids, xvfc)) ([], xvfc) in
        let n_vf := length ids in
        let eval_vfc := anai_eval anai tcur (2 + n_vf) xvfc in
        for_loop 0 n_vf (fun i contrib =>
          let v := ids !!! i in
          let val_vfc := dbl (-0.05) * eval_vfc !!! 0%nat + dbl 0.2 * eval_vfc !!! 1%nat in
          alter (fun x => x + pvf_vol !!! v * (val_vfc + dbl 0.2 * eval_vfc !!! (2 + i)%nat))
                v contrib) contrib) contrib in
    (* add the computed contributions to the return values *)
    Ok (for_loop 0 (n_vc cm)
          (fun v values => alter (fun x => x + contrib !!! v) v values) values)
  end.

(** Scalar density at dual cells, by analytic function, five-point rule. *)
Definition cs_source_term_dcsd_q5o3_by_analytic : cs_source_term_cellwise_t :=
  fun source cm cb values =>
  match source with
  | None => Ok values
  | Some source =>
    assert! cs_test_flag (flag cm)
      (Z.lor (Z.lor (Z.lor CS_CDO_LOCAL_PEQ CS_CDO_LOCAL_PFQ) CS_CDO_LOCAL_FE)
         CS_CDO_LOCAL_EV);
    let tcur := t_cur cs_time_step in
    do anai <- as_analytic (input source);
    let contrib := replicate (n_vc cm) 0 in
    let gauss_sum (xv_ xe xf : list cs_real_t) (tet_vol : cs_real_t) : cs_real_t :=
      let '(gauss_pts, weights) :=
        cs_quadrature_tet_5pts xv_ xe xf (xc cm) tet_vol in
      let results := anai_eval anai tcur 5 gauss_pts in
      for_loop 0 5 (fun p sum => sum + results !!! p * weights !!! p) 0 in
    let contrib :=
      for_loop 0 (n_fc cm) (fun f contrib =>
        let xf := center (face cm !!! f) in
        for_loop (f2e_idx cm !!! f) (f2e_idx cm !!! (f + 1)%nat) (fun i contrib =>
          let e := f2e_ids cm !!! i in
          let v1 := e2v_ids cm !!! (2 * e)%nat in
          let v2 := e2v_ids cm !!! (2 * e + 1)%nat in
          let tet_vol :=
            dbl 0.5 * cs_math_voltet (coords (xv cm) v1) (coords (xv cm) v2) xf (xc cm) in
          let sum := gauss_sum (coords (xv cm) v1) (center (edge cm !!! e)) xf tet_vol in
          let contrib := alter (fun x => x + sum) v1 contrib in
          let sum := gauss_sum (coords (xv cm) v2) (center (edge cm !!! e)) xf tet_vol in
          alter (fun x => x + sum) v2 contrib) contrib) contrib in
    Ok (for_loop 0 (n_vc cm)
          (fun v values => alter (fun x => x + contrib !!! v) v values) values)
  end.

(** Scalar potential at primal vertices and cells, by value. *)
Definition cs_source_term_vcsp_by_value : cs_source_term_cellwise_t :=
  fun source cm cb values =>
  match source with
  | None => Ok values
  | Some source =>
    do h <- hdg_not_null cb;
    do input <- as_values (input source);
    let pot_value := input !!! 0%nat in
    let eval := replicate (n_vc cm) pot_value ++ [pot_value] in
    let hdg_eval := cs_locmat_matvec h eval in
    Ok (for_loop 0 (n_vc cm + 1)
          (fun v values => alter (fun x => x + hdg_eval !!! v) v values) values)
  end.

(** Scalar potential at primal vertices and cells, by analytic function. *)
Definition cs_source_term_vcsp_by_analytic : cs_source_term_cellwise_t :=
  fun source cm cb values =>
  match source with
  | None => Ok values
  | Some source =>
    do h <- hdg_not_null cb;
    let tcur := t_cur cs_time_step in
    do anai <- as_analytic (input source);
    let eval :=
      anai_eval anai tcur (n_vc cm) (xv cm) ++ anai_eval anai tcur 1 (xc cm) in
    let hdg_eval := cs_locmat_matvec h eval in
    Ok (for_loop 0 (n_vc cm + 1)
          (fun v values => alter (fun x => x + hdg_eval !!! v) v values) values)
  end.

(** Scalar density on primal cells, by value, face-based schemes. *)
Definition cs_source_term_fbsd_by_value : cs_source_term_cellwise_t :=
  fun source cm cb values =>
  match source with
  | None => Ok values
  | Some source =>
    do input <- as_values (input source);
    Ok (<[n_fc cm := input !!! 0%nat * vol_c cm]> values)
  end.

(** Scalar density on primal cells, by analytic function at the cell
    center, face-based schemes. *)
Definition cs_source_term_fbsd_bary_by_analytic : cs_source_term_cellwise_t :=
  fun source cm cb values =>
  match source with
  | None => Ok values
  | Some source =>
    do anai <- as_analytic (input source);
    let tcur := t_cur cs_time_step in
    let eval_xc := anai_eval anai tcur 1 (xc cm) !!! 0%nat in
    Ok (<[n_fc cm := vol_c cm * eval_xc]> values)
  end.

(** The evaluators of this file. *)
Definition cs_source_term_evaluators : list cs_source_term_cellwise_t :=
  [ cs_source_term_pvsp_by_value;
    cs_source_term_pvsp_by_analytic;
    cs_source_term_dcsd_by_value;
    cs_source_term_dcsd_bary_by_analytic;
    cs_source_term_dcsd_q1o1_by_analytic;
    cs_source_term_dcsd_q10o2_by_analytic;
    cs_source_term_dcsd_q5o3_by_analytic;
    cs_source_term_vcsp_by_value;
    cs_source_term_vcsp_by_analytic;
    cs_source_term_fbsd_by_value;
    cs_source_term_fbsd_bary_by_analytic ].

(** * The default location of a source term *)

(** The flag of a new source term, by the scheme of its equation.  The
    [default] branch of the sources, a [bft_error], is for values outside
    the enumeration. *)
Definition cs_source_term_set_default_flag (scheme : cs_space_scheme_t) : Z :=
  match scheme with
  | CS_SPACE_SCHEME_CDOVB => Z.lor CS_FLAG_DUAL CS_FLAG_CELL
  | CS_SPACE_SCHEME_CDOFB => Z.lor CS_FLAG_PRIMAL CS_FLAG_CELL
  | CS_SPACE_SCHEME_CDOVCB | CS_SPACE_SCHEME_HHO => CS_FLAG_PRIMAL
  end.

(** * The cell mask *)

(** Conversion to the unsigned type [cs_mask_t]. *)
Definition to_cs_mask_t (z : Z) : Z := z mod 2 ^ Z.of_nat cs_mask_bits.

(** [st->meta & CS_FLAG_FULL_LOC]: the definition covers all cells. *)
Definition full_loc (st : cs_xdef_t) : Prop :=
  Z.land (meta st) CS_FLAG_FULL_LOC <> 0%Z.

(** Update of the mask of each cell by the source term [st_id]. *)
Definition _set_mask (st : option cs_xdef_t) (st_id : nat) (cell_mask : list Z)
    : result (list Z) :=
  match st with
  | None => Err (bft_error _err_empty_st [])
  | Some st =>
    let mask := to_cs_mask_t (Z.shiftl 1 (Z.of_nat st_id)) in
    if decide (full_loc st) then
      Ok (for_loop 0 (n_cells cs_cdo_quant)
            (fun i cell_mask =>
               alter (fun m => to_cs_mask_t (Z.lor m mask)) i cell_mask) cell_mask)
    else
      let z := cs_volume_zone_by_id (z_id st) in
      Ok (for_loop 0 (z_n_cells z)
            (fun i cell_mask =>
               alter (fun m => to_cs_mask_t (Z.lor m mask)) (cell_ids z !!! i) cell_mask)
            cell_mask)
  end.

(** * Initialisation *)

(** What [cs_source_term_init] gives back: its return value [msh_flag] and
    the three arguments it writes. *)
Record cs_source_term_init_t : Type := {
  msh_flag : Z;
  sys_flag : Z;
  compute_source : list (option cs_source_term_cellwise_t);
  source_mask : option (list Z)
}.

(** The [switch] on the space scheme in the loop on source terms: the bits
    added to [msh_flag] and the evaluator stored in
    [compute_source[st_id]]. *)
Definition bind_evaluator (space_scheme : cs_space_scheme_t) (st_def : cs_xdef_t)
    : result (Z * cs_source_term_cellwise_t) :=
  match space_scheme with
  | CS_SPACE_SCHEME_CDOVB =>
    if decide (Z.land (meta st_def) CS_FLAG_DUAL <> 0%Z) then
      match type st_def with
      | CS_XDEF_BY_VALUE =>
        Ok (CS_CDO_LOCAL_PVQ, cs_source_term_dcsd_by_value)
      | CS_XDEF_BY_ANALYTIC_FUNCTION =>
        match qtype st_def with
        | CS_QUADRATURE_BARY =>
          Ok (Z.lor (Z.lor (Z.lor (Z.lor (Z.lor CS_CDO_LOCAL_PVQ CS_CDO_LOCAL_EV)
                CS_CDO_LOCAL_PFQ) CS_CDO_LOCAL_HFQ) CS_CDO_LOCAL_FE) CS_CDO_LOCAL_FEQ,
              cs_source_term_dcsd_bary_by_analytic)
        | CS_QUADRATURE_BARY_SUBDIV =>
          Ok (Z.lor (Z.lor (Z.lor (Z.lor CS_CDO_LOCAL_EV CS_CDO_LOCAL_PFQ)
                CS_CDO_LOCAL_HFQ) CS_CDO_LOCAL_FE) CS_CDO_LOCAL_FEQ,
              cs_source_term_dcsd_q1o1_by_analytic)
        | CS_QUADRATURE_HIGHER =>
          Ok (Z.lor (Z.lor (Z.lor (Z.lor (Z.lor (Z.lor CS_CDO_LOCAL_PFQ CS_CDO_LOCAL_HFQ)
                CS_CDO_LOCAL_FE) CS_CDO_LOCAL_FEQ) CS_CDO_LOCAL_EV) CS_CDO_LOCAL_PVQ)
                CS_CDO_LOCAL_PEQ,
              cs_source_term_dcsd_q10o2_by_analytic)
        | CS_QUADRATURE_HIGHEST =>
          Ok (Z.lor (Z.lor (Z.lor CS_CDO_LOCAL_PEQ CS_CDO_LOCAL_PFQ) CS_CDO_LOCAL_FE)
                CS_CDO_LOCAL_EV,
              cs_source_term_dcsd_q5o3_by_analytic)
        | _ =>
          Err (bft_error (" Invalid type of quadrature for computing a source term" ++
                          " with CDOVB schemes") [])
        end
      | _ =>
        Err (bft_error " Invalid type of definition for a source term in CDOVB" [])
      end
    else
      assert! bool_decide (Z.land (meta st_def) CS_FLAG_PRIMAL <> 0%Z);
      match type st_def with
      | CS_XDEF_BY_VALUE => Ok (CS_CDO_LOCAL_PV, cs_source_term_pvsp_by_value)
      | CS_XDEF_BY_ANALYTIC_FUNCTION =>
        Ok (CS_CDO_LOCAL_PV, cs_source_term_pvsp_by_analytic)
      | _ =>
        Err (bft_error " Invalid type of definition for a source term in CDOVB" [])
      end
  | CS_SPACE_SCHEME_CDOVCB =>
    if decide (Z.land (meta st_def) CS_FLAG_DUAL <> 0%Z) then
      Err (bft_error " Invalid type of definition for a source term in CDOVB" [])
    else
      assert! bool_decide (Z.land (meta st_def) CS_FLAG_PRIMAL <> 0%Z);
      match type st_def with
      | CS_XDEF_BY_VALUE => Ok (CS_CDO_LOCAL_PV, cs_source_term_vcsp_by_value)
      | CS_XDEF_BY_ANALYTIC_FUNCTION =>
        Ok (CS_CDO_LOCAL_PV, cs_source_term_vcsp_by_analytic)
      | _ =>
        Err (bft_error " Invalid type of definition for a source term in CDOVB" [])
      end
  | CS_SPACE_SCHEME_CDOFB =>
    match type st_def with
    | CS_XDEF_BY_VALUE => Ok (0%Z, cs_source_term_fbsd_by_value)
    | CS_XDEF_BY_ANALYTIC_FUNCTION =>
      Ok (CS_CDO_LOCAL_PV, cs_source_term_fbsd_bary_by_analytic)
    | _ =>
      Err (bft_error " Invalid type of definition for a source term in CDOVB" [])
    end
  | _ => Err (bft_error "Invalid space scheme for setting the source term." [])
  end.

(** One turn of the loop on source terms.  The state is [msh_flag],
    [*sys_flag], [compute_source] and [need_mask]. *)
Definition init_source_term (space_scheme : cs_space_scheme_t)
    (source_terms : list (option cs_xdef_t)) (st_id : nat)
    (s : Z * Z * list (option cs_source_term_cellwise_t) * bool)
    : result (Z * Z * list (option cs_source_term_cellwise_t) * bool) :=
  let '(msh_flag, sys_flag, compute_source, need_mask) := s in
  match source_terms !! st_id with
  | Some (Some st_def) =>
    let '(msh_flag, sys_flag) :=
      if decide (Z.land (meta st_def) CS_FLAG_PRIMAL <> 0%Z) then
        match space_scheme with
        | CS_SPACE_SCHEME_CDOVB | CS_SPACE_SCHEME_CDOVCB =>
          (Z.lor msh_flag
             (Z.lor (Z.lor (Z.lor (Z.lor (Z.lor CS_CDO_LOCAL_PVQ CS_CDO_LOCAL_DEQ)
                CS_CDO_LOCAL_PFQ) CS_CDO_LOCAL_EV) CS_CDO_LOCAL_FEQ) CS_CDO_LOCAL_HFQ),
           Z.lor sys_flag (Z.lor CS_FLAG_SYS_HLOC_CONF CS_FLAG_SYS_SOURCES_HLOC))
        | _ => (msh_flag, sys_flag)
        end
      else (msh_flag, sys_flag) in
    (* not defined on the whole mesh *)
    let need_mask := if decide (full_loc st_def) then need_mask else true in
    do '(bits, compute) <- bind_evaluator space_scheme st_def;
    Ok (Z.lor msh_flag bits, sys_flag,
        <[st_id := Some compute]> compute_source, need_mask)
  | _ => Err undefined_behaviour
  end.

Definition cs_source_term_init (space_scheme : cs_space_scheme_t)
    (n_source_terms : nat) (source_terms : list (option cs_xdef_t)) (sys_flag : Z)
    : result cs_source_term_init_t :=
  if decide (CS_N_MAX_SOURCE_TERMS < n_source_terms)%nat then
    Err (bft_error " Limitation to %d source terms has been reached!"
                   [Z.of_nat CS_N_MAX_SOURCE_TERMS])
  else
    let msh_flag := 0%Z in
    let compute_source := replicate CS_N_MAX_SOURCE_TERMS None in
    if decide (n_source_terms = 0)%nat then
      Ok {| msh_flag := msh_flag; sys_flag := sys_flag;
            compute_source := compute_source; source_mask := None |}
    else
      do '(msh_flag, sys_flag, compute_source, need_mask) <-
        for_loopM 0 n_source_terms (init_source_term space_scheme source_terms)
          (msh_flag, sys_flag, compute_source, false);
      if need_mask : bool then
        (* build a tag related to the source terms defined in each cell *)
        let mask := replicate (n_cells cs_cdo_quant) 0%Z in
        do mask <-
          for_loopM 0 n_source_terms (fun st_id mask =>
            match source_terms !! st_id with
            | Some st => _set_mask st st_id mask
            | None => Err undefined_behaviour
            end) mask;
        Ok {| msh_flag := msh_flag; sys_flag := sys_flag;
              compute_source := compute_source; source_mask := Some mask |}
      else
        Ok {| msh_flag := msh_flag; sys_flag := sys_flag;
              compute_source := compute_source; source_mask := None |}.

(** * The cellwise dispatcher *)

(** [compute(source_terms[st_id], cm, cb, csys->source)] with
    [compute = compute_source[st_id]]. *)
Definition call_compute (source_terms : list (option cs_xdef_t))
    (compute_source : list (option cs_source_term_cellwise_t))
    (cm : cs_cell_mesh_t) (cb : cs_cell_builder_t) (st_id : nat)
    (source : list cs_real_t) : result (list cs_real_t) :=
  match compute_source !! st_id, source_terms !! st_id with
  | Some (Some compute), Some st => compute st cm cb source
  | _, _ => Err undefined_behaviour
  end.

Definition cs_source_term_compute_cellwise (n_source_terms : nat)
    (source_terms : list (option cs_xdef_t)) (cm : cs_cell_mesh_t) (sys_flag : Z)
    (source_mask : option (list Z))
    (compute_source : list (option cs_source_term_cellwise_t))
    (cb : cs_cell_builder_t) (csys : cs_cell_sys_t) : result cs_cell_sys_t :=
  (* reset local contributions *)
  let source :=
    for_loop 0 (n_dofs csys) (fun i source => <[i := 0]> source) (source csys) in
  if decide (Z.land sys_flag CS_FLAG_SYS_SOURCETERM = 0%Z) then
    Ok {| n_dofs := n_dofs csys; source := source |}
  else
    do source <-
      match source_mask with
      | None =>
        (* all source terms are defined on the whole mesh *)
        for_loopM 0 n_source_terms
          (call_compute source_terms compute_source cm cb) source
      | Some source_mask =>
        (* some source terms are only defined on a selection of cells *)
        for_loopM 0 n_source_terms (fun st_id source =>
          let st_mask := to_cs_mask_t (Z.shiftl 1 (Z.of_nat st_id)) in
          match source_mask !! c_id cm with
          | Some m =>
            if decide (Z.land m st_mask <> 0%Z) then
              call_compute source_terms compute_source cm cb st_id source
            else Ok source
          | None => Err undefined_behaviour
          end) source
      end;
    Ok {| n_dofs := n_dofs csys; source := source |}.

(** * Properties the statements below are about *)

(** An evaluator accumulates: whatever it is called on, there is a
    contribution per entry, the same for every prior content of the array
    of values, that the call adds to the entries; it changes nothing else. *)
Definition accumulates (f : cs_source_term_cellwise_t) : Prop :=
  forall source cm cb, exists contrib : nat -> cs_real_t,
    forall values values',
      f source cm cb values = Ok values' ->
      length values' = length values /\
      forall v x, values !! v = Some x -> values' !! v = Some (x + contrib v).

(** [g] adds [c v] to every entry [v] of an array, and keeps its length. *)
Definition adds (c : nat -> cs_real_t) (g : list cs_real_t -> list cs_real_t) : Prop :=
  forall values,
    length (g values) = length values /\
    forall v x, values !! v = Some x -> g values !! v = Some (x + c v).

Definition additive (g : list cs_real_t -> list cs_real_t) : Prop :=
  exists c, adds c g.

(** What an evaluator does on one definition, cell and builder: it fails
    whatever the array of values, or it transforms the array by [g]. *)
Definition acts_by (f : cs_source_term_cellwise_t) (source : option cs_xdef_t)
    (cm : cs_cell_mesh_t) (cb : cs_cell_builder_t) : Prop :=
  (exists e, forall values, f source cm cb values = Err e) \/
  (exists g, additive g /\ forall values, f source cm cb values = Ok (g values)).

(** The definition [st] is active on the cell [c]. *)
Definition covers (st : cs_xdef_t) (c : nat) : Prop :=
  full_loc st \/ c ∈ cell_ids (cs_volume_zone_by_id (z_id st)).

(** What a mask holds once the source terms [0 .. k-1] are recorded: one
    word per cell, whose bit [j] is set exactly for the definitions
    [j < k] active on the cell. *)
Definition mask_upto (source_terms : list (option cs_xdef_t)) (k : nat)
    (mask : list Z) : Prop :=
  length mask = n_cells cs_cdo_quant /\
  forall c w, mask !! c = Some w ->
    forall j : nat,
      Z.testbit w (Z.of_nat j) = true <->
      (j < k)%nat /\ (j < cs_mask_bits)%nat /\
      exists st, source_terms !! j = Some (Some st) /\ covers st c.

(** What the state of the loop on source terms of [cs_source_term_init]
    holds before the turn [k]: the evaluators of the definitions
    [0 .. k-1], and [need_mask]. *)
Definition init_upto (space_scheme : cs_space_scheme_t)
    (source_terms : list (option cs_xdef_t)) (k : nat)
    (s : Z * Z * list (option cs_source_term_cellwise_t) * bool) : Prop :=
  length (s.1.2) = CS_N_MAX_SOURCE_TERMS /\
  (forall i, (i < k)%nat ->
     exists st bits f,
       source_terms !! i = Some (Some st) /\
       bind_evaluator space_scheme st = Ok (bits, f) /\
       s.1.2 !! i = Some (Some f)) /\
  (s.2 = true <->
   exists i st, (i < k)%nat /\ source_terms !! i = Some (Some st) /\ ~ full_loc st).

Definition has_flag (st : cs_xdef_t) (f : Z) : Prop := Z.land (meta st) f <> 0%Z.


(** The location of a definition is the dual mesh when its metadata hold
    [CS_FLAG_DUAL], the primal mesh otherwise. *)
Definition at_dual (st : cs_xdef_t) : bool := bool_decide (has_flag st CS_FLAG_DUAL).

(** The evaluators that the file implements, by the combination of scheme,
    location, kind and quadrature that the name and the documentation of
    each give (not by the [switch] of [cs_source_term_init]):
    - [pvsp]: a potential at primal vertices, vertex-based scheme; the
      function is evaluated at the vertices, whatever the quadrature;
    - [dcsd]: a density at dual cells, vertex-based scheme; by value, or
      by analytic function with one evaluator for each quadrature;
    - [vcsp]: a potential at primal vertices and cells, vertex+cell-based
      scheme;
    - [fbsd]: a density at primal cells, face-based scheme; by value, or
      by analytic function with the barycentric quadrature. *)
Definition implemented_evaluator (space_scheme : cs_space_scheme_t) (dual : bool)
    (kind : cs_xdef_type_t) (q : cs_quadrature_type_t)
    : option cs_source_term_cellwise_t :=
  match space_scheme, dual, kind, q with
  | CS_SPACE_SCHEME_CDOVB, false, CS_XDEF_BY_VALUE, _ =>
    Some cs_source_term_pvsp_by_value
  | CS_SPACE_SCHEME_CDOVB, false, CS_XDEF_BY_ANALYTIC_FUNCTION, _ =>
    Some cs_source_term_pvsp_by_analytic
  | CS_SPACE_SCHEME_CDOVB, true, CS_XDEF_BY_VALUE, _ =>
    Some cs_source_term_dcsd_by_value
  | CS_SPACE_SCHEME_CDOVB, true, CS_XDEF_BY_ANALYTIC_FUNCTION, CS_QUADRATURE_BARY =>
    Some cs_source_term_dcsd_bary_by_analytic
  | CS_SPACE_SCHEME_CDOVB, true, CS_XDEF_BY_ANALYTIC_FUNCTION,
    CS_QUADRATURE_BARY_SUBDIV =>
    Some cs_source_term_dcsd_q1o1_by_analytic
  | CS_SPACE_SCHEME_CDOVB, true, CS_XDEF_BY_ANALYTIC_FUNCTION, CS_QUADRATURE_HIGHER =>
    Some cs_source_term_dcsd_q10o2_by_analytic
  | CS_SPACE_SCHEME_CDOVB, true, CS_XDEF_BY_ANALYTIC_FUNCTION, CS_QUADRATURE_HIGHEST =>
    Some cs_source_term_dcsd_q5o3_by_analytic
  | CS_SPACE_SCHEME_CDOVCB, false, CS_XDEF_BY_VALUE, _ =>
    Some cs_source_term_vcsp_by_value
  | CS_SPACE_SCHEME_CDOVCB, false, CS_XDEF_BY_ANALYTIC_FUNCTION, _ =>
    Some cs_source_term_vcsp_by_analytic
  | CS_SPACE_SCHEME_CDOFB, false, CS_XDEF_BY_VALUE, _ =>
    Some cs_source_term_fbsd_by_value
  | CS_SPACE_SCHEME_CDOFB, false, CS_XDEF_BY_ANALYTIC_FUNCTION, CS_QUADRATURE_BARY =>
    Some cs_source_term_fbsd_bary_by_analytic
  | _, _, _, _ => None
  end.






(** Two calls of the dispatcher in a row give twice what one call gives. *)
Definition twice_is_double (n_source_terms : nat)
    (source_terms : list (option cs_xdef_t)) (cm : cs_cell_mesh_t) (sys_flag : Z)
    (source_mask : option (list Z))
    (compute_source : list (option cs_source_term_cellwise_t))
    (cb : cs_cell_builder_t) (csys : cs_cell_sys_t) : Prop :=
  forall csys1 csys2,
    cs_source_term_compute_cellwise n_source_terms source_terms cm sys_flag
      source_mask compute_source cb csys = Ok csys1 ->
    cs_source_term_compute_cellwise n_source_terms source_terms cm sys_flag
      source_mask compute_source cb csys1 = Ok csys2 ->
    source csys2 = map (fun x => 2 * x) (source csys1).

(** Setup, then the dispatcher on one cell with what the setup returned. *)
Definition init_then_compute (space_scheme : cs_space_scheme_t)
    (n_source_terms : nat) (source_terms : list (option cs_xdef_t))
    (cm : cs_cell_mesh_t) (cb : cs_cell_builder_t) (csys : cs_cell_sys_t)
    : result cs_cell_sys_t :=
  do r <- cs_source_term_init space_scheme n_source_terms source_terms 0%Z;
  cs_source_term_compute_cellwise n_source_terms source_terms cm
    CS_FLAG_SYS_SOURCETERM (source_mask r) (compute_source r) cb csys.

End SourceTerm.

(** * The barycentric evaluator in double precision

    What [cs_source_term_dcsd_bary_by_analytic] does with its divisors
    depends on the arithmetic of [double]: there the product of two
    positive numbers can be zero, a division by zero gives an infinity
    and [0 * infinity] is not a number.  The exact rationals have none of
    this, so the evaluator is embedded a second time, on binary64 numbers
    (the primitive floats, which round to nearest even as the compiled C
    does), statement by statement as above.  The structures are those of
    the first embedding with [double] fields; [cs_math_onesix] and the
    current time [cs_time_step->t_cur] are parameters. *)
Module Binary64.

#[local] Open Scope float_scope.

#[global] Instance float_inhabited : Inhabited float := populate 0.

Definition cs_analytic_func_t : Type := float -> nat -> list float -> list float.

Record cs_xdef_analytic_input_t : Type := { func : cs_analytic_func_t }.

(** The callback fills [n_pts] entries of its output. *)
Definition anai_eval (anai : cs_xdef_analytic_input_t) (tcur : float)
    (n_pts : nat) (xyz : list float) : list float :=
  resize n_pts 0 (func anai tcur n_pts xyz).

Inductive cs_xdef_input_t : Type :=
| input_values (vals : list float)
| input_analytic (anai : cs_xdef_analytic_input_t).

Record cs_xdef_t : Type := {
  type : cs_xdef_type_t;
  z_id : Z;
  meta : Z;
  qtype : cs_quadrature_type_t;
  input : cs_xdef_input_t
}.

Definition as_analytic (i : cs_xdef_input_t) : result cs_xdef_analytic_input_t :=
  match i with
  | input_analytic anai => Ok anai
  | input_values _ => Err undefined_behaviour
  end.

Record cs_quant_t : Type := {
  meas : float;
  unitv : list float;
  center : list float
}.

#[global] Instance cs_quant_inhabited : Inhabited cs_quant_t :=
  populate {| meas := 0; unitv := []; center := [] |}.

Record cs_cell_mesh_t : Type := {
  flag : Z;
  c_id : nat;
  xc : list float;
  vol_c : float;
  n_vc : nat;
  xv : list float;
  wvc : list float;
  n_ec : nat;
  edge : list cs_quant_t;
  e2v_ids : list nat;
  n_fc : nat;
  face : list cs_quant_t;
  hfc : list float;
  f2e_idx : list nat;
  f2e_ids : list nat;
  tef : list float
}.

Section Evaluator.

Context {hdrs : cs_headers}.
Variables (cs_math_onesix : float) (t_cur : float).

Definition coords (p : list float) (v : nat) : list float := drop (3 * v) p.

Definition xfc_of (cm : cs_cell_mesh_t) (xf : list float) : list float :=
  map (fun k => 0.25 * (xf !!! k + xc cm !!! k)) (seq 0 3).

(** The first loops of the evaluator: for each vertex and coordinate, the
    sum over its sub-tetrahedra of their barycenters weighted by their
    volumes. *)
Definition barycenter_sums (cm : cs_cell_mesh_t) : list float :=
  let xgv := replicate (3 * n_vc cm) 0 in
  for_loop 0 (n_fc cm) (fun f xgv =>
    let xf := center (face cm !!! f) in
    let hf_coef := cs_math_onesix * hfc cm !!! f in
    let xfc := xfc_of cm xf in
    for_loop (f2e_idx cm !!! f) (f2e_idx cm !!! (f + 1)%nat) (fun i xgv =>
      let e := f2e_ids cm !!! i in
      let v1 := e2v_ids cm !!! (2 * e)%nat in
      let v2 := e2v_ids cm !!! (2 * e + 1)%nat in
      let xv1 := coords (xv cm) v1 in
      let xv2 := coords (xv cm) v2 in
      let tet_vol := tef cm !!! i * hf_coef in
      let xgv :=
        for_loop 0 3 (fun k xgv =>
          alter (fun x => x + tet_vol *
                   (xfc !!! k + 0.375 * xv1 !!! k + 0.125 * xv2 !!! k))
                (3 * v1 + k)%nat xgv) xgv in
      for_loop 0 3 (fun k xgv =>
        alter (fun x => x + tet_vol *
                 (xfc !!! k + 0.375 * xv2 !!! k + 0.125 * xv1 !!! k))
              (3 * v2 + k)%nat xgv) xgv) xgv) xgv.

(** The loop of the divisions: [vol_vc[v] = cm->vol_c * cm->wvc[v];
    invvol = 1/vol_vc[v]; xgv[v][k] *= invvol]. *)
Definition divide_by_volumes (cm : cs_cell_mesh_t) (xgv : list float) : list float :=
  for_loop 0 (n_vc cm) (fun v xgv =>
    let vol_vc := vol_c cm * wvc cm !!! v in
    let invvol := 1 / vol_vc in
    for_loop 0 3 (fun k xgv =>
      alter (fun x => x * invvol) (3 * v + k)%nat xgv) xgv) xgv.

(** Scalar density at dual cells, by analytic function, barycentric
    quadrature. *)
Definition cs_source_term_dcsd_bary_by_analytic (source : option cs_xdef_t)
    (cm : cs_cell_mesh_t) (cb : cs_cell_builder_t) (values : list float)
    : result (list float) :=
  match source with
  | None => Ok values
  | Some source =>
    assert! cs_test_flag (flag cm)
      (Z.lor (Z.lor (Z.lor (Z.lor (Z.lor CS_CDO_LOCAL_PVQ CS_CDO_LOCAL_PFQ)
         CS_CDO_LOCAL_HFQ) CS_CDO_LOCAL_FE) CS_CDO_LOCAL_FEQ) CS_CDO_LOCAL_EV);
    do anai <- as_analytic (input source);
    (* barycenter of each portion of dual cells *)
    let xgv := barycenter_sums cm in
    (* source term contribution for each vertex *)
    let xgv := divide_by_volumes cm xgv in
    let eval_xgv := anai_eval anai t_cur (n_vc cm) xgv in
    Ok (for_loop 0 (n_vc cm)
          (fun v values =>
             <[v := vol_c cm * wvc cm !!! v * eval_xgv !!! v]> values) values)
  end.

End Evaluator.

(** The cell has a positive volume and positive fractions of it at its
    vertices. *)
Definition positive_cell (cm : cs_cell_mesh_t) : Prop :=
  (0 <? vol_c cm) = true /\
  forall v, (v < n_vc cm)%nat -> (0 <? wvc cm !!! v) = true.

(** No divisor of the loop of the divisions is zero. *)
Definition nonzero_divisors (cm : cs_cell_mesh_t) : Prop :=
  forall v, (v < n_vc cm)%nat -> (vol_c cm * wvc cm !!! v =? 0) = false.

(** C10 as it is stated: a positive volume and positive fractions make
    every division well-defined. *)
Definition positive_makes_division_safe : Prop :=
  forall cm, positive_cell cm -> nonzero_divisors cm.

End Binary64.

(** * Sample values

    One choice of the header constants and of the shared structures, and
    a few cells and definitions, on which the model runs.  The bit
    positions are arbitrary distinct ones; the five-point rule and the
    volume of a tetrahedron are the textbook ones. *)

Definition vec3 (a : list cs_real_t) (k : nat) : cs_real_t := a !!! k.

Definition sub3 (a b : list cs_real_t) : list cs_real_t :=
  map (fun k => vec3 a k - vec3 b k) (seq 0 3).

Definition det3 (a b c : list cs_real_t) : cs_real_t :=
  vec3 a 0 * (vec3 b 1 * vec3 c 2 - vec3 b 2 * vec3 c 1)
  - vec3 a 1 * (vec3 b 0 * vec3 c 2 - vec3 b 2 * vec3 c 0)
  + vec3 a 2 * (vec3 b 0 * vec3 c 1 - vec3 b 1 * vec3 c 0).

Definition sample_voltet (xv xe xf xc : list cs_real_t) : cs_real_t :=
  let d := det3 (sub3 xv xe) (sub3 xf xe) (sub3 xc xe) in
  dbl (1 # 6) * (if decide (d < 0) then - d else d).

Definition sample_tet_5pts (xv xe xf xc : list cs_real_t) (vol : cs_real_t)
    : list cs_real_t * list cs_real_t :=
  let mix (a b c d : cs_real_t) : list cs_real_t :=
    map (fun k => a * vec3 xv k + b * vec3 xe k + c * vec3 xf k + d * vec3 xc k)
        (seq 0 3) in
  let q := dbl 0.25 in
  let s := dbl (1 # 6) in
  let h := dbl 0.5 in
  (mix q q q q ++ mix s s s h ++ mix s s h s ++ mix s h s s ++ mix h s s s,
   [dbl (-0.8) * vol; dbl 0.45 * vol; dbl 0.45 * vol; dbl 0.45 * vol; dbl 0.45 * vol]).

Definition sample_matvec (m : list (list cs_real_t)) (vec : list cs_real_t)
    : list cs_real_t :=
  map (fun row => foldr Qcplus 0 (zip_with Qcmult row vec)) m.

#[local] Instance sample_headers : cs_headers := {|
  CS_N_MAX_SOURCE_TERMS := 8;
  cs_mask_bits := 8;
  CS_FLAG_PRIMAL := 64;
  CS_FLAG_DUAL := 128;
  CS_FLAG_VERTEX := 256;
  CS_FLAG_CELL := 2048;
  CS_FLAG_FULL_LOC := 1;
  CS_FLAG_SYS_SOURCETERM := 16;
  CS_FLAG_SYS_HLOC_CONF := 32;
  CS_FLAG_SYS_SOURCES_HLOC := 64;
  CS_CDO_LOCAL_PV := 1;
  CS_CDO_LOCAL_PVQ := 2;
  CS_CDO_LOCAL_PEQ := 4;
  CS_CDO_LOCAL_DEQ := 8;
  CS_CDO_LOCAL_PFQ := 16;
  CS_CDO_LOCAL_EV := 32;
  CS_CDO_LOCAL_FEQ := 64;
  CS_CDO_LOCAL_HFQ := 128;
  CS_CDO_LOCAL_FE := 256;
  cs_test_flag flag ref := Z.eqb (Z.land flag ref) ref;
  cs_math_onesix := dbl (1 # 6);
  cs_math_voltet := sample_voltet;
  cs_quadrature_tet_5pts := sample_tet_5pts;
  cs_locmat_t := list (list cs_real_t);
  cs_locmat_matvec := sample_matvec
|}.

(** A mesh of three cells; the zone 1 holds the cells 0 and 2. *)
#[local] Instance sample_shared : cs_shared := {|
  cs_cdo_quant := {| n_cells := 3; n_vertices := 5 |};
  cs_time_step := {| t_cur := 0 |};
  cs_volume_zone_by_id z :=
    {| cell_ids := if decide (z = 1%Z) then [0; 2]%nat else [] |}
|}.

(** The tetrahedron with vertices (0,0,0), (1,0,0), (0,2,0), (0,0,3), of
    volume one, as the cell [c] of the mesh.  Each vertex owns a quarter
    of the cell.  [hfc] and [tef] are given values for which
    [tef[i]*hfc[f]/6] is the volume 1/24 of each of the 24 sub-tetrahedra
    (vertex, edge center, face center, cell center). *)
Definition quant_at (x : list cs_real_t) : cs_quant_t :=
  {| meas := 0; unitv := []; center := x |}.

Definition sample_cell (c : nat) : cs_cell_mesh_t := {|
  flag := 511;
  c_id := c;
  xc := [dbl 0.25; dbl 0.5; dbl 0.75];
  vol_c := 1;
  n_vc := 4;
  xv := [0; 0; 0;  1; 0; 0;  0; dbl 2; 0;  0; 0; dbl 3];
  wvc := [dbl 0.25; dbl 0.25; dbl 0.25; dbl 0.25];
  n_ec := 6;
  edge := map quant_at
    [ [dbl 0.5; 0; 0]; [0; 1; 0]; [0; 0; dbl 1.5];
      [dbl 0.5; 1; 0]; [dbl 0.5; 0; dbl 1.5]; [0; 1; dbl 1.5] ];
  e2v_ids := [0; 1;  0; 2;  0; 3;  1; 2;  1; 3;  2; 3]%nat;
  n_fc := 4;
  face := map quant_at
    [ [dbl (1 # 3); dbl (2 # 3); 0]; [dbl (1 # 3); 0; 1];
      [0; dbl (2 # 3); 1]; [dbl (1 # 3); dbl (2 # 3); 1] ];
  hfc := [1; 1; 1; 1];
  f2e_idx := [0; 3; 6; 9; 12]%nat;
  f2e_ids := [0; 1; 3;  0; 2; 4;  1; 2; 5;  3; 4; 5]%nat;
  tef := replicate 12 (dbl 0.25)
|}.

Definition sample_cb : cs_cell_builder_t := {| hdg := None |}.

(** Definitions by value, as [cs_equation_add_source_term_by_val] creates
    them: the flag of the location, with [CS_FLAG_FULL_LOC] when the zone
    is the zone 0 of all cells. *)
Definition by_value (location : Z) (zone : Z) (rho : cs_real_t) : cs_xdef_t := {|
  type := CS_XDEF_BY_VALUE;
  z_id := zone;
  meta := Z.lor location (if decide (zone = 0%Z) then CS_FLAG_FULL_LOC else 0%Z);
  qtype := CS_QUADRATURE_NONE;
  input := input_values [rho]
|}.

(** The analytic function [f(x,y,z) = x]. *)
Definition first_coordinate : cs_xdef_analytic_input_t :=
  {| func := fun _ n_pts xyz => map (fun p => xyz !!! (3 * p)%nat) (seq 0 n_pts) |}.

Definition by_analytic (location : Z) (zone : Z) (q : cs_quadrature_type_t)
    : cs_xdef_t := {|
  type := CS_XDEF_BY_ANALYTIC_FUNCTION;
  z_id := zone;
  meta := Z.lor location (if decide (zone = 0%Z) then CS_FLAG_FULL_LOC else 0%Z);
  qtype := q;
  input := input_analytic first_coordinate
|}.

Definition zeroed (n : nat) : cs_cell_sys_t :=
  {| n_dofs := n; source := replicate n 0 |}.

(** With the default location of the vertex-based scheme (dual cells):
    the densities 2, on the whole mesh, and 3, on the zone 1, and the
    function [x] with the barycentric quadrature.  With the default
    location of the face-based scheme (primal cells): the densities 2 and
    3 and the function [x], on the whole mesh. *)
Definition dual_cells : Z := cs_source_term_set_default_flag CS_SPACE_SCHEME_CDOVB.
Definition primal_cells : Z := cs_source_term_set_default_flag CS_SPACE_SCHEME_CDOFB.

Definition dual_two : cs_xdef_t := by_value dual_cells 0 (dbl 2).
Definition dual_three_zone1 : cs_xdef_t := by_value dual_cells 1 (dbl 3).
Definition dual_x : cs_xdef_t := by_analytic dual_cells 0 CS_QUADRATURE_BARY.
Definition primal_two : cs_xdef_t := by_value primal_cells 0 (dbl 2).
Definition primal_three : cs_xdef_t := by_value primal_cells 0 (dbl 3).
Definition primal_x : cs_xdef_t := by_analytic primal_cells 0 CS_QUADRATURE_BARY.


(** In double precision: the tetrahedron with vertices (0,0,0), (s,0,0),
    (0,2s,0), (0,0,3s), of volume [s^3], each vertex owning a quarter of
    it, and the function [x] at dual cells. *)
Definition quant64_at (x : list float) : Binary64.cs_quant_t :=
  {| Binary64.meas := 0; Binary64.unitv := []; Binary64.center := x |}.

Definition tetrahedron64 (s volume : float) : Binary64.cs_cell_mesh_t :=
  let third := (s / 3)%float in
  let half := (0.5 * s)%float in
  let two := (2 * s)%float in
  {| Binary64.flag := 511;
     Binary64.c_id := 0;
     Binary64.xc := [0.25 * s; 0.5 * s; 0.75 * s]%float;
     Binary64.vol_c := volume;
     Binary64.n_vc := 4;
     Binary64.xv := [0; 0; 0;  s; 0; 0;  0; two; 0;  0; 0; 3 * s]%float;
     Binary64.wvc := [0.25; 0.25; 0.25; 0.25]%float;
     Binary64.n_ec := 6;
     Binary64.edge := map quant64_at
       [ [half; 0; 0]; [0; s; 0]; [0; 0; 1.5 * s];
         [half; s; 0]; [half; 0; 1.5 * s]; [0; s; 1.5 * s] ]%float;
     Binary64.e2v_ids := [0; 1;  0; 2;  0; 3;  1; 2;  1; 3;  2; 3]%nat;
     Binary64.n_fc := 4;
     Binary64.face := map quant64_at
       [ [third; 2 * third; 0]; [third; 0; s];
         [0; 2 * third; s]; [third; 2 * third; s] ]%float;
     Binary64.hfc := [s; s; s; s];
     Binary64.f2e_idx := [0; 3; 6; 9; 12]%nat;
     Binary64.f2e_ids := [0; 1; 3;  0; 2; 4;  1; 2; 5;  3; 4; 5]%nat;
     Binary64.tef := replicate 12 (0.25 * s * s)%float |}.

(** The side [2^-358] gives the volume [2^-1074], the smallest positive
    [double] (about 5e-324). *)
Definition tiny_cell : Binary64.cs_cell_mesh_t :=
  tetrahedron64 0x1p-358 0x1p-1074.

Definition first_coordinate64 : Binary64.cs_xdef_analytic_input_t :=
  {| Binary64.func := fun _ n_pts xyz =>
       map (fun p => xyz !!! (3 * p)%nat) (seq 0 n_pts) |}.

Definition dual_x64 : Binary64.cs_xdef_t := {|
  Binary64.type := CS_XDEF_BY_ANALYTIC_FUNCTION;
  Binary64.z_id := 0;
  Binary64.meta := Z.lor dual_cells CS_FLAG_FULL_LOC;
  Binary64.qtype := CS_QUADRATURE_BARY;
  Binary64.input := Binary64.input_analytic first_coordinate64
|}.

(** What [cs_source_term_init] returns for the vertex-based scheme on
    [dual_two] and [dual_three_zone1], and on [dual_three_zone1] alone. *)
Definition sample_init_two : cs_source_term_init_t := {|
  msh_flag := 2;
  sys_flag := 0;
  compute_source :=
    [Some cs_source_term_dcsd_by_value; Some cs_source_term_dcsd_by_value;
     None; None; None; None; None; None];
  source_mask := Some [3; 1; 3]%Z
|}.

Definition sample_init_zone : cs_source_term_init_t := {|
  msh_flag := 2;
  sys_flag := 0;
  compute_source :=
    [Some cs_source_term_dcsd_by_value; None; None; None; None; None; None; None];
  source_mask := Some [1; 0; 1]%Z
|}.

(** * More of the file: the reduction of a source term, flags, constant functions *)

(** The other bits of the metadata of a definition that
    [cs_source_term_set_reduction] reads ([cs_cdo.h]). *)
Class cs_flag_headers : Type := {
  CS_FLAG_SCALAR : Z;
  CS_FLAG_VECTOR : Z;
  CS_FLAG_TENSOR : Z;
  CS_FLAG_BORDER : Z;
  CS_FLAG_BY_CELL : Z
}.

Section SourceTermMore.

Context {hdrs : cs_headers} {shared : cs_shared} {flags : cs_flag_headers}.

Definition with_meta (st : cs_xdef_t) (m : Z) : cs_xdef_t := {|
  type := type st;
  z_id := z_id st;
  meta := m;
  qtype := qtype st;
  input := input st
|}.

Definition _err_not_handled : string :=
  " Stop modifying the source term flag.
 This case is not handled.".

(** [if (save_meta & f) st->meta |= f] *)
Definition keep_flag (save_meta f m : Z) : Z :=
  if decide (Z.land save_meta f <> 0%Z) then Z.lor m f else m.

(** The parts of the flag that a change of reduction leaves as they are. *)
Definition unchanged_parts (save_meta : Z) : Z :=
  keep_flag save_meta CS_FLAG_FULL_LOC
    (keep_flag save_meta CS_FLAG_BY_CELL
       (keep_flag save_meta CS_FLAG_BORDER
          (keep_flag save_meta CS_FLAG_TENSOR
             (keep_flag save_meta CS_FLAG_VECTOR
                (keep_flag save_meta CS_FLAG_SCALAR 0%Z))))).

(** Change of the reduction of a source term, to [CS_FLAG_DUAL] or to
    [CS_FLAG_PRIMAL]; the definition after the call. *)
Definition cs_source_term_set_reduction (st : option cs_xdef_t) (flag : Z)
    : result cs_xdef_t :=
  match st with
  | None => Err (bft_error _err_empty_st [])
  | Some st =>
    if decide (Z.land (meta st) flag <> 0%Z) then Ok st (* nothing to do *)
    else
      let save_meta := meta st in
      let m := unchanged_parts save_meta in
      if decide (Z.land flag CS_FLAG_DUAL <> 0%Z) then
        assert! bool_decide (Z.land save_meta CS_FLAG_PRIMAL <> 0%Z);
        if decide (Z.land save_meta CS_FLAG_VERTEX <> 0%Z) then
          Ok (with_meta st (Z.lor m (Z.lor CS_FLAG_DUAL CS_FLAG_CELL)))
        else Err (bft_error _err_not_handled [])
      else if decide (Z.land flag CS_FLAG_PRIMAL <> 0%Z) then
        assert! bool_decide (Z.land save_meta CS_FLAG_DUAL <> 0%Z);
        if decide (Z.land save_meta CS_FLAG_CELL <> 0%Z) then
          Ok (with_meta st (Z.lor m (Z.lor CS_FLAG_PRIMAL CS_FLAG_VERTEX)))
        else Err (bft_error _err_not_handled [])
      else Err (bft_error _err_not_handled [])
  end.

(** [cs_source_term_get_flag] *)
Definition cs_source_term_get_flag (st : option cs_xdef_t) : result Z :=
  match st with
  | None => Err (bft_error _err_empty_st [])
  | Some st => Ok (meta st)
  end.

(** The flag [a] is contained in the flag [b], bit by bit. *)
Definition subflag (a b : Z) : Prop := Z.land b a = a.

(** The flags of [cs_cdo.h] that this file reads in the metadata of a
    definition. *)
Definition cs_flags : list Z :=
  [ CS_FLAG_PRIMAL; CS_FLAG_DUAL; CS_FLAG_VERTEX; CS_FLAG_CELL; CS_FLAG_FULL_LOC;
    CS_FLAG_SCALAR; CS_FLAG_VECTOR; CS_FLAG_TENSOR; CS_FLAG_BORDER; CS_FLAG_BY_CELL ].

(** The flags of a list are not zero and share no bit, as flags defined
    by [1 << k] for distinct [k] are. *)
Definition disjoint_flags (l : list Z) : Prop :=
  Forall (fun f => f <> 0%Z) l /\
  forall i j a b, (i < j)%nat -> l !! i = Some a -> l !! j = Some b ->
    Z.land a b = 0%Z.

(** [CS_FLAG_FULL_LOC] for the zone 0 of all cells, nothing for another zone. *)
Definition zone_flag (st : cs_xdef_t) : Z :=
  if decide (z_id st = 0%Z) then CS_FLAG_FULL_LOC else 0%Z.

(** A source term as [cs_equation_add_source_term_by_val] and
    [cs_equation_add_source_term_by_analytic] create it for an equation
    of the scheme [space_scheme]: the default flag of the scheme, with
    [CS_FLAG_FULL_LOC] when the zone is the zone 0 of all cells; by value,
    or by analytic function with a quadrature. *)
Definition created_for (space_scheme : cs_space_scheme_t) (st : cs_xdef_t) : Prop :=
  meta st =
    Z.lor (cs_source_term_set_default_flag space_scheme)
          (if decide (z_id st = 0%Z) then CS_FLAG_FULL_LOC else 0%Z) /\
  (type st = CS_XDEF_BY_VALUE \/
   (type st = CS_XDEF_BY_ANALYTIC_FUNCTION /\ qtype st <> CS_QUADRATURE_NONE)).

(** The evaluator that such a source term gets. *)
Definition default_evaluator (space_scheme : cs_space_scheme_t) (st : cs_xdef_t)
    : option cs_source_term_cellwise_t :=
  match space_scheme, type st, qtype st with
  | CS_SPACE_SCHEME_CDOVB, CS_XDEF_BY_VALUE, _ => Some cs_source_term_dcsd_by_value
  | CS_SPACE_SCHEME_CDOVB, CS_XDEF_BY_ANALYTIC_FUNCTION, CS_QUADRATURE_BARY =>
    Some cs_source_term_dcsd_bary_by_analytic
  | CS_SPACE_SCHEME_CDOVB, CS_XDEF_BY_ANALYTIC_FUNCTION, CS_QUADRATURE_BARY_SUBDIV =>
    Some cs_source_term_dcsd_q1o1_by_analytic
  | CS_SPACE_SCHEME_CDOVB, CS_XDEF_BY_ANALYTIC_FUNCTION, CS_QUADRATURE_HIGHER =>
    Some cs_source_term_dcsd_q10o2_by_analytic
  | CS_SPACE_SCHEME_CDOVB, CS_XDEF_BY_ANALYTIC_FUNCTION, CS_QUADRATURE_HIGHEST =>
    Some cs_source_term_dcsd_q5o3_by_analytic
  | CS_SPACE_SCHEME_CDOVCB, CS_XDEF_BY_VALUE, _ => Some cs_source_term_vcsp_by_value
  | CS_SPACE_SCHEME_CDOVCB, CS_XDEF_BY_ANALYTIC_FUNCTION, _ =>
    Some cs_source_term_vcsp_by_analytic
  | CS_SPACE_SCHEME_CDOFB, CS_XDEF_BY_VALUE, _ => Some cs_source_term_fbsd_by_value
  | CS_SPACE_SCHEME_CDOFB, CS_XDEF_BY_ANALYTIC_FUNCTION, _ =>
    Some cs_source_term_fbsd_bary_by_analytic
  | _, _, _ => None
  end.

(** The evaluator [f] leaves the entries from [bound cm] on as they are. *)
Definition leaves_from (bound : cs_cell_mesh_t -> nat) (f : cs_source_term_cellwise_t)
    : Prop :=
  forall source cm cb values values' v,
    f source cm cb values = Ok values' ->
    (bound cm <= v)%nat -> values' !! v = values !! v.

(** The evaluator [f] leaves all entries but the entry [at_ cm] as they are. *)
Definition leaves_but (at_ : cs_cell_mesh_t -> nat) (f : cs_source_term_cellwise_t)
    : Prop :=
  forall source cm cb values values' v,
    f source cm cb values = Ok values' ->
    v <> at_ cm -> values' !! v = values !! v.

(** The analytic function of [anai] is the constant [k]. *)
Definition constant_function (anai : cs_xdef_analytic_input_t) (k : cs_real_t) : Prop :=
  forall t n_pts xyz, func anai t n_pts xyz = replicate n_pts k.

End SourceTermMore.

(** Sample values of the other bits: distinct ones, apart from those of
    the location. *)
#[local] Instance sample_flags : cs_flag_headers := {|
  CS_FLAG_SCALAR := 2;
  CS_FLAG_VECTOR := 4;
  CS_FLAG_TENSOR := 8;
  CS_FLAG_BORDER := 16;
  CS_FLAG_BY_CELL := 32
|}.

(** A builder with a Hodge matrix: the identity on five entries. *)
Definition sample_hodge : cs_cell_builder_t :=
  {| hdg := Some (map (fun i => map (fun j => if decide (i = j) then 1 else 0)
                                    (seq 0 5)) (seq 0 5)) |}.

(** The function [2], on the whole mesh, with the default location of the
    vertex-based scheme. *)
Definition sample_constant : cs_xdef_analytic_input_t :=
  {| func := fun _ n_pts _ => replicate n_pts (dbl 2) |}.

Definition dual_analytic (anai : cs_xdef_analytic_input_t) : cs_xdef_t := {|
  type := CS_XDEF_BY_ANALYTIC_FUNCTION;
  z_id := 0;
  meta := Z.lor dual_cells CS_FLAG_FULL_LOC;
  qtype := CS_QUADRATURE_BARY;
  input := input_analytic anai
|}.

Definition dual_constant : cs_xdef_t := dual_analytic sample_constant.

(** [dual_two] reduced to primal vertices. *)
Definition primal_vertices_two : cs_xdef_t :=
  with_meta dual_two
    (Z.lor CS_FLAG_FULL_LOC (Z.lor CS_FLAG_PRIMAL CS_FLAG_VERTEX)).

(** * Proofs *)

Section Proofs.

Context {hdrs : cs_headers} {shared : cs_shared}.

(** ** Loops *)

Lemma for_loop_nil {S : Type} (lo hi : nat) (body : nat -> S -> S) (s : S) :
  (hi <= lo)%nat -> for_loop lo hi body s = s.
Proof.
  intros Hle. unfold for_loop.
  replace (hi - lo)%nat with 0%nat by lia. reflexivity.
Qed.

Lemma for_loop_S {S : Type} (lo hi : nat) (body : nat -> S -> S) (s : S) :
  (lo <= hi)%nat ->
  for_loop lo (Datatypes.S hi) body s = body hi (for_loop lo hi body s).
Proof.
  intros Hle. unfold for_loop.
  replace (Datatypes.S hi - lo)%nat with (Datatypes.S (hi - lo)) by lia.
  rewrite seq_S, foldl_app. simpl.
  replace (lo + (hi - lo))%nat with hi by lia. reflexivity.
Qed.

(** Loop invariant: [P i s] holds of the state before turn [i]. *)
Lemma for_loop_ind {S : Type} (P : nat -> S -> Prop) (lo hi : nat)
    (body : nat -> S -> S) (s : S) :
  (lo <= hi)%nat -> P lo s ->
  (forall i s, (lo <= i < hi)%nat -> P i s -> P (Datatypes.S i) (body i s)) ->
  P hi (for_loop lo hi body s).
Proof.
  intros Hle H0 Hstep. induction hi as [|hi IH].
  - assert (lo = 0%nat) as -> by lia. exact H0.
  - destruct (decide (lo = Datatypes.S hi)) as [->|Hne].
    + rewrite for_loop_nil by lia. exact H0.
    + rewrite for_loop_S by lia. apply Hstep; [lia|]. apply IH; [lia|].
      intros i s' Hi. apply Hstep. lia.
Qed.

(** An invariant that does not mention the loop variable. *)
Lemma for_loop_inv {S : Type} (P : S -> Prop) (lo hi : nat)
    (body : nat -> S -> S) (s : S) :
  P s -> (forall i s, P s -> P (body i s)) -> P (for_loop lo hi body s).
Proof.
  intros H0 Hstep. unfold for_loop.
  generalize (seq lo (hi - lo)) as l. intros l. revert s H0.
  induction l as [|i l IH]; intros s H0; simpl; [exact H0|].
  apply IH, Hstep, H0.
Qed.

Lemma for_loopM_nil {S : Type} (lo hi : nat) (body : nat -> S -> result S) (s : S) :
  (hi <= lo)%nat -> for_loopM lo hi body s = Ok s.
Proof.
  intros Hle. unfold for_loopM.
  replace (hi - lo)%nat with 0%nat by lia. reflexivity.
Qed.

Lemma for_loopM_S {S : Type} (lo hi : nat) (body : nat -> S -> result S) (s : S) :
  (lo <= hi)%nat ->
  for_loopM lo (Datatypes.S hi) body s =
  (do s' <- for_loopM lo hi body s; body hi s').
Proof.
  intros Hle. unfold for_loopM.
  replace (Datatypes.S hi - lo)%nat with (Datatypes.S (hi - lo)) by lia.
  rewrite seq_S, foldl_app. simpl.
  replace (lo + (hi - lo))%nat with hi by lia. reflexivity.
Qed.

(** Invariant of a loop that ran to its end. *)
Lemma for_loopM_ind {S : Type} (P : nat -> S -> Prop) (lo hi : nat)
    (body : nat -> S -> result S) (s s' : S) :
  (lo <= hi)%nat -> P lo s ->
  (forall i s s', (lo <= i < hi)%nat -> P i s -> body i s = Ok s' ->
                  P (Datatypes.S i) s') ->
  for_loopM lo hi body s = Ok s' -> P hi s'.
Proof.
  intros Hle H0 Hstep. revert s'. induction hi as [|hi IH]; intros s' Hrun.
  - assert (lo = 0%nat) as -> by lia.
    rewrite for_loopM_nil in Hrun by lia. congruence.
  - destruct (decide (lo = Datatypes.S hi)) as [->|Hne].
    + rewrite for_loopM_nil in Hrun by lia. congruence.
    + rewrite for_loopM_S in Hrun by lia.
      destruct (for_loopM lo hi body s) as [s1|e] eqn:Hprev; simpl in Hrun;
        [|discriminate].
      apply (Hstep hi s1); [lia| |exact Hrun].
      apply IH; [lia| |reflexivity].
      intros i t t' Hi. apply Hstep. lia.
Qed.

(** A loop whose bodies all succeed runs to its end. *)
Lemma for_loopM_total {S : Type} (P : nat -> S -> Prop) (lo hi : nat)
    (body : nat -> S -> result S) (s : S) :
  (lo <= hi)%nat -> P lo s ->
  (forall i s, (lo <= i < hi)%nat -> P i s ->
               exists s', body i s = Ok s' /\ P (Datatypes.S i) s') ->
  exists s', for_loopM lo hi body s = Ok s' /\ P hi s'.
Proof.
  intros Hle H0 Hstep. induction hi as [|hi IH].
  - assert (lo = 0%nat) as -> by lia. exists s.
    rewrite for_loopM_nil by lia. auto.
  - destruct (decide (lo = Datatypes.S hi)) as [->|Hne].
    + exists s. rewrite for_loopM_nil by lia. auto.
    + destruct IH as (s1 & Hrun & HP); [lia| |].
      { intros i t Hi. apply Hstep. lia. }
      destruct (Hstep hi s1) as (s2 & Hbody & HP2); [lia|exact HP|].
      exists s2. rewrite for_loopM_S by lia. rewrite Hrun. simpl. auto.
Qed.


(** Two loops with the same bodies on the range. *)
Lemma for_loopM_ext {S : Type} (lo hi : nat) (body1 body2 : nat -> S -> result S)
    (s : S) :
  (forall i s, (lo <= i < hi)%nat -> body1 i s = body2 i s) ->
  for_loopM lo hi body1 s = for_loopM lo hi body2 s.
Proof.
  intros Hext. destruct (decide (lo <= hi)%nat) as [Hle|Hgt].
  - induction hi as [|hi IH].
    + rewrite !for_loopM_nil by lia. reflexivity.
    + destruct (decide (lo = Datatypes.S hi)) as [->|Hne].
      * rewrite !for_loopM_nil by lia. reflexivity.
      * rewrite !for_loopM_S by lia. rewrite IH; [|intros; apply Hext; lia|lia].
        destruct (for_loopM lo hi body2 s); simpl; [apply Hext; lia|reflexivity].
  - rewrite !for_loopM_nil by lia. reflexivity.
Qed.

(** ** Arrays of values *)

Lemma adds_id : adds (fun _ => 0) (fun values => values).
Proof.
  intros values. split; [reflexivity|].
  intros v x Hv. rewrite Hv. f_equal. ring.
Qed.

Lemma adds_alter (a : cs_real_t) (i : nat) :
  adds (fun v => if decide (v = i) then a else 0) (alter (fun x => x + a) i).
Proof.
  intros values. split; [apply length_alter|].
  intros v x Hv. rewrite list_lookup_alter.
  destruct (decide (i = v)) as [->|Hne].
  - rewrite Hv. simpl. rewrite decide_True by reflexivity. reflexivity.
  - rewrite Hv. rewrite decide_False by congruence. f_equal. ring.
Qed.

Lemma adds_compose (c1 c2 : nat -> cs_real_t) (g1 g2 : list cs_real_t -> list cs_real_t) :
  adds c1 g1 -> adds c2 g2 ->
  adds (fun v => c1 v + c2 v) (fun values => g2 (g1 values)).
Proof.
  intros H1 H2 values.
  destruct (H1 values) as [Hlen1 Hat1]. destruct (H2 (g1 values)) as [Hlen2 Hat2].
  split; [congruence|].
  intros v x Hv. rewrite (Hat2 v (x + c1 v)) by auto. f_equal. ring.
Qed.

Lemma additive_id : additive (fun values => values).
Proof. eexists. apply adds_id. Qed.

Lemma additive_alter (a : cs_real_t) (i : nat) : additive (alter (fun x => x + a) i).
Proof. eexists. apply adds_alter. Qed.

Lemma additive_compose (g1 g2 : list cs_real_t -> list cs_real_t) :
  additive g1 -> additive g2 -> additive (fun values => g2 (g1 values)).
Proof. intros [c1 H1] [c2 H2]. eexists. apply (adds_compose _ _ _ _ H1 H2). Qed.

(** A loop of additive turns is additive. *)
Lemma additive_for_loop (lo hi : nat) (body : nat -> list cs_real_t -> list cs_real_t) :
  (forall i, additive (body i)) -> additive (for_loop lo hi body).
Proof.
  intros Hbody. unfold for_loop. generalize (seq lo (hi - lo)) as l.
  induction l as [|i l IH]; simpl.
  - apply additive_id.
  - apply (additive_compose (body i) _ (Hbody i) IH).
Qed.

(** [for (v = 0; v < n; v++) values[v] += c v]. *)
Lemma adds_for_loop_alter (n : nat) (c : nat -> cs_real_t) :
  adds (fun v => if decide (v < n)%nat then c v else 0)
       (for_loop 0 n (fun v values => alter (fun x => x + c v) v values)).
Proof.
  intros values.
  pose proof (for_loop_ind (fun i s =>
           length s = length values /\
           forall v x, values !! v = Some x ->
             s !! v = Some (x + if decide (v < i)%nat then c v else 0))
         0 n (fun v values => alter (fun x => x + c v) v values) values) as Hind.
  apply Hind; clear Hind.
  - lia.
  - split; [reflexivity|]. intros v x Hv. rewrite Hv.
    rewrite decide_False by lia. f_equal. ring.
  - intros i s Hi [Hlen Hat]. split; [rewrite length_alter; exact Hlen|].
    intros v x Hv. rewrite list_lookup_alter.
    destruct (decide (i = v)) as [->|Hne].
    + rewrite (Hat v x Hv). simpl. rewrite decide_False by lia.
      rewrite decide_True by lia. f_equal. ring.
    + rewrite (Hat v x Hv). f_equal.
      destruct (decide (v < i)%nat), (decide (v < Datatypes.S i)%nat);
        try reflexivity; lia.
Qed.

Lemma additive_for_loop_alter (n : nat) (c : nat -> cs_real_t) :
  additive (for_loop 0 n (fun v values => alter (fun x => x + c v) v values)).
Proof. eexists. apply adds_for_loop_alter. Qed.

(** [for (v = 0; v < n; v++) values[v] = c v] keeps the length. *)
Lemma length_for_loop_insert (n : nat) (c : nat -> cs_real_t) (values : list cs_real_t) :
  length (for_loop 0 n (fun v values => <[v := c v]> values) values) = length values.
Proof.
  apply (for_loop_inv (fun s => length s = length values)); [reflexivity|].
  intros i s Hs. rewrite length_insert. exact Hs.
Qed.

(** ** The evaluators that accumulate *)

Lemma accumulates_intro (f : cs_source_term_cellwise_t) :
  (forall source cm cb, acts_by f source cm cb) -> accumulates f.
Proof.
  intros Hf source cm cb.
  destruct (Hf source cm cb) as [[e He]|(g & [c Hc] & Hg)].
  - exists (fun _ => 0). intros values values' Hrun. congruence.
  - exists c. intros values values' Hrun. rewrite Hg in Hrun.
    injection Hrun as <-. apply Hc.
Qed.

Ltac fails_early := left; eexists; intros; reflexivity.

Ltac step_bind :=
  match goal with
  | |- context [bind ?m _] => destruct m eqn:?; cbn [bind]; [|fails_early]
  end.

Ltac acts_additively lem :=
  right; eexists; split; [|intros; reflexivity]; apply lem.

Lemma pvsp_by_value_acts source cm cb : acts_by cs_source_term_pvsp_by_value source cm cb.
Proof.
  destruct source as [source|]; [|acts_additively additive_id].
  unfold acts_by, cs_source_term_pvsp_by_value. repeat step_bind.
  acts_additively additive_for_loop_alter.
Qed.

Lemma pvsp_by_analytic_acts source cm cb :
  acts_by cs_source_term_pvsp_by_analytic source cm cb.
Proof.
  destruct source as [source|]; [|acts_additively additive_id].
  unfold acts_by, cs_source_term_pvsp_by_analytic. repeat step_bind.
  acts_additively additive_for_loop_alter.
Qed.

Lemma dcsd_by_value_acts source cm cb :
  acts_by cs_source_term_dcsd_by_value source cm cb.
Proof.
  destruct source as [source|]; [|acts_additively additive_id].
  unfold acts_by, cs_source_term_dcsd_by_value. repeat step_bind.
  acts_additively additive_for_loop_alter.
Qed.

Lemma dcsd_q1o1_by_analytic_acts source cm cb :
  acts_by cs_source_term_dcsd_q1o1_by_analytic source cm cb.
Proof.
  destruct source as [source|]; [|acts_additively additive_id].
  unfold acts_by, cs_source_term_dcsd_q1o1_by_analytic. repeat step_bind.
  right. eexists. split; [|intros; reflexivity].
  apply additive_for_loop. intros f. apply additive_for_loop. intros i.
  apply (additive_compose (alter _ _) (alter _ _)); apply additive_alter.
Qed.

Lemma dcsd_q10o2_by_analytic_acts source cm cb :
  acts_by cs_source_term_dcsd_q10o2_by_analytic source cm cb.
Proof.
  destruct source as [source|]; [|acts_additively additive_id].
  unfold acts_by, cs_source_term_dcsd_q10o2_by_analytic. repeat step_bind.
  acts_additively additive_for_loop_alter.
Qed.

Lemma dcsd_q5o3_by_analytic_acts source cm cb :
  acts_by cs_source_term_dcsd_q5o3_by_analytic source cm cb.
Proof.
  destruct source as [source|]; [|acts_additively additive_id].
  unfold acts_by, cs_source_term_dcsd_q5o3_by_analytic. repeat step_bind.
  acts_additively additive_for_loop_alter.
Qed.

Lemma vcsp_by_value_acts source cm cb :
  acts_by cs_source_term_vcsp_by_value source cm cb.
Proof.
  destruct source as [source|]; [|acts_additively additive_id].
  unfold acts_by, cs_source_term_vcsp_by_value. repeat step_bind.
  acts_additively additive_for_loop_alter.
Qed.

Lemma vcsp_by_analytic_acts source cm cb :
  acts_by cs_source_term_vcsp_by_analytic source cm cb.
Proof.
  destruct source as [source|]; [|acts_additively additive_id].
  unfold acts_by, cs_source_term_vcsp_by_analytic. repeat step_bind.
  acts_additively additive_for_loop_alter.
Qed.

Lemma pvsp_by_value_accumulates : accumulates cs_source_term_pvsp_by_value.
Proof. apply accumulates_intro, pvsp_by_value_acts. Qed.

Lemma pvsp_by_analytic_accumulates : accumulates cs_source_term_pvsp_by_analytic.
Proof. apply accumulates_intro, pvsp_by_analytic_acts. Qed.

Lemma dcsd_by_value_accumulates : accumulates cs_source_term_dcsd_by_value.
Proof. apply accumulates_intro, dcsd_by_value_acts. Qed.

Lemma dcsd_q1o1_by_analytic_accumulates :
  accumulates cs_source_term_dcsd_q1o1_by_analytic.
Proof. apply accumulates_intro, dcsd_q1o1_by_analytic_acts. Qed.

Lemma dcsd_q10o2_by_analytic_accumulates :
  accumulates cs_source_term_dcsd_q10o2_by_analytic.
Proof. apply accumulates_intro, dcsd_q10o2_by_analytic_acts. Qed.

Lemma dcsd_q5o3_by_analytic_accumulates :
  accumulates cs_source_term_dcsd_q5o3_by_analytic.
Proof. apply accumulates_intro, dcsd_q5o3_by_analytic_acts. Qed.

Lemma vcsp_by_value_accumulates : accumulates cs_source_term_vcsp_by_value.
Proof. apply accumulates_intro, vcsp_by_value_acts. Qed.

Lemma vcsp_by_analytic_accumulates : accumulates cs_source_term_vcsp_by_analytic.
Proof. apply accumulates_intro, vcsp_by_analytic_acts. Qed.

(** ** The three evaluators that store *)

Lemma fbsd_by_value_length source cm cb values values' :
  cs_source_term_fbsd_by_value source cm cb values = Ok values' ->
  length values' = length values.
Proof.
  destruct source as [source|]; simpl; [|congruence].
  destruct (as_values (input source)); simpl; [|discriminate].
  intros [= <-]. apply length_insert.
Qed.

Lemma fbsd_bary_by_analytic_length source cm cb values values' :
  cs_source_term_fbsd_bary_by_analytic source cm cb values = Ok values' ->
  length values' = length values.
Proof.
  destruct source as [source|]; simpl; [|congruence].
  destruct (as_analytic (input source)); simpl; [|discriminate].
  intros [= <-]. apply length_insert.
Qed.

Lemma dcsd_bary_by_analytic_length source cm cb values values' :
  cs_source_term_dcsd_bary_by_analytic source cm cb values = Ok values' ->
  length values' = length values.
Proof.
  destruct source as [source|]; [|simpl; congruence].
  unfold cs_source_term_dcsd_bary_by_analytic.
  repeat match goal with
         | |- context [bind ?m _] => destruct m; cbn [bind]; [|discriminate]
         end.
  intros [= <-]. apply length_for_loop_insert.
Qed.

Lemma accumulates_length f source cm cb values values' :
  accumulates f -> f source cm cb values = Ok values' ->
  length values' = length values.
Proof.
  intros Hf Hrun. destruct (Hf source cm cb) as [c Hc].
  apply (Hc values values' Hrun).
Qed.

(** Every evaluator of the file keeps the length of the array of values. *)
Lemma evaluator_length f source cm cb values values' :
  f ∈ cs_source_term_evaluators ->
  f source cm cb values = Ok values' -> length values' = length values.
Proof.
  intros Hf Hrun. unfold cs_source_term_evaluators in Hf.
  repeat (apply elem_of_cons in Hf as [->|Hf]);
    try (eapply accumulates_length; [|exact Hrun];
         first [ apply pvsp_by_value_accumulates
               | apply pvsp_by_analytic_accumulates
               | apply dcsd_by_value_accumulates
               | apply dcsd_q1o1_by_analytic_accumulates
               | apply dcsd_q10o2_by_analytic_accumulates
               | apply dcsd_q5o3_by_analytic_accumulates
               | apply vcsp_by_value_accumulates
               | apply vcsp_by_analytic_accumulates ]).
  - eapply dcsd_bary_by_analytic_length, Hrun.
  - eapply fbsd_by_value_length, Hrun.
  - eapply fbsd_bary_by_analytic_length, Hrun.
  - apply elem_of_nil in Hf. contradiction.
Qed.

(** ** Claims on the evaluators *)

(** C1: on every cell, the evaluator by value of the dual-cell scheme adds
    [rho * wvc[v] * vol_c] to the entry of every vertex [v] of the cell,
    [rho] being the constant density of the definition; it touches no
    other entry.  (At the unit-volume tetrahedron with fractions 1/4 and
    [rho = 2], each entry receives 1/2 and the four sum to 2: see the
    witness.) *)
Theorem dcsd_by_value_contribution (st : cs_xdef_t) (cm : cs_cell_mesh_t)
    (cb : cs_cell_builder_t) (values vals : list cs_real_t) (rho : cs_real_t) :
  input st = input_values vals -> vals !! 0%nat = Some rho ->
  cs_test_flag (flag cm) CS_CDO_LOCAL_PVQ = true ->
  exists values',
    cs_source_term_dcsd_by_value (Some st) cm cb values = Ok values' /\
    length values' = length values /\
    (forall v x w, (v < n_vc cm)%nat -> values !! v = Some x -> wvc cm !! v = Some w ->
       values' !! v = Some (x + rho * w * vol_c cm)) /\
    (forall v, (n_vc cm <= v)%nat -> values' !! v = values !! v).
Proof.
  intros Hinput Hrho Hflag. unfold cs_source_term_dcsd_by_value.
  rewrite Hflag, Hinput. cbn [c_assert bind as_values].
  eexists. split; [reflexivity|].
  pose proof (adds_for_loop_alter (n_vc cm)
    (fun v => vals !!! 0%nat * wvc cm !!! v * vol_c cm) values) as [Hlen Hat].
  split; [exact Hlen|]. split.
  - intros v x w Hv Hx Hw. rewrite (Hat v x Hx).
    rewrite decide_True by exact Hv.
    rewrite (list_lookup_total_correct _ _ _ Hrho).
    rewrite (list_lookup_total_correct _ _ _ Hw). reflexivity.
  - intros v Hv. destruct (values !! v) as [x|] eqn:Hx.
    + rewrite (Hat v x Hx). rewrite decide_False by lia. f_equal. ring.
    + apply lookup_ge_None. rewrite Hlen. apply lookup_ge_None. exact Hx.
Qed.

(** C9: every evaluator that the dispatcher can call returns at once on
    a NULL definition: the array of values is unchanged and no error is
    raised, on every cell and for every prior content. *)
Theorem null_definition_is_noop :
  Forall (fun f : cs_source_term_cellwise_t =>
            forall cm cb values, f None cm cb values = Ok values)
         cs_source_term_evaluators.
Proof. repeat constructor. Qed.

(** ** The cell mask *)

(** The bits of [(cs_mask_t)(w | (cs_mask_t)(1 << i))]. *)
Lemma mask_bit_set (w : Z) (i j : nat) :
  Z.testbit (to_cs_mask_t (Z.lor w (to_cs_mask_t (Z.shiftl 1 (Z.of_nat i)))))
            (Z.of_nat j) = true <->
  (j < cs_mask_bits)%nat /\ (Z.testbit w (Z.of_nat j) = true \/ j = i).
Proof.
  unfold to_cs_mask_t.
  destruct (decide (j < cs_mask_bits)%nat) as [Hj|Hj].
  - rewrite Z.mod_pow2_bits_low by lia. rewrite Z.lor_spec.
    rewrite Z.mod_pow2_bits_low by lia.
    rewrite Z.shiftl_1_l, Z.pow2_bits_eqb by lia.
    rewrite orb_true_iff, Z.eqb_eq. intuition lia.
  - rewrite Z.mod_pow2_bits_high by lia. intuition (try discriminate; lia).
Qed.

(** The bit tested by the dispatcher. *)
Lemma mask_bit_test (w : Z) (i : nat) :
  (i < cs_mask_bits)%nat ->
  Z.land w (to_cs_mask_t (Z.shiftl 1 (Z.of_nat i))) <> 0%Z <->
  Z.testbit w (Z.of_nat i) = true.
Proof.
  intros Hi. unfold to_cs_mask_t. rewrite Z.shiftl_1_l.
  rewrite Z.mod_small.
  2: { split; [apply Z.pow_nonneg; lia|apply Z.pow_lt_mono_r; lia]. }
  split.
  - intros Hne. destruct (Z.testbit w (Z.of_nat i)) eqn:Hbit; [reflexivity|].
    exfalso. apply Hne. apply Z.bits_inj'. intros m Hm.
    rewrite Z.land_spec, Z.bits_0, Z.pow2_bits_eqb by lia.
    destruct (Z.eqb_spec (Z.of_nat i) m) as [<-|Hne'].
    + rewrite Hbit. reflexivity.
    + apply andb_false_r.
  - intros Hbit Hzero.
    assert (Z.testbit (Z.land w (2 ^ Z.of_nat i)) (Z.of_nat i) = true) as Hone.
    { rewrite Z.land_spec, Hbit, Z.pow2_bits_eqb, Z.eqb_refl by lia. reflexivity. }
    rewrite Hzero, Z.bits_0 in Hone. discriminate.
Qed.

(** [for (i = 0; i < n; i++) a[i] = g(a[i])]. *)
Lemma for_loop_alter_each {A : Type} (g : A -> A) (n : nat) (a : list A) (c : nat) :
  for_loop 0 n (fun i a => alter g i a) a !! c =
  if decide (c < n)%nat then g <$> a !! c else a !! c.
Proof.
  pose proof (for_loop_ind (fun k s =>
      forall c, s !! c = if decide (c < k)%nat then g <$> a !! c else a !! c)
    0 n (fun i a => alter g i a) a) as Hind.
  apply Hind; clear Hind c.
  - lia.
  - intros c. rewrite decide_False by lia. reflexivity.
  - intros i s Hi Hs c. rewrite list_lookup_alter.
    destruct (decide (i = c)) as [->|Hne].
    + rewrite Hs. rewrite decide_False by lia. rewrite decide_True by lia.
      reflexivity.
    + rewrite Hs. destruct (decide (c < i)%nat), (decide (c < Datatypes.S i)%nat);
        try reflexivity; lia.
Qed.

Lemma length_for_loop_alter {A : Type} (g : A -> A) (lo hi : nat) (idx : nat -> nat)
    (a : list A) :
  length (for_loop lo hi (fun i a => alter g (idx i) a) a) = length a.
Proof.
  apply (for_loop_inv (fun s => length s = length a)); [reflexivity|].
  intros i s Hs. rewrite length_alter. exact Hs.
Qed.

Lemma mask_upto_zero (source_terms : list (option cs_xdef_t)) :
  mask_upto source_terms 0 (replicate (n_cells cs_cdo_quant) 0%Z).
Proof.
  split; [apply length_replicate|].
  intros c w Hw j. apply lookup_replicate in Hw as [-> _].
  rewrite Z.bits_0. split; [discriminate|lia].
Qed.

Lemma set_mask_step (source_terms : list (option cs_xdef_t)) (k : nat)
    (st : cs_xdef_t) (mask mask' : list Z) :
  source_terms !! k = Some (Some st) ->
  mask_upto source_terms k mask ->
  _set_mask (Some st) k mask = Ok mask' ->
  mask_upto source_terms (Datatypes.S k) mask'.
Proof.
  intros Hst [Hlen Hbits]. unfold _set_mask.
  set (g := fun m : Z => to_cs_mask_t (Z.lor m (to_cs_mask_t (Z.shiftl 1 (Z.of_nat k))))).
  destruct (decide (full_loc st)) as [Hfull|Hpart]; intros [= <-].
  - split; [rewrite (length_for_loop_alter g 0 _ (fun i => i)); exact Hlen|].
    intros c w' Hw' j. rewrite for_loop_alter_each in Hw'.
    assert (c < n_cells cs_cdo_quant)%nat as Hc.
    { destruct (decide (c < n_cells cs_cdo_quant)%nat); [assumption|].
      apply lookup_lt_Some in Hw'. lia. }
    rewrite decide_True in Hw' by exact Hc.
    destruct (mask !! c) as [w|] eqn:Hw; [|discriminate].
    injection Hw' as <-. unfold g. rewrite mask_bit_set, (Hbits c w Hw j).
    split.
    + intros [Hj [(Hjk & _ & Hcov)| ->]].
      * split; [lia|]. split; [exact Hj|exact Hcov].
      * split; [lia|]. split; [exact Hj|]. exists st. split; [exact Hst|].
        left. exact Hfull.
    + intros (Hjk & Hj & Hcov). split; [exact Hj|].
      destruct (decide (j = k)) as [->|Hne]; [right; reflexivity|].
      left. split; [lia|]. split; [exact Hj|exact Hcov].
  - set (ids := cell_ids (cs_volume_zone_by_id (z_id st))).
    pose proof (for_loop_ind (fun t s =>
        length s = n_cells cs_cdo_quant /\
        forall c w, s !! c = Some w -> forall j : nat,
          Z.testbit w (Z.of_nat j) = true <->
          ((j < k)%nat /\ (j < cs_mask_bits)%nat /\
           exists st, source_terms !! j = Some (Some st) /\ covers st c) \/
          (j = k /\ (j < cs_mask_bits)%nat /\ c ∈ take t ids))
      0 (z_n_cells (cs_volume_zone_by_id (z_id st)))
      (fun i cell_mask => alter g (ids !!! i) cell_mask) mask) as Hind.
    destruct Hind as [Hlen' Hbits'].
    + lia.
    + split; [exact Hlen|]. intros c w Hw j. rewrite (Hbits c w Hw j).
      rewrite take_0. split; [auto|].
      intros [Hold|(_ & _ & Hin)]; [exact Hold|]. apply elem_of_nil in Hin.
      contradiction.
    + intros t s Ht [Hlens Hs]. split; [rewrite length_alter; exact Hlens|].
      unfold z_n_cells in Ht. fold ids in Ht.
      destruct (lookup_lt_is_Some_2 ids t) as [ct Hct]; [lia|].
      rewrite (list_lookup_total_correct _ _ _ Hct).
      rewrite (take_S_r _ _ _ Hct).
      intros c w' Hw' j. rewrite list_lookup_alter in Hw'.
      destruct (decide (ct = c)) as [->|Hne].
      * destruct (s !! c) as [w|] eqn:Hw; [|discriminate].
        injection Hw' as <-. unfold g. rewrite mask_bit_set, (Hs c w Hw j).
        rewrite elem_of_app, list_elem_of_singleton. intuition lia.
      * rewrite (Hs c w' Hw' j). rewrite elem_of_app, list_elem_of_singleton.
        intuition congruence.
    + split; [exact Hlen'|]. intros c w Hw j. rewrite (Hbits' c w Hw j).
      unfold z_n_cells. fold ids. rewrite firstn_all.
      split.
      * intros [(Hjk & Hj & Hcov)|(-> & Hj & Hin)].
        -- split; [lia|]. split; [exact Hj|exact Hcov].
        -- split; [lia|]. split; [exact Hj|]. exists st. split; [exact Hst|].
           right. exact Hin.
      * intros (Hjk & Hj & st' & Hst' & Hcov).
        destruct (decide (j = k)) as [->|Hne].
        -- right. split; [reflexivity|]. split; [exact Hj|].
           rewrite Hst in Hst'. injection Hst' as <-.
           destruct Hcov as [Hfull|Hin]; [contradiction|exact Hin].
        -- left. split; [lia|]. split; [exact Hj|]. exists st'. auto.
Qed.

(** ** Initialisation *)

Lemma bind_evaluator_in (space_scheme : cs_space_scheme_t) (st : cs_xdef_t)
    (bits : Z) (f : cs_source_term_cellwise_t) :
  bind_evaluator space_scheme st = Ok (bits, f) -> f ∈ cs_source_term_evaluators.
Proof.
  unfold bind_evaluator, cs_source_term_evaluators, c_assert.
  destruct space_scheme; repeat case_decide; repeat case_bool_decide;
    destruct (type st); try destruct (qtype st); cbn [bind];
    intros [= <- <-] || discriminate;
    apply list_elem_of_In; simpl; auto 20.
Qed.

Lemma init_source_term_step (space_scheme : cs_space_scheme_t)
    (source_terms : list (option cs_xdef_t)) (k : nat)
    (s s' : Z * Z * list (option cs_source_term_cellwise_t) * bool) :
  (k < CS_N_MAX_SOURCE_TERMS)%nat ->
  init_upto space_scheme source_terms k s ->
  init_source_term space_scheme source_terms k s = Ok s' ->
  init_upto space_scheme source_terms (Datatypes.S k) s'.
Proof.
  intros Hk. destruct s as [[[msh sys] cs] nm]. intros (Hlen & Hbound & Hnm).
  simpl in Hlen, Hbound, Hnm. unfold init_source_term.
  destruct (source_terms !! k) as [[st|]|] eqn:Hst; try discriminate.
  match goal with
  | |- context [let '(_, _) := ?p in _] => destruct p as [msh' sys']
  end.
  destruct (bind_evaluator space_scheme st) as [[bits f]|e] eqn:Hbind;
    cbn [bind]; [|discriminate].
  intros [= <-]. unfold init_upto. cbn [fst snd]. split; [|split].
  - rewrite length_insert. exact Hlen.
  - intros i Hi. destruct (decide (i = k)) as [->|Hne].
    + exists st, bits, f. split; [exact Hst|]. split; [exact Hbind|].
      apply list_lookup_insert_eq. lia.
    + destruct (Hbound i) as (st' & bits' & f' & H1 & H2 & H3); [lia|].
      exists st', bits', f'. rewrite list_lookup_insert_ne by congruence. auto.
  - destruct (decide (full_loc st)) as [Hfull|Hpart].
    + rewrite Hnm. split.
      * intros (i & st' & Hi & H1 & H2). exists i, st'. split; [lia|auto].
      * intros (i & st' & Hi & H1 & H2). exists i, st'.
        destruct (decide (i = k)) as [->|Hne].
        -- rewrite Hst in H1. injection H1 as <-. contradiction.
        -- split; [lia|auto].
    + split; [|reflexivity]. intros _. exists k, st. split; [lia|auto].
Qed.

(** What a successful [cs_source_term_init] gives back. *)
Lemma init_ok (space_scheme : cs_space_scheme_t) (n_source_terms : nat)
    (source_terms : list (option cs_xdef_t)) (sys_flag0 : Z)
    (r : cs_source_term_init_t) :
  cs_source_term_init space_scheme n_source_terms source_terms sys_flag0 = Ok r ->
  (n_source_terms <= CS_N_MAX_SOURCE_TERMS)%nat /\
  length (compute_source r) = CS_N_MAX_SOURCE_TERMS /\
  (forall i, (i < n_source_terms)%nat ->
     exists st bits f,
       source_terms !! i = Some (Some st) /\
       bind_evaluator space_scheme st = Ok (bits, f) /\
       compute_source r !! i = Some (Some f)) /\
  ((source_mask r = None /\
    forall i st, (i < n_source_terms)%nat ->
      source_terms !! i = Some (Some st) -> full_loc st) \/
   (exists mask, source_mask r = Some mask /\
      mask_upto source_terms n_source_terms mask /\
      exists i st, (i < n_source_terms)%nat /\
        source_terms !! i = Some (Some st) /\ ~ full_loc st)).
Proof.
  unfold cs_source_term_init.
  destruct (decide (CS_N_MAX_SOURCE_TERMS < n_source_terms)%nat) as [|Hmax];
    [discriminate|].
  destruct (decide (n_source_terms = 0%nat)) as [->|Hn].
  { intros [= <-]. cbn. split; [lia|]. split; [apply length_replicate|].
    split; [intros; lia|]. left. split; [reflexivity|intros; lia]. }
  destruct (for_loopM 0 n_source_terms
              (init_source_term space_scheme source_terms) _)
    as [[[[msh sys] cs] nm]|e] eqn:Hloop; cbn [bind]; [|discriminate].
  assert (init_upto space_scheme source_terms n_source_terms (msh, sys, cs, nm))
    as (Hlen & Hbound & Hnm).
  { pose proof (for_loopM_ind (init_upto space_scheme source_terms) 0 n_source_terms
      (init_source_term space_scheme source_terms)) as Hind.
    eapply Hind; [lia| |clear Hind|exact Hloop].
    - split; [apply length_replicate|]. split; [intros; lia|]. cbn.
      split; [discriminate|]. intros (i & _ & Hi & _). lia.
    - intros i s s' Hi. apply init_source_term_step. lia. }
  cbn [fst snd] in Hlen, Hbound, Hnm.
  destruct nm.
  - destruct (for_loopM 0 n_source_terms _ (replicate (n_cells cs_cdo_quant) 0%Z))
      as [mask|e] eqn:Hmask; cbn [bind]; [|discriminate].
    intros [= <-]. cbn. split; [lia|]. split; [exact Hlen|].
    split; [exact Hbound|]. right. exists mask. split; [reflexivity|].
    split; [|apply Hnm; reflexivity].
    pose proof (for_loopM_ind (mask_upto source_terms) 0 n_source_terms
      (fun st_id mask =>
         match source_terms !! st_id with
         | Some st => _set_mask st st_id mask
         | None => Err undefined_behaviour
         end)) as Hind.
    eapply Hind; [lia|apply mask_upto_zero|clear Hind|exact Hmask].
    intros i s s' Hi Hs.
    destruct (Hbound i) as (st & _ & _ & Hst & _); [lia|]. rewrite Hst.
    apply set_mask_step; assumption.
  - intros [= <-]. cbn. split; [lia|]. split; [exact Hlen|].
    split; [exact Hbound|]. left. split; [reflexivity|].
    intros i st Hi Hst. destruct (decide (full_loc st)) as [|Hpart]; [assumption|].
    assert (false = true) as Habs by (apply Hnm; eauto). discriminate.
Qed.

(** C3: after [cs_source_term_init] on [n_source_terms] definitions, the
    mask is NULL exactly when every definition carries the full-domain
    flag; otherwise there is one mask word per mesh cell, and the bit [i]
    of the word of a cell [c] is set exactly when [i] is the index of a
    definition that covers the full domain or whose zone holds [c]: no
    other bit is set.  The constant [CS_N_MAX_SOURCE_TERMS] of the header
    is taken to fit the width of [cs_mask_t]. *)
Theorem init_mask_invariant (space_scheme : cs_space_scheme_t)
    (n_source_terms : nat) (source_terms : list (option cs_xdef_t)) (sys_flag0 : Z)
    (r : cs_source_term_init_t) :
  (CS_N_MAX_SOURCE_TERMS <= cs_mask_bits)%nat ->
  cs_source_term_init space_scheme n_source_terms source_terms sys_flag0 = Ok r ->
  (source_mask r = None <->
   forall i st, (i < n_source_terms)%nat ->
     source_terms !! i = Some (Some st) -> full_loc st) /\
  (forall mask, source_mask r = Some mask ->
     length mask = n_cells cs_cdo_quant /\
     forall c w, mask !! c = Some w ->
       forall i : nat,
         Z.testbit w (Z.of_nat i) = true <->
         (i < n_source_terms)%nat /\
         exists st, source_terms !! i = Some (Some st) /\ covers st c).
Proof.
  intros Hwidth Hinit.
  destruct (init_ok _ _ _ _ _ Hinit) as (Hmax & _ & _ & Hmask).
  destruct Hmask as [[Hnone Hall]|(mask & Hsome & [Hlen Hbits] & i & st & Hi & Hst & Hpart)].
  - split; [split; auto|]. intros mask Hsome. congruence.
  - split.
    + split; [congruence|]. intros Hall. exfalso. apply Hpart. eauto.
    + intros mask' Hsome'. assert (mask' = mask) as -> by congruence.
      split; [exact Hlen|]. intros c w Hw j. rewrite (Hbits c w Hw j).
      split; [tauto|]. intros [Hj Hcov]. split; [exact Hj|]. split; [lia|exact Hcov].
Qed.

(** C8: the number of source terms of an equation is checked against the
    constant [CS_N_MAX_SOURCE_TERMS] at setup: beyond it
    [cs_source_term_init] stops with an error, before any mask is built. *)
Theorem init_rejects_too_many (space_scheme : cs_space_scheme_t)
    (n_source_terms : nat) (source_terms : list (option cs_xdef_t)) (sys_flag0 : Z) :
  (CS_N_MAX_SOURCE_TERMS < n_source_terms)%nat ->
  cs_source_term_init space_scheme n_source_terms source_terms sys_flag0 =
  Err (bft_error " Limitation to %d source terms has been reached!"
                 [Z.of_nat CS_N_MAX_SOURCE_TERMS]).
Proof.
  intros Hmax. unfold cs_source_term_init.
  rewrite decide_True by exact Hmax. reflexivity.
Qed.




(** On the combinations that have an evaluator, the [switch] binds that
    evaluator, for a definition that has a location. *)
Lemma implemented_bind (space_scheme : cs_space_scheme_t) (st : cs_xdef_t)
    (f : cs_source_term_cellwise_t) :
  implemented_evaluator space_scheme (at_dual st) (type st) (qtype st) = Some f ->
  has_flag st CS_FLAG_DUAL \/ has_flag st CS_FLAG_PRIMAL ->
  exists bits, bind_evaluator space_scheme st = Ok (bits, f).
Proof.
  unfold at_dual, has_flag, bind_evaluator, c_assert.
  intros Himpl Hloc.
  destruct (decide (Z.land (meta st) CS_FLAG_DUAL <> 0%Z)) as [Hd|Hd].
  - rewrite (bool_decide_eq_true_2 _ Hd) in Himpl.
    destruct space_scheme, (type st), (qtype st); try discriminate Himpl;
      injection Himpl as <-; eexists; reflexivity.
  - rewrite (bool_decide_eq_false_2 _ Hd) in Himpl.
    destruct Hloc as [Hloc|Hloc]; [contradiction|].
    rewrite (bool_decide_eq_true_2 _ Hloc).
    destruct space_scheme, (type st), (qtype st); try discriminate Himpl;
      injection Himpl as <-; eexists; reflexivity.
Qed.



Lemma init_source_term_accepts (space_scheme : cs_space_scheme_t)
    (source_terms : list (option cs_xdef_t)) (i : nat) (st : cs_xdef_t)
    (b : Z * cs_source_term_cellwise_t)
    (s : Z * Z * list (option cs_source_term_cellwise_t) * bool) :
  source_terms !! i = Some (Some st) ->
  bind_evaluator space_scheme st = Ok b ->
  exists s', init_source_term space_scheme source_terms i s = Ok s'.
Proof.
  intros Hst Hbind. destruct s as [[[msh sys] cs] nm]. unfold init_source_term.
  rewrite Hst.
  match goal with
  | |- context [let '(_, _) := ?p in _] => destruct p as [msh' sys']
  end.
  rewrite Hbind. destruct b as [bits f]. cbn [bind]. eauto.
Qed.

Lemma set_mask_returns (st : cs_xdef_t) (st_id : nat) (mask : list Z) :
  exists mask', _set_mask (Some st) st_id mask = Ok mask'.
Proof. unfold _set_mask. destruct (decide (full_loc st)); eauto. Qed.

(** With every definition accepted, the two loops of the setup run to
    their end. *)
Lemma init_returns (space_scheme : cs_space_scheme_t)
    (n_source_terms : nat) (source_terms : list (option cs_xdef_t)) (sys_flag0 : Z) :
  (n_source_terms <= CS_N_MAX_SOURCE_TERMS)%nat ->
  (forall i, (i < n_source_terms)%nat ->
     exists st b, source_terms !! i = Some (Some st) /\
                  bind_evaluator space_scheme st = Ok b) ->
  exists r,
    cs_source_term_init space_scheme n_source_terms source_terms sys_flag0 = Ok r.
Proof.
  intros Hmax Hall. unfold cs_source_term_init.
  rewrite decide_False by lia.
  destruct (decide (n_source_terms = 0%nat)); [eauto|].
  destruct (for_loopM_total (fun _ _ => True) 0 n_source_terms
              (init_source_term space_scheme source_terms)
              (0%Z, sys_flag0, replicate CS_N_MAX_SOURCE_TERMS None, false))
    as ([[[msh sys] cs] nm] & Hloop & _); [lia|exact I| |].
  { intros i s Hi _. destruct (Hall i) as (st & b & Hst & Hbind); [lia|].
    destruct (init_source_term_accepts space_scheme source_terms i st b s Hst Hbind)
      as [s' Hs']. eauto. }
  rewrite Hloop. cbn [bind]. destruct nm; [|eauto].
  match goal with
  | |- context [for_loopM 0 n_source_terms ?body ?m0] =>
    destruct (for_loopM_total (fun _ _ => True) 0 n_source_terms body m0)
      as (mask & Hmask & _); [lia|exact I| |]
  end.
  { intros i s Hi _. destruct (Hall i) as (st & b & Hst & _); [lia|].
    cbv beta. rewrite Hst. destruct (set_mask_returns st i s) as [m' Hm']. eauto. }
  rewrite Hmask. cbn [bind]. eauto.
Qed.


(** ** The dispatcher *)

(** A word of type [cs_mask_t] has no bit at or above the width. *)
Lemma mask_word_bits (w : Z) (i : nat) :
  (0 <= w < 2 ^ Z.of_nat cs_mask_bits)%Z ->
  Z.testbit w (Z.of_nat i) = true -> (i < cs_mask_bits)%nat.
Proof.
  intros Hw Hbit. destruct (decide (i < cs_mask_bits)%nat) as [|Hge]; [assumption|].
  rewrite <- (Z.mod_small w (2 ^ Z.of_nat cs_mask_bits)) in Hbit by exact Hw.
  rewrite Z.mod_pow2_bits_high in Hbit by lia. discriminate.
Qed.

(** C4: on every cell, for every list of definitions and every table of
    evaluators, the dispatcher called with no mask gives the same result
    as the dispatcher called with a mask whose word for the cell has the
    bit of every definition set. *)
Theorem null_mask_is_full_mask (n_source_terms : nat)
    (source_terms : list (option cs_xdef_t)) (cm : cs_cell_mesh_t) (sys_flag0 : Z)
    (mask : list Z) (w : Z)
    (compute_source0 : list (option cs_source_term_cellwise_t))
    (cb : cs_cell_builder_t) (csys : cs_cell_sys_t) :
  mask !! c_id cm = Some w ->
  (0 <= w < 2 ^ Z.of_nat cs_mask_bits)%Z ->
  (forall i : nat, (i < n_source_terms)%nat -> Z.testbit w (Z.of_nat i) = true) ->
  cs_source_term_compute_cellwise n_source_terms source_terms cm sys_flag0
    None compute_source0 cb csys =
  cs_source_term_compute_cellwise n_source_terms source_terms cm sys_flag0
    (Some mask) compute_source0 cb csys.
Proof.
  intros Hw Hrange Hbits. unfold cs_source_term_compute_cellwise.
  destruct (decide (Z.land sys_flag0 CS_FLAG_SYS_SOURCETERM = 0%Z)); [reflexivity|].
  f_equal. apply for_loopM_ext. intros i s Hi. rewrite Hw.
  rewrite decide_True; [reflexivity|].
  apply mask_bit_test.
  - apply (mask_word_bits w); [exact Hrange|]. apply Hbits. lia.
  - apply Hbits. lia.
Qed.

(** [for (i = 0; i < n_dofs; i++) source[i] = 0] *)
Lemma reset_lookup (n : nat) (source0 : list cs_real_t) (k : nat) :
  (k < n)%nat -> (k < length source0)%nat ->
  for_loop 0 n (fun i source => <[i := 0]> source) source0 !! k = Some 0.
Proof.
  intros Hk Hlen.
  pose proof (for_loop_ind (fun t s =>
      length s = length source0 /\
      forall k, (k < t)%nat -> (k < length source0)%nat -> s !! k = Some 0)
    0 n (fun i source => <[i := 0]> source) source0) as Hind.
  destruct Hind as [_ Hall]; [lia| | |apply Hall; assumption].
  - split; [reflexivity|]. intros; lia.
  - intros i s Hi [Hlens Hs]. split; [rewrite length_insert; exact Hlens|].
    intros j Hj Hjl. destruct (decide (i = j)) as [->|Hne].
    + apply list_lookup_insert_eq. lia.
    + rewrite list_lookup_insert_ne by exact Hne. apply Hs; lia.
Qed.

Lemma reset_length (n : nat) (source0 : list cs_real_t) :
  length (for_loop 0 n (fun i source => <[i := 0]> source) source0) = length source0.
Proof.
  apply (for_loop_inv (fun s => length s = length source0)); [reflexivity|].
  intros i s Hs. rewrite length_insert. exact Hs.
Qed.

(** A buffer of [n] entries is all zeros after the reset. *)
Lemma reset_all (n : nat) (source0 : list cs_real_t) :
  length source0 = n ->
  for_loop 0 n (fun i source => <[i := 0]> source) source0 = replicate n 0.
Proof.
  intros Hlen. apply list_eq. intros k.
  destruct (decide (k < n)%nat) as [Hk|Hk].
  - rewrite reset_lookup by lia. symmetry. apply lookup_replicate. auto.
  - rewrite !lookup_ge_None_2; [reflexivity| |].
    + rewrite length_replicate. lia.
    + rewrite reset_length. lia.
Qed.

(** C5: take a definition that does not carry the full-domain flag and a
    cell outside its zone.  On that cell the dispatcher, with the mask
    built by [cs_source_term_init], does not call the evaluator of the
    definition: whatever stands at its place in the table of evaluators,
    the result is the same.  If it is the only source term, the dispatcher
    succeeds and the entries of the buffer are zero. *)
Theorem dispatch_skips_outside_zone (space_scheme : cs_space_scheme_t)
    (n_source_terms : nat) (source_terms : list (option cs_xdef_t))
    (sys_flag0 sys_flag1 : Z) (r : cs_source_term_init_t) (i : nat) (st : cs_xdef_t)
    (cm : cs_cell_mesh_t) (cb : cs_cell_builder_t) (csys : cs_cell_sys_t) :
  (CS_N_MAX_SOURCE_TERMS <= cs_mask_bits)%nat ->
  cs_source_term_init space_scheme n_source_terms source_terms sys_flag0 = Ok r ->
  (i < n_source_terms)%nat ->
  source_terms !! i = Some (Some st) ->
  ~ full_loc st ->
  c_id cm ∉ cell_ids (cs_volume_zone_by_id (z_id st)) ->
  (c_id cm < n_cells cs_cdo_quant)%nat ->
  (forall f,
     cs_source_term_compute_cellwise n_source_terms source_terms cm sys_flag1
       (source_mask r) (<[i := f]> (compute_source r)) cb csys =
     cs_source_term_compute_cellwise n_source_terms source_terms cm sys_flag1
       (source_mask r) (compute_source r) cb csys) /\
  (n_source_terms = 1%nat ->
   exists csys',
     cs_source_term_compute_cellwise n_source_terms source_terms cm sys_flag1
       (source_mask r) (compute_source r) cb csys = Ok csys' /\
     n_dofs csys' = n_dofs csys /\
     length (source csys') = length (source csys) /\
     forall k, (k < n_dofs csys)%nat -> (k < length (source csys))%nat ->
       source csys' !! k = Some 0).
Proof.
  intros Hwidth Hinit Hi Hst Hpart Hout Hc.
  destruct (init_ok _ _ _ _ _ Hinit) as (Hmax & _ & _ & Hmask).
  destruct Hmask as [[_ Hall]|(mask & Hsome & [Hlen Hbits] & _)].
  { exfalso. apply Hpart. eauto. }
  destruct (lookup_lt_is_Some_2 mask (c_id cm)) as [w Hw]; [lia|].
  assert (Z.land w (to_cs_mask_t (Z.shiftl 1 (Z.of_nat i))) = 0%Z) as Hskip.
  { destruct (decide (Z.land w (to_cs_mask_t (Z.shiftl 1 (Z.of_nat i))) = 0%Z))
      as [|Hne]; [assumption|].
    apply mask_bit_test in Hne; [|lia].
    apply (Hbits _ _ Hw) in Hne as (_ & _ & st' & Hst' & Hcov).
    rewrite Hst in Hst'. injection Hst' as <-.
    destruct Hcov; contradiction. }
  rewrite Hsome. unfold cs_source_term_compute_cellwise. split.
  - intros f.
    destruct (decide (Z.land sys_flag1 CS_FLAG_SYS_SOURCETERM = 0%Z)); [reflexivity|].
    f_equal. apply for_loopM_ext. intros j s Hj. rewrite Hw.
    destruct (decide (j = i)) as [->|Hne].
    + rewrite !decide_False by (intros Hne; apply Hne, Hskip). reflexivity.
    + unfold call_compute. rewrite list_lookup_insert_ne by congruence. reflexivity.
  - intros ->. assert (i = 0%nat) as -> by lia.
    eexists.
    split.
    + destruct (decide (Z.land sys_flag1 CS_FLAG_SYS_SOURCETERM = 0%Z));
        [reflexivity|].
      rewrite for_loopM_S, for_loopM_nil by lia. cbn [bind]. rewrite Hw.
      rewrite decide_False; [reflexivity|]. intros Hne. apply Hne. exact Hskip.
    + cbn. split; [reflexivity|]. split; [apply reset_length|].
      intros k Hk Hkl. apply reset_lookup; assumption.
Qed.

(** The evaluators stored by [cs_source_term_init] keep the length of the
    buffer, and so does the loop of the dispatcher. *)
Lemma call_compute_length (space_scheme : cs_space_scheme_t) (n_source_terms : nat)
    (source_terms : list (option cs_xdef_t)) (sys_flag0 : Z)
    (r : cs_source_term_init_t) (cm : cs_cell_mesh_t) (cb : cs_cell_builder_t)
    (i : nat) (s s' : list cs_real_t) :
  cs_source_term_init space_scheme n_source_terms source_terms sys_flag0 = Ok r ->
  (i < n_source_terms)%nat ->
  call_compute source_terms (compute_source r) cm cb i s = Ok s' ->
  length s' = length s.
Proof.
  intros Hinit Hi. destruct (init_ok _ _ _ _ _ Hinit) as (_ & _ & Hbound & _).
  destruct (Hbound i Hi) as (st & bits & f & Hst & Hbind & Hf).
  unfold call_compute. rewrite Hf, Hst.
  apply evaluator_length. apply (bind_evaluator_in _ _ _ _ Hbind).
Qed.

(** C6, as the code has it: the dispatcher resets the buffer on entry, so
    a second call in a row on the result of the first gives the result of
    the first again (not its double); nothing is carried from one call to
    the next.  The buffer has one entry per local degree of freedom. *)
Theorem dispatch_twice_same (space_scheme : cs_space_scheme_t)
    (n_source_terms : nat) (source_terms : list (option cs_xdef_t))
    (sys_flag0 sys_flag1 : Z) (r : cs_source_term_init_t)
    (cm : cs_cell_mesh_t) (cb : cs_cell_builder_t) (csys csys1 : cs_cell_sys_t) :
  cs_source_term_init space_scheme n_source_terms source_terms sys_flag0 = Ok r ->
  length (source csys) = n_dofs csys ->
  cs_source_term_compute_cellwise n_source_terms source_terms cm sys_flag1
    (source_mask r) (compute_source r) cb csys = Ok csys1 ->
  cs_source_term_compute_cellwise n_source_terms source_terms cm sys_flag1
    (source_mask r) (compute_source r) cb csys1 = Ok csys1.
Proof.
  intros Hinit Hlen. unfold cs_source_term_compute_cellwise.
  rewrite (reset_all _ _ Hlen).
  destruct (decide (Z.land sys_flag1 CS_FLAG_SYS_SOURCETERM = 0%Z)) as [Hoff|Hon].
  { intros [= <-]. cbn [n_dofs source].
    rewrite reset_all by apply length_replicate. reflexivity. }
  assert (forall body : nat -> list cs_real_t -> result (list cs_real_t),
            (forall i s s', (i < n_source_terms)%nat -> body i s = Ok s' ->
                            length s' = length s) ->
            forall s1, for_loopM 0 n_source_terms body (replicate (n_dofs csys) 0) = Ok s1 ->
                       length s1 = n_dofs csys) as Hkeep.
  { intros body Hbody s1 Hloop.
    pose proof (for_loopM_ind (fun _ s => length s = n_dofs csys) 0 n_source_terms
                  body) as Hind.
    eapply Hind; [lia|apply length_replicate|clear Hind|exact Hloop].
    intros i s s' Hi Hs Hcall. rewrite <- Hs. apply (Hbody i); [lia|exact Hcall]. }
  destruct (source_mask r) as [mask|].
  - match goal with
    | |- context [for_loopM 0 n_source_terms ?b] => set (body := b)
    end.
    destruct (for_loopM 0 n_source_terms body (replicate (n_dofs csys) 0))
      as [s1|e] eqn:Hloop; cbn [bind]; [|discriminate].
    intros [= <-]. cbn [n_dofs source].
    rewrite (reset_all _ s1), Hloop; [reflexivity|].
    apply (Hkeep body); [|exact Hloop].
    intros i s s' Hi. subst body. cbv beta zeta.
    destruct (mask !! c_id cm) as [w|]; [|discriminate].
    destruct (decide _); [|congruence].
    apply (call_compute_length _ _ _ _ _ _ _ _ _ _ Hinit Hi).
  - destruct (for_loopM 0 n_source_terms
                (call_compute source_terms (compute_source r) cm cb)
                (replicate (n_dofs csys) 0)) as [s1|e] eqn:Hloop; cbn [bind];
      [|discriminate].
    intros [= <-]. cbn [n_dofs source].
    rewrite (reset_all _ s1), Hloop; [reflexivity|].
    apply (Hkeep (call_compute source_terms (compute_source r) cm cb));
      [|exact Hloop].
    intros i s s' Hi. apply (call_compute_length _ _ _ _ _ _ _ _ _ _ Hinit Hi).
Qed.

(** ** The divisions of the barycentric evaluator *)

(** [for (k = 0; k < 3; k++) x[3*u+k] = g(k, x[3*u+k])], entry by entry. *)
Lemma lookup_total_three {A : Type} `{Inhabited A} (g : nat -> A -> A) (u v k : nat)
    (x : list A) :
  (3 * u + 2 < length x)%nat \/ u <> v -> (k < 3)%nat ->
  for_loop 0 3 (fun k x => alter (g k) (3 * u + k)%nat x) x !!! (3 * v + k)%nat =
  if decide (u = v) then g k (x !!! (3 * v + k)%nat) else x !!! (3 * v + k)%nat.
Proof.
  intros Hlen Hk. unfold for_loop. cbn [foldl seq Nat.sub].
  destruct (decide (u = v)) as [->|Hne].
  - destruct Hlen as [Hlen|]; [|congruence].
    destruct k as [|[|[|k]]]; [| | |lia];
      repeat first [rewrite list_lookup_total_alter_ne by lia
                   |rewrite list_lookup_total_alter_eq by (rewrite ?length_alter; lia)];
      reflexivity.
  - rewrite !list_lookup_total_alter_ne by lia. reflexivity.
Qed.

Lemma length_three {A : Type} (g : nat -> A -> A) (u : nat) (x : list A) :
  length (for_loop 0 3 (fun k x => alter (g k) (3 * u + k)%nat x) x) = length x.
Proof.
  unfold for_loop. cbn [foldl seq Nat.sub]. rewrite !length_alter. reflexivity.
Qed.

(** [for (v = 0; v < n; v++) values[v] = c v]. *)
Lemma for_loop_insert_each {A : Type} (n : nat) (c : nat -> A) (values : list A) :
  length (for_loop 0 n (fun v values => <[v := c v]> values) values) = length values /\
  forall v, (v < n)%nat -> (v < length values)%nat ->
    for_loop 0 n (fun v values => <[v := c v]> values) values !! v = Some (c v).
Proof.
  apply (for_loop_ind (fun i s =>
      length s = length values /\
      forall v, (v < i)%nat -> (v < length values)%nat -> s !! v = Some (c v))
    0 n (fun v values => <[v := c v]> values) values); [lia| |].
  - split; [reflexivity|]. intros; lia.
  - intros i s Hi [Hl Hat]. split; [rewrite length_insert; exact Hl|].
    intros w Hw Hwl. destruct (decide (w = i)) as [->|Hne].
    + apply list_lookup_insert_eq. lia.
    + rewrite list_lookup_insert_ne by congruence. apply Hat; lia.
Qed.

(** [for (v = 0; v < n; v++) for (k = 0; k < 3; k++) x[v][k] = g(v, x[v][k])]:
    each entry is changed once, by the turn of its vertex. *)
Lemma for_loop_each_vertex {A : Type} `{Inhabited A} (g : nat -> A -> A) (n : nat)
    (xgv : list A) (v k : nat) :
  length xgv = (3 * n)%nat -> (v < n)%nat -> (k < 3)%nat ->
  for_loop 0 n (fun v xgv =>
    for_loop 0 3 (fun k xgv => alter (g v) (3 * v + k)%nat xgv) xgv) xgv
    !!! (3 * v + k)%nat =
  g v (xgv !!! (3 * v + k)%nat).
Proof.
  intros Hlen Hv Hk.
  pose proof (for_loop_ind (fun i s =>
      length s = length xgv /\
      forall v k, (k < 3)%nat ->
        s !!! (3 * v + k)%nat =
        if decide (v < i)%nat then g v (xgv !!! (3 * v + k)%nat)
        else xgv !!! (3 * v + k)%nat)
    0 n (fun v xgv =>
      for_loop 0 3 (fun k xgv => alter (g v) (3 * v + k)%nat xgv) xgv) xgv) as Hind.
  destruct Hind as [_ Hat]; [lia| | |].
  - split; [reflexivity|]. intros w j _. rewrite decide_False by lia. reflexivity.
  - intros i s Hi [Hl Hat]. split.
    + rewrite (length_three (fun _ => g i) i s). exact Hl.
    + intros w j Hj.
      rewrite (lookup_total_three (fun _ => g i) i w j s) by (try left; lia).
      rewrite Hat by exact Hj.
      destruct (decide (i = w)) as [->|Hne].
      * rewrite decide_False by lia. rewrite decide_True by lia. reflexivity.
      * destruct (decide (w < i)%nat).
        -- rewrite decide_True by lia. reflexivity.
        -- rewrite decide_False by lia. reflexivity.
  - rewrite Hat by exact Hk. rewrite decide_True by exact Hv. reflexivity.
Qed.

(** C10, as the code has it, in double precision.  With its assertion
    satisfied and an analytic definition, the barycentric evaluator
    multiplies the three barycenter sums of every vertex [v] of the cell
    by [1/(vol_c * wvc[v])], the product and the quotient being those of
    [double]; it has no guard and no branch on the divisor: where the
    product is zero the sums are multiplied by the infinity that [1/0]
    gives, and whatever the volume and the fractions are, the evaluator
    returns, the entry of each vertex holding [vol_c * wvc[v]] times the
    value of the function at the scaled sums. *)
Theorem dcsd_bary_divides_unguarded (cs_math_onesix t_cur : float)
    (st : Binary64.cs_xdef_t) (anai : Binary64.cs_xdef_analytic_input_t)
    (cm : Binary64.cs_cell_mesh_t) (cb : cs_cell_builder_t) (values : list float) :
  Binary64.input st = Binary64.input_analytic anai ->
  cs_test_flag (Binary64.flag cm)
    (Z.lor (Z.lor (Z.lor (Z.lor (Z.lor CS_CDO_LOCAL_PVQ CS_CDO_LOCAL_PFQ)
       CS_CDO_LOCAL_HFQ) CS_CDO_LOCAL_FE) CS_CDO_LOCAL_FEQ) CS_CDO_LOCAL_EV) = true ->
  (forall xgv v k,
     length xgv = (3 * Binary64.n_vc cm)%nat ->
     (v < Binary64.n_vc cm)%nat -> (k < 3)%nat ->
     Binary64.divide_by_volumes cm xgv !!! (3 * v + k)%nat =
     (xgv !!! (3 * v + k)%nat *
      (1 / (Binary64.vol_c cm * Binary64.wvc cm !!! v)))%float) /\
  (forall xgv v k,
     length xgv = (3 * Binary64.n_vc cm)%nat ->
     (v < Binary64.n_vc cm)%nat -> (k < 3)%nat ->
     (Binary64.vol_c cm * Binary64.wvc cm !!! v)%float = 0%float ->
     Binary64.divide_by_volumes cm xgv !!! (3 * v + k)%nat =
     (xgv !!! (3 * v + k)%nat * infinity)%float) /\
  exists values',
    Binary64.cs_source_term_dcsd_bary_by_analytic cs_math_onesix t_cur
      (Some st) cm cb values = Ok values' /\
    length values' = length values /\
    forall v, (v < Binary64.n_vc cm)%nat -> (v < length values)%nat ->
      values' !! v =
      Some (Binary64.vol_c cm * Binary64.wvc cm !!! v *
            Binary64.anai_eval anai t_cur (Binary64.n_vc cm)
              (Binary64.divide_by_volumes cm
                 (Binary64.barycenter_sums cs_math_onesix cm)) !!! v)%float.
Proof.
  intros Hinput Hflag.
  assert (forall xgv v k,
            length xgv = (3 * Binary64.n_vc cm)%nat ->
            (v < Binary64.n_vc cm)%nat -> (k < 3)%nat ->
            Binary64.divide_by_volumes cm xgv !!! (3 * v + k)%nat =
            (xgv !!! (3 * v + k)%nat *
             (1 / (Binary64.vol_c cm * Binary64.wvc cm !!! v)))%float) as Hdiv.
  { intros xgv v k Hlen Hv Hk. unfold Binary64.divide_by_volumes. cbv zeta.
    apply (for_loop_each_vertex
             (fun v x => (x * (1 / (Binary64.vol_c cm * Binary64.wvc cm !!! v)))%float)
             (Binary64.n_vc cm) xgv v k Hlen Hv Hk). }
  split; [exact Hdiv|]. split.
  - intros xgv v k Hlen Hv Hk Hzero.
    rewrite (Hdiv xgv v k Hlen Hv Hk), Hzero. reflexivity.
  - unfold Binary64.cs_source_term_dcsd_bary_by_analytic.
    rewrite Hflag, Hinput. cbn [c_assert bind Binary64.as_analytic]. cbv zeta.
    eexists. split; [reflexivity|].
    apply (for_loop_insert_each (Binary64.n_vc cm)
             (fun v => (Binary64.vol_c cm * Binary64.wvc cm !!! v *
                Binary64.anai_eval anai t_cur (Binary64.n_vc cm)
                  (Binary64.divide_by_volumes cm
                     (Binary64.barycenter_sums cs_math_onesix cm)) !!! v)%float)
             values).
Qed.

End Proofs.

(** * The claims on the sample values *)

(** Closed equalities and inequalities are decided by evaluation. *)
Ltac by_evaluation := apply (bool_decide_unpack _); vm_compute; exact I.

Ltac refuted_by_evaluation H :=
  apply (bool_decide_pack _) in H; vm_compute in H; exact H.

(** The end-to-end scenario of C1: one definition by value, 2, on the
    unit-volume tetrahedron with fractions 1/4: each vertex receives 1/2,
    and the four contributions sum to 2. *)
Lemma dcsd_by_value_contribution_witness :
  input dual_two = input_values [dbl 2] /\
  [dbl 2] !! 0%nat = Some (dbl 2) /\
  cs_test_flag (flag (sample_cell 0)) CS_CDO_LOCAL_PVQ = true /\
  exists values',
    cs_source_term_dcsd_by_value (Some dual_two) (sample_cell 0) sample_cb
      [0; 0; 0; 0] = Ok values' /\
    values' = [dbl 0.5; dbl 0.5; dbl 0.5; dbl 0.5] /\
    foldr Qcplus 0 values' = dbl 2.
Proof.
  split; [reflexivity|]. split; [reflexivity|]. split; [reflexivity|].
  destruct (dcsd_by_value_contribution dual_two (sample_cell 0) sample_cb
              [0; 0; 0; 0] [dbl 2] (dbl 2) eq_refl eq_refl eq_refl)
    as (values' & Hrun & Hlen & Hat & _).
  exists values'. split; [exact Hrun|].
  assert (values' = [dbl 0.5; dbl 0.5; dbl 0.5; dbl 0.5]) as ->.
  { apply list_eq. intros v.
    destruct (decide (v < 4)%nat) as [Hv|Hv].
    - assert (wvc (sample_cell 0) !! v = Some (dbl 0.25) /\
              [0; 0; 0; 0] !! v = Some 0 /\
              [dbl 0.5; dbl 0.5; dbl 0.5; dbl 0.5] !! v = Some (dbl 0.5))
        as (Hw & Hx & ->).
      { destruct v as [|[|[|[|v]]]]; try lia; repeat split; reflexivity. }
      rewrite (Hat v 0 (dbl 0.25) Hv Hx Hw). f_equal. by_evaluation.
    - rewrite !lookup_ge_None_2; [reflexivity|simpl; lia|rewrite Hlen; simpl; lia]. }
  split; [reflexivity|by_evaluation].
Defined.

(** C2 fails on the code.  Three evaluators store their contribution
    ([values[...] = ...]) where their documentation says they add it, and
    where the eight others do add it: the face-based evaluators and the
    barycentric one of the vertex-based scheme.  With two source terms on
    a cell, what the first one contributed is lost.
    - Face-based scheme, densities 2 and 3 on the whole mesh, cell of
      volume one: the cell entry holds 2 for the first alone, 3 for the
      second alone, and 3 (not 5) for both.
    - Face-based scheme, density 2 then the function [x]: the cell entry
      holds 1/4, the integral of [x] alone.
    - Vertex-based scheme, density 2 then the function [x] with the
      barycentric quadrature: the entries are those of [x] alone; in the
      other order they are the sums. *)
Theorem storing_evaluators_lose_contributions :
  init_then_compute CS_SPACE_SCHEME_CDOFB 1 [Some primal_two]
    (sample_cell 0) sample_cb (zeroed 5) =
  Ok {| n_dofs := 5; source := [0; 0; 0; 0; dbl 2] |} /\
  init_then_compute CS_SPACE_SCHEME_CDOFB 1 [Some primal_three]
    (sample_cell 0) sample_cb (zeroed 5) =
  Ok {| n_dofs := 5; source := [0; 0; 0; 0; dbl 3] |} /\
  init_then_compute CS_SPACE_SCHEME_CDOFB 2 [Some primal_two; Some primal_three]
    (sample_cell 0) sample_cb (zeroed 5) =
  Ok {| n_dofs := 5; source := [0; 0; 0; 0; dbl 3] |} /\
  init_then_compute CS_SPACE_SCHEME_CDOFB 2 [Some primal_two; Some primal_x]
    (sample_cell 0) sample_cb (zeroed 5) =
  Ok {| n_dofs := 5; source := [0; 0; 0; 0; dbl 0.25] |} /\
  init_then_compute CS_SPACE_SCHEME_CDOVB 1 [Some dual_x]
    (sample_cell 0) sample_cb (zeroed 4) =
  Ok {| n_dofs := 4;
        source := [dbl (23 # 576); dbl (25 # 192); dbl (23 # 576); dbl (23 # 576)] |} /\
  init_then_compute CS_SPACE_SCHEME_CDOVB 2 [Some dual_two; Some dual_x]
    (sample_cell 0) sample_cb (zeroed 4) =
  Ok {| n_dofs := 4;
        source := [dbl (23 # 576); dbl (25 # 192); dbl (23 # 576); dbl (23 # 576)] |} /\
  init_then_compute CS_SPACE_SCHEME_CDOVB 2 [Some dual_x; Some dual_two]
    (sample_cell 0) sample_cb (zeroed 4) =
  Ok {| n_dofs := 4;
        source := [dbl (311 # 576); dbl (121 # 192); dbl (311 # 576); dbl (311 # 576)] |}.
Proof. repeat split; by_evaluation. Qed.

(** None of the three is an evaluator that accumulates. *)
Lemma fbsd_by_value_stores : ~ accumulates cs_source_term_fbsd_by_value.
Proof.
  intros Hacc.
  destruct (Hacc (Some primal_two) (sample_cell 0) sample_cb) as [c Hc].
  destruct (Hc [0; 0; 0; 0; 0] [0; 0; 0; 0; dbl 2] eq_refl) as [_ H0].
  destruct (Hc [0; 0; 0; 0; 1] [0; 0; 0; 0; dbl 2] eq_refl) as [_ H1].
  specialize (H0 4%nat 0 eq_refl). specialize (H1 4%nat 1 eq_refl).
  assert (0 + c 4%nat = 1 + c 4%nat) as Heq.
  { apply (inj Some). rewrite <- H0, <- H1. reflexivity. }
  apply (f_equal (fun x => x - c 4%nat)) in Heq. ring_simplify in Heq.
  refuted_by_evaluation Heq.
Qed.

Lemma fbsd_bary_by_analytic_stores :
  ~ accumulates cs_source_term_fbsd_bary_by_analytic.
Proof.
  intros Hacc.
  destruct (Hacc (Some primal_x) (sample_cell 0) sample_cb) as [c Hc].
  destruct (Hc [0; 0; 0; 0; 0] _ eq_refl) as [_ H0].
  destruct (Hc [0; 0; 0; 0; 1] _ eq_refl) as [_ H1].
  specialize (H0 4%nat 0 eq_refl). specialize (H1 4%nat 1 eq_refl).
  assert (0 + c 4%nat = 1 + c 4%nat) as Heq.
  { apply (inj Some). rewrite <- H0, <- H1. reflexivity. }
  apply (f_equal (fun x => x - c 4%nat)) in Heq. ring_simplify in Heq.
  refuted_by_evaluation Heq.
Qed.

Lemma dcsd_bary_by_analytic_stores :
  ~ accumulates cs_source_term_dcsd_bary_by_analytic.
Proof.
  intros Hacc.
  destruct (Hacc (Some dual_x) (sample_cell 0) sample_cb) as [c Hc].
  assert (forall a, cs_source_term_dcsd_bary_by_analytic (Some dual_x) (sample_cell 0)
            sample_cb [a; 0; 0; 0] =
          Ok [dbl (23 # 576); dbl (25 # 192); dbl (23 # 576); dbl (23 # 576)])
    as Hrun.
  { intros a.
    assert (cs_source_term_dcsd_bary_by_analytic (Some dual_x) (sample_cell 0)
              sample_cb [0; 0; 0; 0] =
            Ok [dbl (23 # 576); dbl (25 # 192); dbl (23 # 576); dbl (23 # 576)])
      as H0 by by_evaluation.
    unfold cs_source_term_dcsd_bary_by_analytic in *.
    repeat match goal with
           | H : context [bind ?m _] |- _ =>
             destruct m eqn:?; cbn [bind] in H |- *; [|discriminate H]
           end.
    rewrite <- H0. reflexivity. }
  destruct (Hc _ _ (Hrun 0)) as [_ H0]. destruct (Hc _ _ (Hrun 1)) as [_ H1].
  specialize (H0 0%nat 0 eq_refl). specialize (H1 0%nat 1 eq_refl).
  assert (0 + c 0%nat = 1 + c 0%nat) as Heq.
  { apply (inj Some). rewrite <- H0, <- H1. reflexivity. }
  apply (f_equal (fun x => x - c 0%nat)) in Heq. ring_simplify in Heq.
  refuted_by_evaluation Heq.
Qed.

(** The mask of three cells for [dual_two] (everywhere) and
    [dual_three_zone1] (cells 0 and 2): the words 3, 1, 3. *)
Lemma init_mask_invariant_witness :
  (CS_N_MAX_SOURCE_TERMS <= cs_mask_bits)%nat /\
  cs_source_term_init CS_SPACE_SCHEME_CDOVB 2
    [Some dual_two; Some dual_three_zone1] 0 = Ok sample_init_two /\
  (source_mask sample_init_two = None <->
   forall i st, (i < 2)%nat ->
     [Some dual_two; Some dual_three_zone1] !! i = Some (Some st) -> full_loc st) /\
  (forall mask, source_mask sample_init_two = Some mask ->
     length mask = n_cells cs_cdo_quant /\
     forall c w, mask !! c = Some w ->
       forall i : nat,
         Z.testbit w (Z.of_nat i) = true <->
         (i < 2)%nat /\
         exists st, [Some dual_two; Some dual_three_zone1] !! i = Some (Some st) /\
                    covers st c).
Proof.
  split; [vm_compute; lia|]. split; [reflexivity|].
  apply (init_mask_invariant CS_SPACE_SCHEME_CDOVB 2
           [Some dual_two; Some dual_three_zone1] 0 sample_init_two).
  - vm_compute. lia.
  - reflexivity.
Defined.

(** On the cell 0, whose mask word 3 has the bits of both definitions. *)
Lemma null_mask_is_full_mask_witness :
  [3; 1; 3]%Z !! c_id (sample_cell 0) = Some 3%Z /\
  (0 <= 3 < 2 ^ Z.of_nat cs_mask_bits)%Z /\
  (forall i : nat, (i < 2)%nat -> Z.testbit 3 (Z.of_nat i) = true) /\
  cs_source_term_compute_cellwise 2 [Some dual_two; Some dual_three_zone1]
    (sample_cell 0) CS_FLAG_SYS_SOURCETERM None (compute_source sample_init_two)
    sample_cb (zeroed 4) =
  cs_source_term_compute_cellwise 2 [Some dual_two; Some dual_three_zone1]
    (sample_cell 0) CS_FLAG_SYS_SOURCETERM (Some [3; 1; 3]%Z)
    (compute_source sample_init_two) sample_cb (zeroed 4).
Proof.
  assert (forall i : nat, (i < 2)%nat -> Z.testbit 3 (Z.of_nat i) = true) as Hbits.
  { intros [|[|i]] Hi; [reflexivity|reflexivity|lia]. }
  split; [reflexivity|]. split; [vm_compute; split; [discriminate|reflexivity]|].
  split; [exact Hbits|].
  apply (null_mask_is_full_mask 2 _ (sample_cell 0) _ [3; 1; 3]%Z 3%Z).
  - reflexivity.
  - vm_compute. split; [discriminate|reflexivity].
  - exact Hbits.
Defined.

(** The density 3 on the zone 1 alone, and the cell 1, which is outside
    the zone. *)
Lemma dispatch_skips_outside_zone_witness :
  (CS_N_MAX_SOURCE_TERMS <= cs_mask_bits)%nat /\
  cs_source_term_init CS_SPACE_SCHEME_CDOVB 1 [Some dual_three_zone1] 0 =
    Ok sample_init_zone /\
  (0 < 1)%nat /\
  [Some dual_three_zone1] !! 0%nat = Some (Some dual_three_zone1) /\
  ~ full_loc dual_three_zone1 /\
  (c_id (sample_cell 1) ∉ cell_ids (cs_volume_zone_by_id (z_id dual_three_zone1))) /\
  (c_id (sample_cell 1) < n_cells cs_cdo_quant)%nat /\
  (forall f,
     cs_source_term_compute_cellwise 1 [Some dual_three_zone1] (sample_cell 1)
       CS_FLAG_SYS_SOURCETERM (source_mask sample_init_zone)
       (<[0%nat := f]> (compute_source sample_init_zone)) sample_cb (zeroed 4) =
     cs_source_term_compute_cellwise 1 [Some dual_three_zone1] (sample_cell 1)
       CS_FLAG_SYS_SOURCETERM (source_mask sample_init_zone)
       (compute_source sample_init_zone) sample_cb (zeroed 4)) /\
  (1%nat = 1%nat ->
   exists csys',
     cs_source_term_compute_cellwise 1 [Some dual_three_zone1] (sample_cell 1)
       CS_FLAG_SYS_SOURCETERM (source_mask sample_init_zone)
       (compute_source sample_init_zone) sample_cb (zeroed 4) = Ok csys' /\
     n_dofs csys' = n_dofs (zeroed 4) /\
     length (source csys') = length (source (zeroed 4)) /\
     forall k, (k < n_dofs (zeroed 4))%nat -> (k < length (source (zeroed 4)))%nat ->
       source csys' !! k = Some 0).
Proof.
  assert (~ full_loc dual_three_zone1) as Hpart.
  { intros Hfull. apply Hfull. reflexivity. }
  assert (c_id (sample_cell 1) ∉
          cell_ids (cs_volume_zone_by_id (z_id dual_three_zone1))) as Hout.
  { intros Hin. apply list_elem_of_In in Hin. vm_compute in Hin.
    destruct Hin as [Hin|[Hin|[]]]; discriminate. }
  split; [vm_compute; lia|]. split; [reflexivity|]. split; [lia|].
  split; [reflexivity|]. split; [exact Hpart|]. split; [exact Hout|].
  split; [vm_compute; lia|].
  apply (dispatch_skips_outside_zone CS_SPACE_SCHEME_CDOVB 1
           [Some dual_three_zone1] 0 CS_FLAG_SYS_SOURCETERM sample_init_zone 0
           dual_three_zone1 (sample_cell 1) sample_cb (zeroed 4)).
  - vm_compute. lia.
  - reflexivity.
  - lia.
  - reflexivity.
  - exact Hpart.
  - exact Hout.
  - vm_compute. lia.
Defined.

(** C6 as it is stated fails: the definition by value 2 on the sample
    cell gives 1/2 at each vertex after one call and 1/2 again, not 1,
    after the second. *)
Lemma twice_is_not_double :
  ~ twice_is_double 1 [Some dual_two] (sample_cell 0) CS_FLAG_SYS_SOURCETERM None
      [Some cs_source_term_dcsd_by_value] sample_cb (zeroed 4).
Proof.
  intros Hdouble.
  pose (csys1 := {| n_dofs := 4; source := [dbl 0.5; dbl 0.5; dbl 0.5; dbl 0.5] |}).
  assert (source csys1 = map (fun x => 2 * x) (source csys1)) as Heq.
  { apply (Hdouble csys1 csys1); by_evaluation. }
  refuted_by_evaluation Heq.
Qed.

(** Two calls in a row on the sample cell for [dual_two] and
    [dual_three_zone1]: 2/4 + 3/4 at each vertex, twice. *)
Lemma dispatch_twice_same_witness :
  let csys1 :=
    {| n_dofs := 4; source := [dbl 1.25; dbl 1.25; dbl 1.25; dbl 1.25] |} in
  cs_source_term_init CS_SPACE_SCHEME_CDOVB 2
    [Some dual_two; Some dual_three_zone1] 0 = Ok sample_init_two /\
  length (source (zeroed 4)) = n_dofs (zeroed 4) /\
  cs_source_term_compute_cellwise 2 [Some dual_two; Some dual_three_zone1]
    (sample_cell 0) CS_FLAG_SYS_SOURCETERM (source_mask sample_init_two)
    (compute_source sample_init_two) sample_cb (zeroed 4) = Ok csys1 /\
  cs_source_term_compute_cellwise 2 [Some dual_two; Some dual_three_zone1]
    (sample_cell 0) CS_FLAG_SYS_SOURCETERM (source_mask sample_init_two)
    (compute_source sample_init_two) sample_cb csys1 = Ok csys1.
Proof.
  intros csys1.
  assert (cs_source_term_compute_cellwise 2 [Some dual_two; Some dual_three_zone1]
            (sample_cell 0) CS_FLAG_SYS_SOURCETERM (source_mask sample_init_two)
            (compute_source sample_init_two) sample_cb (zeroed 4) = Ok csys1) as Hrun.
  { apply (bool_decide_unpack _). vm_compute. exact I. }
  split; [reflexivity|]. split; [reflexivity|]. split; [exact Hrun|].
  apply (dispatch_twice_same CS_SPACE_SCHEME_CDOVB 2
           [Some dual_two; Some dual_three_zone1] 0 CS_FLAG_SYS_SOURCETERM
           sample_init_two (sample_cell 0) sample_cb (zeroed 4) csys1).
  - reflexivity.
  - reflexivity.
  - exact Hrun.
Defined.



(** Nine source terms where the header allows eight. *)
Lemma init_rejects_too_many_witness :
  (CS_N_MAX_SOURCE_TERMS < 9)%nat /\
  cs_source_term_init CS_SPACE_SCHEME_CDOVB 9 (replicate 9 (Some dual_two)) 0 =
  Err (bft_error " Limitation to %d source terms has been reached!"
                 [Z.of_nat CS_N_MAX_SOURCE_TERMS]).
Proof.
  split; [vm_compute; lia|].
  apply (init_rejects_too_many CS_SPACE_SCHEME_CDOVB 9 (replicate 9 (Some dual_two)) 0).
  vm_compute. lia.
Defined.

(** The cell of C10: its volume, [2^-1074], and the fractions of its
    vertices, 1/4, are positive. *)
Lemma tiny_cell_is_positive : Binary64.positive_cell tiny_cell.
Proof.
  split; [reflexivity|].
  intros [|[|[|[|v]]]] Hv; try reflexivity. simpl in Hv. lia.
Qed.

(** C10 as it is stated fails in double precision: the volume of
    [tiny_cell] and the fraction of each of its vertices are positive,
    and their product, [2^-1076], is rounded to zero. *)
Lemma positive_cell_with_zero_divisor : ~ Binary64.positive_makes_division_safe.
Proof.
  intros Hsafe.
  pose proof (Hsafe tiny_cell tiny_cell_is_positive 0%nat) as Hdiv.
  assert (0 < Binary64.n_vc tiny_cell)%nat as Hv by (simpl; lia).
  specialize (Hdiv Hv). vm_compute in Hdiv. discriminate Hdiv.
Qed.

(** On that cell the evaluator divides by zero and goes on: [invvol] is
    infinite, the scaled sums and the four entries of the result are not
    numbers. *)
Lemma tiny_cell_divides_by_zero :
  (1 / (Binary64.vol_c tiny_cell * Binary64.wvc tiny_cell !!! 0%nat))%float =
  infinity /\
  Binary64.cs_source_term_dcsd_bary_by_analytic (1 / 6)%float 0%float
    (Some dual_x64) tiny_cell sample_cb [0; 0; 0; 0]%float =
  Ok [nan; nan; nan; nan].
Proof. split; vm_compute; reflexivity. Qed.

(** The function [x] on the cell of volume [2^-1074]. *)
Lemma dcsd_bary_divides_unguarded_witness :
  Binary64.input dual_x64 = Binary64.input_analytic first_coordinate64 /\
  cs_test_flag (Binary64.flag tiny_cell)
    (Z.lor (Z.lor (Z.lor (Z.lor (Z.lor CS_CDO_LOCAL_PVQ CS_CDO_LOCAL_PFQ)
       CS_CDO_LOCAL_HFQ) CS_CDO_LOCAL_FE) CS_CDO_LOCAL_FEQ) CS_CDO_LOCAL_EV) = true /\
  (Binary64.vol_c tiny_cell * Binary64.wvc tiny_cell !!! 0%nat)%float = 0%float /\
  Binary64.divide_by_volumes tiny_cell (replicate 12 1%float) !!! 0%nat =
  (1 * infinity)%float /\
  exists values',
    Binary64.cs_source_term_dcsd_bary_by_analytic (1 / 6)%float 0%float
      (Some dual_x64) tiny_cell sample_cb [0; 0; 0; 0]%float = Ok values' /\
    length values' = 4%nat.
Proof.
  split; [reflexivity|]. split; [reflexivity|]. split; [reflexivity|].
  destruct (dcsd_bary_divides_unguarded (1 / 6)%float 0%float dual_x64
              first_coordinate64 tiny_cell sample_cb [0; 0; 0; 0]%float
              eq_refl eq_refl) as (_ & Hzero & values' & Hrun & Hlen & _).
  split.
  - apply (Hzero (replicate 12 1%float) 0%nat 0%nat).
    + reflexivity.
    + simpl. lia.
    + lia.
    + reflexivity.
  - exists values'. split; [exact Hrun|exact Hlen].
Defined.

(** * More properties of the code *)

Section MoreProofs.

Context {hdrs : cs_headers} {shared : cs_shared} {flags : cs_flag_headers}.

(** ** The evaluators *)

(** X1: eight of the evaluators add to the array of values a contribution
    that does not depend on what the array held before the call. *)
Theorem adding_evaluators_accumulate :
  Forall accumulates
    [ cs_source_term_pvsp_by_value;
      cs_source_term_pvsp_by_analytic;
      cs_source_term_dcsd_by_value;
      cs_source_term_dcsd_q1o1_by_analytic;
      cs_source_term_dcsd_q10o2_by_analytic;
      cs_source_term_dcsd_q5o3_by_analytic;
      cs_source_term_vcsp_by_value;
      cs_source_term_vcsp_by_analytic ].
Proof.
  repeat apply Forall_cons_2; [..|apply Forall_nil_2].
  - apply pvsp_by_value_accumulates.
  - apply pvsp_by_analytic_accumulates.
  - apply dcsd_by_value_accumulates.
  - apply dcsd_q1o1_by_analytic_accumulates.
  - apply dcsd_q10o2_by_analytic_accumulates.
  - apply dcsd_q5o3_by_analytic_accumulates.
  - apply vcsp_by_value_accumulates.
  - apply vcsp_by_analytic_accumulates.
Qed.

(** ** Initialisation *)

(** X3: [cs_source_term_init] succeeds exactly when the number of source
    terms is within [CS_N_MAX_SOURCE_TERMS] and every definition is there
    (not NULL) and has an evaluator for the scheme; building the mask
    never fails. *)
Theorem init_succeeds_iff (space_scheme : cs_space_scheme_t)
    (n_source_terms : nat) (source_terms : list (option cs_xdef_t)) (sys_flag0 : Z) :
  (exists r,
     cs_source_term_init space_scheme n_source_terms source_terms sys_flag0 = Ok r) <->
  (n_source_terms <= CS_N_MAX_SOURCE_TERMS)%nat /\
  forall i, (i < n_source_terms)%nat ->
    exists st b, source_terms !! i = Some (Some st) /\
                 bind_evaluator space_scheme st = Ok b.
Proof.
  split.
  - intros [r Hinit]. destruct (init_ok _ _ _ _ _ Hinit) as (Hmax & _ & Hbound & _).
    split; [exact Hmax|]. intros i Hi.
    destruct (Hbound i Hi) as (st & bits & f & Hst & Hbind & _). eauto.
  - intros [Hmax Hall]. apply init_returns; assumption.
Qed.

(** The flags of [cs_source_term_init]: only bits are added, and
    [*sys_flag] gets the two bits of the local Hodge operator exactly when
    one of the definitions seen so far is PRIMAL and the scheme is
    vertex-based or vertex+cell-based. *)
Lemma subflag_refl (a : Z) : subflag a a.
Proof. apply Z.land_diag. Qed.

Lemma subflag_bits (a b : Z) :
  subflag a b <-> forall n, (0 <= n)%Z -> Z.testbit a n = true -> Z.testbit b n = true.
Proof.
  unfold subflag. split.
  - intros Heq n Hn Ha. rewrite <- Heq in Ha. rewrite Z.land_spec in Ha.
    apply andb_true_iff in Ha. tauto.
  - intros Hsub. apply Z.bits_inj'. intros n Hn. rewrite Z.land_spec.
    destruct (Z.testbit a n) eqn:Ha; [|apply andb_false_r].
    rewrite (Hsub n Hn Ha). reflexivity.
Qed.

Lemma subflag_trans (a b c : Z) : subflag a b -> subflag b c -> subflag a c.
Proof. rewrite !subflag_bits. intros Hab Hbc n Hn Ha. auto. Qed.

Lemma subflag_lor_l (a b : Z) : subflag a (Z.lor a b).
Proof.
  apply subflag_bits. intros n _ Ha. rewrite Z.lor_spec, Ha. reflexivity.
Qed.

Lemma subflag_lor_r (a b : Z) : subflag b (Z.lor a b).
Proof.
  apply subflag_bits. intros n _ Hb. rewrite Z.lor_spec, Hb. apply orb_true_r.
Qed.

Lemma subflag_lor (a b c : Z) : subflag a c -> subflag b c -> subflag (Z.lor a b) c.
Proof.
  rewrite !subflag_bits. intros Ha Hb n Hn. rewrite Z.lor_spec, orb_true_iff.
  intros [|]; auto.
Qed.

Lemma has_bit_subflag (a b f : Z) :
  subflag a b -> Z.land a f <> 0%Z -> Z.land b f <> 0%Z.
Proof.
  intros Hsub Ha Hb. apply Ha. apply Z.bits_inj'. intros n Hn.
  rewrite Z.bits_0, Z.land_spec.
  destruct (Z.testbit a n) eqn:Hbit; [|reflexivity].
  pose proof (proj1 (subflag_bits a b) Hsub n Hn Hbit) as Hbn.
  assert (Z.testbit (Z.land b f) n = false) as Hz by (rewrite Hb; apply Z.bits_0).
  rewrite Z.land_spec, Hbn in Hz. exact Hz.
Qed.

(** What [cs_source_term_init] does to the flags: [msh_flag] holds the
    bits of every bound evaluator, and [*sys_flag] is the flag given or
    the flag given with the two bits of the local Hodge operator. *)
Lemma init_flags (space_scheme : cs_space_scheme_t) (n_source_terms : nat)
    (source_terms : list (option cs_xdef_t)) (sys_flag0 : Z)
    (r : cs_source_term_init_t) :
  cs_source_term_init space_scheme n_source_terms source_terms sys_flag0 = Ok r ->
  let vertex_scheme :=
    space_scheme = CS_SPACE_SCHEME_CDOVB \/ space_scheme = CS_SPACE_SCHEME_CDOVCB in
  let primal_before k :=
    exists i st, (i < k)%nat /\ source_terms !! i = Some (Some st) /\
                 Z.land (meta st) CS_FLAG_PRIMAL <> 0%Z in
  let hodge := Z.lor CS_FLAG_SYS_HLOC_CONF CS_FLAG_SYS_SOURCES_HLOC in
  (forall i st bits f, (i < n_source_terms)%nat ->
     source_terms !! i = Some (Some st) ->
     bind_evaluator space_scheme st = Ok (bits, f) ->
     subflag bits (msh_flag r)) /\
  ((sys_flag r = sys_flag0 /\ ~ (vertex_scheme /\ primal_before n_source_terms)) \/
   (sys_flag r = Z.lor sys_flag0 hodge /\ vertex_scheme /\
    primal_before n_source_terms)).
Proof.
  intros Hinit vertex_scheme primal_before hodge.
  set (inv := fun (k : nat)
                  (s : Z * Z * list (option cs_source_term_cellwise_t) * bool) =>
    (forall i st bits f, (i < k)%nat ->
       source_terms !! i = Some (Some st) ->
       bind_evaluator space_scheme st = Ok (bits, f) ->
       subflag bits s.1.1.1) /\
    ((s.1.1.2 = sys_flag0 /\ ~ (vertex_scheme /\ primal_before k)) \/
     (s.1.1.2 = Z.lor sys_flag0 hodge /\ vertex_scheme /\ primal_before k))).
  assert (inv 0%nat (0%Z, sys_flag0, replicate CS_N_MAX_SOURCE_TERMS None, false))
    as Hstart.
  { split; [intros; lia|]. left. split; [reflexivity|].
    intros [_ (i & _ & Hi & _)]. lia. }
  assert (forall k s s', inv k s ->
            init_source_term space_scheme source_terms k s = Ok s' -> inv (S k) s')
    as Hstep.
  { intros k [[[msh1 sys1] cs1] nm1] [[[msh2 sys2] cs2] nm2].
    unfold inv. cbn [fst snd]. intros (Hbits & Hsys). unfold init_source_term.
    destruct (source_terms !! k) as [[st|]|] eqn:Hst; try discriminate.
    assert (forall P : Prop, primal_before k -> primal_before (S k)) as Hmono.
    { intros _ (i & st' & Hi & Hst' & Hp). exists i, st'. split; [lia|auto]. }
    assert (primal_before (S k) ->
            primal_before k \/ Z.land (meta st) CS_FLAG_PRIMAL <> 0%Z) as Hlast.
    { intros (i & st' & Hi & Hst' & Hp).
      destruct (decide (i = k)) as [->|Hne].
      - right. congruence.
      - left. exists i, st'. split; [lia|auto]. }
    assert (forall msh3 sys3,
              subflag msh1 msh3 ->
              ((sys3 = sys_flag0 /\ ~ (vertex_scheme /\ primal_before (S k))) \/
               (sys3 = Z.lor sys_flag0 hodge /\ vertex_scheme /\ primal_before (S k))) ->
              (do '(bits, compute) <- bind_evaluator space_scheme st;
               Ok (Z.lor msh3 bits, sys3, <[k := Some compute]> cs1,
                   if decide (full_loc st) then nm1 else true)) =
              Ok (msh2, sys2, cs2, nm2) ->
              (forall i st0 bits0 f0, (i < S k)%nat ->
                 source_terms !! i = Some (Some st0) ->
                 bind_evaluator space_scheme st0 = Ok (bits0, f0) ->
                 subflag bits0 msh2) /\
              ((sys2 = sys_flag0 /\ ~ (vertex_scheme /\ primal_before (S k))) \/
               (sys2 = Z.lor sys_flag0 hodge /\ vertex_scheme /\ primal_before (S k))))
      as Hfinish.
    { intros msh3 sys3 Hsub Hs3.
      destruct (bind_evaluator space_scheme st) as [[bits f]|e] eqn:Hbind;
        cbn [bind]; [|discriminate].
      intros [= <- <- <- <-]. split; [|exact Hs3].
      intros i st0 bits0 f0 Hi Hst0 Hb0.
      destruct (decide (i = k)) as [->|Hne].
      - assert (st0 = st) as -> by congruence.
        assert (bits0 = bits) as -> by congruence. apply subflag_lor_r.
      - apply (subflag_trans _ msh1); [apply (Hbits i st0 bits0 f0); [lia|auto..]|].
        apply (subflag_trans _ msh3); [exact Hsub|apply subflag_lor_l]. }
    assert (vertex_scheme -> Z.land (meta st) CS_FLAG_PRIMAL <> 0%Z ->
            Z.lor sys1 hodge = Z.lor sys_flag0 hodge /\ vertex_scheme /\
            primal_before (S k)) as Hadd.
    { intros Hv Hp. split; [|split; [exact Hv|]].
      - destruct Hsys as [[-> _]|[-> _]]; [reflexivity|].
        rewrite <- Z.lor_assoc, Z.lor_diag. reflexivity.
      - exists k, st. split; [lia|auto]. }
    assert ((vertex_scheme -> ~ Z.land (meta st) CS_FLAG_PRIMAL <> 0%Z) ->
            (sys1 = sys_flag0 /\ ~ (vertex_scheme /\ primal_before (S k))) \/
            (sys1 = Z.lor sys_flag0 hodge /\ vertex_scheme /\ primal_before (S k)))
      as Hsame.
    { intros Hnot. destruct Hsys as [[-> Hn]|(-> & Hv & Hb)].
      - left. split; [reflexivity|]. intros [Hv Hb].
        destruct (Hlast Hb) as [Hb'|Hp]; [apply Hn; auto|apply (Hnot Hv Hp)].
      - right. split; [reflexivity|]. split; [exact Hv|apply (Hmono True Hb)]. }
    destruct (decide (Z.land (meta st) CS_FLAG_PRIMAL <> 0%Z)) as [Hp|Hp].
    - destruct space_scheme.
      + apply Hfinish; [apply subflag_lor_l|]. right. apply Hadd; [left; reflexivity|exact Hp].
      + apply Hfinish; [apply subflag_lor_l|]. right. apply Hadd; [right; reflexivity|exact Hp].
      + apply Hfinish; [apply subflag_refl|]. apply Hsame. intros [|]; discriminate.
      + apply Hfinish; [apply subflag_refl|]. apply Hsame. intros [|]; discriminate.
    - apply Hfinish; [apply subflag_refl|]. apply Hsame. intros _. exact Hp. }
  revert Hinit. unfold cs_source_term_init.
  destruct (decide (CS_N_MAX_SOURCE_TERMS < n_source_terms)%nat); [discriminate|].
  destruct (decide (n_source_terms = 0%nat)) as [->|Hn].
  { intros [= <-]. exact Hstart. }
  destruct (for_loopM 0 n_source_terms
              (init_source_term space_scheme source_terms) _)
    as [[[[msh sys] cs] nm]|e] eqn:Hloop; cbn [bind]; [|discriminate].
  assert (inv n_source_terms (msh, sys, cs, nm)) as Hinv.
  { apply (for_loopM_ind inv 0 n_source_terms
             (init_source_term space_scheme source_terms)
             (0%Z, sys_flag0, replicate CS_N_MAX_SOURCE_TERMS None, false));
      [lia|exact Hstart| |exact Hloop].
    intros i s s' _. apply Hstep. }
  destruct nm.
  - destruct (for_loopM 0 n_source_terms _ (replicate (n_cells cs_cdo_quant) 0%Z));
      cbn [bind]; [|discriminate].
    intros [= <-]. exact Hinv.
  - intros [= <-]. exact Hinv.
Qed.

(** X4: [cs_source_term_init] only adds to [*sys_flag] the two bits of
    the local Hodge operator, and it adds them exactly when the scheme is
    vertex-based or vertex+cell-based and one of the definitions is
    PRIMAL; otherwise the flag comes back as it was given. *)
Theorem init_sys_flag (space_scheme : cs_space_scheme_t) (n_source_terms : nat)
    (source_terms : list (option cs_xdef_t)) (sys_flag0 : Z)
    (r : cs_source_term_init_t) :
  cs_source_term_init space_scheme n_source_terms source_terms sys_flag0 = Ok r ->
  (sys_flag r = sys_flag0 /\
   ~ ((space_scheme = CS_SPACE_SCHEME_CDOVB \/ space_scheme = CS_SPACE_SCHEME_CDOVCB) /\
      exists i st, (i < n_source_terms)%nat /\ source_terms !! i = Some (Some st) /\
                   Z.land (meta st) CS_FLAG_PRIMAL <> 0%Z)) \/
  (sys_flag r =
     Z.lor sys_flag0 (Z.lor CS_FLAG_SYS_HLOC_CONF CS_FLAG_SYS_SOURCES_HLOC) /\
   (space_scheme = CS_SPACE_SCHEME_CDOVB \/ space_scheme = CS_SPACE_SCHEME_CDOVCB) /\
   exists i st, (i < n_source_terms)%nat /\ source_terms !! i = Some (Some st) /\
                Z.land (meta st) CS_FLAG_PRIMAL <> 0%Z).
Proof. intros Hinit. apply (init_flags _ _ _ _ _ Hinit). Qed.

Ltac sub_lor :=
  match goal with
  | |- subflag ?a ?a => apply subflag_refl
  | |- subflag (Z.lor _ _) _ => apply subflag_lor; sub_lor
  | |- subflag ?a (Z.lor ?b ?c) =>
    first [ apply (subflag_trans a c); [sub_lor|apply subflag_lor_r]
          | apply (subflag_trans a b); [sub_lor|apply subflag_lor_l] ]
  end.

Lemma as_values_err (i : cs_xdef_input_t) (e : cs_error) :
  as_values i = Err e -> e = undefined_behaviour.
Proof. destruct i; simpl; congruence. Qed.

Lemma as_analytic_err (i : cs_xdef_input_t) (e : cs_error) :
  as_analytic i = Err e -> e = undefined_behaviour.
Proof. destruct i; simpl; congruence. Qed.

(** The bits that the [switch] asks for a definition are those that the
    evaluator it binds asserts. *)
Lemma bound_evaluator_asserts (space_scheme : cs_space_scheme_t) (st : cs_xdef_t)
    (bits : Z) (f : cs_source_term_cellwise_t) (cm : cs_cell_mesh_t)
    (cb : cs_cell_builder_t) (values : list cs_real_t) :
  (forall flag ref, subflag ref flag -> cs_test_flag flag ref = true) ->
  bind_evaluator space_scheme st = Ok (bits, f) ->
  subflag bits (flag cm) ->
  hdg cb <> None ->
  f (Some st) cm cb values <> Err assert_failure.
Proof.
  intros Htest Hbind Hbits Hhdg.
  assert (forall ref, subflag ref bits -> cs_test_flag (flag cm) ref = true) as Hpass.
  { intros ref Href. apply Htest. apply (subflag_trans ref bits); assumption. }
  assert (exists h, hdg_not_null cb = Ok h) as [h Hh].
  { unfold hdg_not_null. destruct (hdg cb); [eauto|contradiction]. }
  revert Hbind. unfold bind_evaluator, c_assert.
  destruct space_scheme;
    repeat match goal with
           | |- context [decide ?P] => destruct (decide P)
           | |- context [bool_decide ?P] => destruct (bool_decide P)
           end;
    destruct (type st); try destruct (qtype st); cbn [bind];
    intros Hbind; try discriminate Hbind;
    injection Hbind as <- <-;
    cbv beta delta [cs_source_term_pvsp_by_value cs_source_term_pvsp_by_analytic
                    cs_source_term_dcsd_by_value cs_source_term_dcsd_bary_by_analytic
                    cs_source_term_dcsd_q1o1_by_analytic
                    cs_source_term_dcsd_q10o2_by_analytic
                    cs_source_term_dcsd_q5o3_by_analytic
                    cs_source_term_vcsp_by_value cs_source_term_vcsp_by_analytic
                    cs_source_term_fbsd_by_value cs_source_term_fbsd_bary_by_analytic];
    rewrite ?Hh; cbn [bind];
    try (rewrite Hpass by sub_lor); cbn [c_assert bind];
    repeat match goal with
           | |- context [bind (as_values ?i) _] =>
             let H := fresh "Hcast" in
             destruct (as_values i) eqn:H; [|apply as_values_err in H; subst]
           | |- context [bind (as_analytic ?i) _] =>
             let H := fresh "Hcast" in
             destruct (as_analytic i) eqn:H; [|apply as_analytic_err in H; subst]
           end;
    cbn [bind]; try discriminate.
Qed.

(** X5: the flag that [cs_source_term_init] returns asks for all that the
    evaluators it binds assert on a cell.  On a cell that holds what
    [msh_flag] asks for, with a builder that holds the Hodge operator, no
    bound evaluator stops on an assertion.  ([cs_test_flag], of the
    headers, is taken to hold of a flag that has all the bits tested.) *)
Theorem init_flag_suffices (space_scheme : cs_space_scheme_t) (n_source_terms : nat)
    (source_terms : list (option cs_xdef_t)) (sys_flag0 : Z)
    (r : cs_source_term_init_t) (i : nat) (st : cs_xdef_t)
    (f : cs_source_term_cellwise_t) (cm : cs_cell_mesh_t) (cb : cs_cell_builder_t)
    (values : list cs_real_t) :
  (forall flag ref, subflag ref flag -> cs_test_flag flag ref = true) ->
  cs_source_term_init space_scheme n_source_terms source_terms sys_flag0 = Ok r ->
  (i < n_source_terms)%nat ->
  source_terms !! i = Some (Some st) ->
  compute_source r !! i = Some (Some f) ->
  subflag (msh_flag r) (flag cm) ->
  hdg cb <> None ->
  f (Some st) cm cb values <> Err assert_failure.
Proof.
  intros Htest Hinit Hi Hst Hf Hflag Hhdg.
  destruct (init_ok _ _ _ _ _ Hinit) as (_ & _ & Hbound & _).
  destruct (Hbound i Hi) as (st' & bits & f' & Hst' & Hbind & Hf').
  assert (st' = st) as -> by congruence. assert (f' = f) as -> by congruence.
  destruct (init_flags _ _ _ _ _ Hinit) as [Hbits _].
  apply (bound_evaluator_asserts space_scheme st bits); try assumption.
  apply (subflag_trans bits (msh_flag r)); [|exact Hflag].
  apply (Hbits i st bits f); assumption.
Qed.

(** ** The dispatcher *)

(** X6: on a cell that every definition is active on, the mask built by
    [cs_source_term_init] hides nothing: the dispatcher gives what it
    gives without a mask. *)
Theorem mask_hides_nothing_on_covered_cell (space_scheme : cs_space_scheme_t)
    (n_source_terms : nat) (source_terms : list (option cs_xdef_t))
    (sys_flag0 sys_flag1 : Z) (r : cs_source_term_init_t)
    (cm : cs_cell_mesh_t) (cb : cs_cell_builder_t) (csys : cs_cell_sys_t) :
  (CS_N_MAX_SOURCE_TERMS <= cs_mask_bits)%nat ->
  cs_source_term_init space_scheme n_source_terms source_terms sys_flag0 = Ok r ->
  (c_id cm < n_cells cs_cdo_quant)%nat ->
  (forall i st, (i < n_source_terms)%nat ->
     source_terms !! i = Some (Some st) -> covers st (c_id cm)) ->
  cs_source_term_compute_cellwise n_source_terms source_terms cm sys_flag1
    (source_mask r) (compute_source r) cb csys =
  cs_source_term_compute_cellwise n_source_terms source_terms cm sys_flag1
    None (compute_source r) cb csys.
Proof.
  intros Hwidth Hinit Hc Hcov.
  destruct (init_ok _ _ _ _ _ Hinit) as (Hmax & _ & Hbound & Hmask).
  destruct Hmask as [[-> _]|(mask & -> & [Hlen Hbits] & _)]; [reflexivity|].
  destruct (lookup_lt_is_Some_2 mask (c_id cm)) as [w Hw]; [lia|].
  unfold cs_source_term_compute_cellwise.
  destruct (decide (Z.land sys_flag1 CS_FLAG_SYS_SOURCETERM = 0%Z)); [reflexivity|].
  f_equal. apply for_loopM_ext. intros i s Hi. rewrite Hw.
  rewrite decide_True; [reflexivity|].
  apply mask_bit_test; [lia|]. apply (Hbits _ _ Hw).
  destruct (Hbound i) as (st & _ & _ & Hst & _); [lia|].
  split; [lia|]. split; [lia|]. exists st. split; [exact Hst|].
  apply (Hcov i); [lia|exact Hst].
Qed.

(** The loop of the dispatcher on two source terms, without a mask. *)
Lemma dispatch_two (sa sb : option cs_xdef_t) (fa fb : cs_source_term_cellwise_t)
    (cm : cs_cell_mesh_t) (cb : cs_cell_builder_t) (s : list cs_real_t) :
  for_loopM 0 2 (call_compute [sa; sb] [Some fa; Some fb] cm cb) s =
  (do s1 <- fa sa cm cb s; fb sb cm cb s1).
Proof.
  rewrite for_loopM_S, for_loopM_S, for_loopM_nil by lia. reflexivity.
Qed.

(** X7: two source terms whose evaluators accumulate may come in either
    order: when the dispatcher succeeds on both orders, it gives the same
    buffer (the arithmetic of the model is exact). *)
Theorem adding_terms_commute (sa sb : option cs_xdef_t)
    (fa fb : cs_source_term_cellwise_t) (cm : cs_cell_mesh_t) (sys_flag0 : Z)
    (cb : cs_cell_builder_t) (csys csys1 csys2 : cs_cell_sys_t) :
  accumulates fa -> accumulates fb ->
  cs_source_term_compute_cellwise 2 [sa; sb] cm sys_flag0 None
    [Some fa; Some fb] cb csys = Ok csys1 ->
  cs_source_term_compute_cellwise 2 [sb; sa] cm sys_flag0 None
    [Some fb; Some fa] cb csys = Ok csys2 ->
  csys1 = csys2.
Proof.
  intros Ha Hb. unfold cs_source_term_compute_cellwise.
  destruct (decide (Z.land sys_flag0 CS_FLAG_SYS_SOURCETERM = 0%Z)); [congruence|].
  rewrite !dispatch_two.
  set (s0 := for_loop 0 (n_dofs csys) _ (source csys)).
  destruct (fa sa cm cb s0) as [v1|] eqn:Ha1; cbn [bind]; [|discriminate].
  destruct (fb sb cm cb v1) as [v2|] eqn:Hb1; cbn [bind]; [|discriminate].
  intros [= <-].
  destruct (fb sb cm cb s0) as [w1|] eqn:Hb2; cbn [bind]; [|discriminate].
  destruct (fa sa cm cb w1) as [w2|] eqn:Ha2; cbn [bind]; [|discriminate].
  intros [= <-]. f_equal.
  destruct (Ha sa cm cb) as [ca Hca]. destruct (Hb sb cm cb) as [cb' Hcb].
  destruct (Hca _ _ Ha1) as [Lv1 Av1]. destruct (Hcb _ _ Hb1) as [Lv2 Av2].
  destruct (Hcb _ _ Hb2) as [Lw1 Aw1]. destruct (Hca _ _ Ha2) as [Lw2 Aw2].
  apply list_eq. intros v. destruct (s0 !! v) as [x|] eqn:Hx.
  - rewrite (Av2 v _ (Av1 v x Hx)), (Aw2 v _ (Aw1 v x Hx)). f_equal. ring.
  - apply lookup_ge_None in Hx.
    rewrite !lookup_ge_None_2; [reflexivity|lia|lia].
Qed.

(** ** What the evaluators leave alone *)

Lemma for_loop_frame {A : Type} (body : nat -> list A -> list A) (lo hi v : nat)
    (s : list A) :
  (forall i s, body i s !! v = s !! v) ->
  for_loop lo hi body s !! v = s !! v.
Proof.
  intros Hbody.
  apply (for_loop_inv (fun s' => s' !! v = s !! v)); [reflexivity|].
  intros i s' Hs'. rewrite Hbody. exact Hs'.
Qed.

(** A loop over [0 .. n-1] that writes the entry of its counter. *)
Lemma for_loop_frame_below {A : Type} (upd : nat -> list A -> list A) (n v : nat)
    (s : list A) :
  (n <= v)%nat ->
  (forall i s, i <> v -> upd i s !! v = s !! v) ->
  for_loop 0 n upd s !! v = s !! v.
Proof.
  intros Hv Hupd.
  pose proof (for_loop_ind (fun _ s' => s' !! v = s !! v) 0 n upd s) as Hind.
  apply Hind; [lia|reflexivity|].
  intros i s' Hi Hs'. rewrite Hupd by lia. exact Hs'.
Qed.

Ltac run_bind H :=
  match type of H with
  | context [bind ?m _] => destruct m eqn:?; cbn [bind] in H; [|discriminate H]
  end.

Ltac unfold_evaluator H :=
  cbv beta iota zeta delta [cs_source_term_pvsp_by_value cs_source_term_pvsp_by_analytic
                  cs_source_term_dcsd_by_value cs_source_term_dcsd_bary_by_analytic
                  cs_source_term_dcsd_q1o1_by_analytic
                  cs_source_term_dcsd_q10o2_by_analytic
                  cs_source_term_dcsd_q5o3_by_analytic
                  cs_source_term_vcsp_by_value cs_source_term_vcsp_by_analytic
                  cs_source_term_fbsd_by_value cs_source_term_fbsd_bary_by_analytic] in H.

Ltac frame_below :=
  intros source cm cb values values' v Hrun Hv;
  destruct source as [source|]; [|injection Hrun as <-; reflexivity];
  unfold_evaluator Hrun; repeat run_bind Hrun; injection Hrun as <-;
  apply for_loop_frame_below; [lia|];
  intros i s Hne;
  first [apply list_lookup_alter_ne; exact Hne
        |apply list_lookup_insert_ne; exact Hne].

(** X8: an evaluator writes only the entries of its degrees of freedom:
    the vertex-based ones leave the entries from [n_vc] on as they are,
    the vertex+cell-based ones the entries from [n_vc + 1] on, and the
    face-based ones all entries but the entry [n_fc] of the cell. *)
Theorem evaluators_write_their_dofs_only :
  Forall (leaves_from n_vc)
    [ cs_source_term_pvsp_by_value;
      cs_source_term_pvsp_by_analytic;
      cs_source_term_dcsd_by_value;
      cs_source_term_dcsd_bary_by_analytic;
      cs_source_term_dcsd_q10o2_by_analytic;
      cs_source_term_dcsd_q5o3_by_analytic ] /\
  Forall (leaves_from (fun cm => n_vc cm + 1)%nat)
    [ cs_source_term_vcsp_by_value;
      cs_source_term_vcsp_by_analytic ] /\
  Forall (leaves_but n_fc)
    [ cs_source_term_fbsd_by_value;
      cs_source_term_fbsd_bary_by_analytic ].
Proof.
  split; [|split]; repeat apply Forall_cons; try apply Forall_nil.
  - frame_below.
  - frame_below.
  - frame_below.
  - frame_below.
  - frame_below.
  - frame_below.
  - frame_below.
  - frame_below.
  - intros source cm cb values values' v Hrun Hv.
    destruct source as [source|]; [|injection Hrun as <-; reflexivity].
    unfold_evaluator Hrun. repeat run_bind Hrun.
    injection Hrun as <-. apply list_lookup_insert_ne. congruence.
  - intros source cm cb values values' v Hrun Hv.
    destruct source as [source|]; [|injection Hrun as <-; reflexivity].
    unfold_evaluator Hrun. repeat run_bind Hrun.
    injection Hrun as <-. apply list_lookup_insert_ne. congruence.
Qed.

(** ** Source terms with the default flag of their scheme *)

Lemma land_lor_ne (a b c : Z) : Z.land a c <> 0%Z -> Z.land (Z.lor a b) c <> 0%Z.
Proof.
  intros Ha Hz. rewrite Z.land_lor_distr_l in Hz.
  apply Z.lor_eq_0_iff in Hz. tauto.
Qed.

Lemma land_lor_ne_r (a b c : Z) : Z.land b c <> 0%Z -> Z.land (Z.lor a b) c <> 0%Z.
Proof. rewrite Z.lor_comm. apply land_lor_ne. Qed.

Lemma land_lor_0 (a b c : Z) :
  Z.land a c = 0%Z -> Z.land b c = 0%Z -> Z.land (Z.lor a b) c = 0%Z.
Proof. intros Ha Hb. rewrite Z.land_lor_distr_l, Ha, Hb. reflexivity. Qed.

Lemma land_self_ne (a : Z) : a <> 0%Z -> Z.land a a <> 0%Z.
Proof. rewrite Z.land_diag. tauto. Qed.

(** The evaluator of a source term with the default flag. *)
Lemma created_bind (space_scheme : cs_space_scheme_t) (st : cs_xdef_t) :
  space_scheme <> CS_SPACE_SCHEME_HHO ->
  CS_FLAG_DUAL <> 0%Z -> CS_FLAG_PRIMAL <> 0%Z ->
  Z.land CS_FLAG_PRIMAL CS_FLAG_DUAL = 0%Z ->
  Z.land CS_FLAG_FULL_LOC CS_FLAG_DUAL = 0%Z ->
  created_for space_scheme st ->
  exists bits f,
    bind_evaluator space_scheme st = Ok (bits, f) /\
    default_evaluator space_scheme st = Some f.
Proof.
  intros Hhho Hd Hp Hpd Hfd [Hmeta Htype].
  assert (Z.land (if decide (z_id st = 0%Z) then CS_FLAG_FULL_LOC else 0%Z)
                 CS_FLAG_DUAL = 0%Z) as Hzone.
  { destruct (decide (z_id st = 0%Z)); [exact Hfd|reflexivity]. }
  unfold bind_evaluator, default_evaluator.
  destruct space_scheme; [| | |congruence]; cbn [cs_source_term_set_default_flag] in Hmeta.
  - rewrite decide_True
      by (rewrite Hmeta; apply land_lor_ne, land_lor_ne, land_self_ne, Hd).
    destruct Htype as [->|[-> Hq]]; [eauto|].
    destruct (qtype st); [congruence|eauto..].
  - rewrite decide_False
      by (intros Hne; apply Hne; rewrite Hmeta; apply land_lor_0; assumption).
    rewrite bool_decide_eq_true_2
      by (rewrite Hmeta; apply land_lor_ne, land_self_ne, Hp).
    cbn [c_assert bind].
    destruct Htype as [->|[-> Hq]]; [eauto|].
    destruct (qtype st); eauto.
  - destruct Htype as [->|[-> Hq]]; [eauto|].
    destruct (qtype st); eauto.
Qed.

(** X9: source terms that carry the default flag of the scheme of their
    equation, by value or by analytic function with a quadrature, are all
    accepted by [cs_source_term_init], which gives each the evaluator of
    its type (and, for dual cells, of its quadrature). *)
Theorem default_source_terms_are_bound (space_scheme : cs_space_scheme_t)
    (n_source_terms : nat) (source_terms : list (option cs_xdef_t)) (sys_flag0 : Z) :
  space_scheme <> CS_SPACE_SCHEME_HHO ->
  CS_FLAG_DUAL <> 0%Z -> CS_FLAG_PRIMAL <> 0%Z ->
  Z.land CS_FLAG_PRIMAL CS_FLAG_DUAL = 0%Z ->
  Z.land CS_FLAG_FULL_LOC CS_FLAG_DUAL = 0%Z ->
  (n_source_terms <= CS_N_MAX_SOURCE_TERMS)%nat ->
  (forall i, (i < n_source_terms)%nat ->
     exists st, source_terms !! i = Some (Some st) /\ created_for space_scheme st) ->
  exists r,
    cs_source_term_init space_scheme n_source_terms source_terms sys_flag0 = Ok r /\
    forall i st, (i < n_source_terms)%nat -> source_terms !! i = Some (Some st) ->
      compute_source r !! i = Some (default_evaluator space_scheme st).
Proof.
  intros Hhho Hd Hp Hpd Hfd Hmax Hall.
  destruct (init_returns space_scheme n_source_terms source_terms sys_flag0 Hmax)
    as [r Hinit].
  { intros i Hi. destruct (Hall i Hi) as (st & Hst & Hcr).
    destruct (created_bind _ _ Hhho Hd Hp Hpd Hfd Hcr) as (bits & f & Hbind & _).
    eauto. }
  exists r. split; [exact Hinit|]. intros i st Hi Hst.
  destruct (init_ok _ _ _ _ _ Hinit) as (_ & _ & Hbound & _).
  destruct (Hbound i Hi) as (st' & bits & f & Hst' & Hbind & Hf).
  rewrite Hst in Hst'. injection Hst' as <-.
  destruct (Hall i Hi) as (st' & Hst' & Hcr).
  rewrite Hst in Hst'. injection Hst' as <-.
  destruct (created_bind _ _ Hhho Hd Hp Hpd Hfd Hcr) as (bits' & f' & Hbind' & Hdef).
  rewrite Hbind in Hbind'. injection Hbind' as _ <-.
  rewrite Hdef. exact Hf.
Qed.

(** ** The reduction of a source term *)

(** X10: when [cs_source_term_set_reduction] returns, the flag that
    [cs_source_term_get_flag] reads holds a bit of the flag asked for,
    nothing but the metadata of the definition has changed, and asking
    again changes nothing. *)
Theorem set_reduction_is_idempotent (st st' : cs_xdef_t) (flag : Z) :
  cs_source_term_set_reduction (Some st) flag = Ok st' ->
  (exists m, cs_source_term_get_flag (Some st') = Ok m /\ Z.land m flag <> 0%Z) /\
  (type st' = type st /\ z_id st' = z_id st /\ qtype st' = qtype st /\
   input st' = input st) /\
  cs_source_term_set_reduction (Some st') flag = Ok st'.
Proof.
  intros Hrun.
  assert (Z.land (meta st') flag <> 0%Z /\
          (type st' = type st /\ z_id st' = z_id st /\ qtype st' = qtype st /\
           input st' = input st)) as [Hbit Hsame].
  { unfold cs_source_term_set_reduction in Hrun.
    destruct (decide (Z.land (meta st) flag <> 0%Z)) as [Hhas|_].
    { injection Hrun as <-. tauto. }
    destruct (decide (Z.land flag CS_FLAG_DUAL <> 0%Z)) as [Hd|_].
    { run_bind Hrun.
      destruct (decide (Z.land (meta st) CS_FLAG_VERTEX <> 0%Z)); [|discriminate].
      injection Hrun as <-. split; [|tauto]. cbn [meta with_meta].
      apply land_lor_ne_r, land_lor_ne. rewrite Z.land_comm. exact Hd. }
    destruct (decide (Z.land flag CS_FLAG_PRIMAL <> 0%Z)) as [Hp|_]; [|discriminate].
    run_bind Hrun.
    destruct (decide (Z.land (meta st) CS_FLAG_CELL <> 0%Z)); [|discriminate].
    injection Hrun as <-. split; [|tauto]. cbn [meta with_meta].
    apply land_lor_ne_r, land_lor_ne. rewrite Z.land_comm. exact Hp. }
  split; [exists (meta st'); split; [reflexivity|exact Hbit]|].
  split; [exact Hsame|].
  unfold cs_source_term_set_reduction. rewrite decide_True by exact Hbit.
  reflexivity.
Qed.

Lemma flags_nonzero (i : nat) (a : Z) :
  disjoint_flags cs_flags -> cs_flags !! i = Some a -> a <> 0%Z.
Proof.
  intros [Hnz _] Hi. rewrite Forall_lookup in Hnz. apply (Hnz i a Hi).
Qed.

Lemma flags_apart (i j : nat) (a b : Z) :
  disjoint_flags cs_flags -> i <> j ->
  cs_flags !! i = Some a -> cs_flags !! j = Some b -> Z.land a b = 0%Z.
Proof.
  intros [_ Hd] Hne Hi Hj. destruct (decide (i < j)%nat).
  - apply (Hd i j); assumption.
  - rewrite Z.land_comm. apply (Hd j i); [lia|assumption..].
Qed.

(** The flags by their place in [cs_flags]. *)
Ltac apart Hd i j := apply (flags_apart i j _ _ Hd); [lia|reflexivity|reflexivity].
Ltac nonzero Hd i := apply (flags_nonzero i _ Hd); reflexivity.

Lemma keep_flag_skip (save_meta f m : Z) :
  Z.land save_meta f = 0%Z -> keep_flag save_meta f m = m.
Proof. intros Hz. unfold keep_flag. rewrite decide_False by tauto. reflexivity. Qed.

Lemma keep_flag_apart (save_meta f m g : Z) :
  Z.land m g = 0%Z -> Z.land f g = 0%Z -> Z.land (keep_flag save_meta f m) g = 0%Z.
Proof.
  intros Hm Hf. unfold keep_flag.
  destruct (decide (Z.land save_meta f <> 0%Z)); [|exact Hm].
  apply land_lor_0; assumption.
Qed.

(** The unchanged parts hold no bit of the four flags of the location. *)
Lemma unchanged_apart (save_meta : Z) (i : nat) (g : Z) :
  disjoint_flags cs_flags -> (i < 4)%nat -> cs_flags !! i = Some g ->
  Z.land (unchanged_parts save_meta) g = 0%Z.
Proof.
  intros Hd Hi Hg. unfold unchanged_parts.
  repeat apply keep_flag_apart; try reflexivity;
    match goal with
    | |- Z.land ?f g = 0%Z =>
      first [apply (flags_apart 4 i f g Hd); [lia|reflexivity|exact Hg]
            |apply (flags_apart 5 i f g Hd); [lia|reflexivity|exact Hg]
            |apply (flags_apart 6 i f g Hd); [lia|reflexivity|exact Hg]
            |apply (flags_apart 7 i f g Hd); [lia|reflexivity|exact Hg]
            |apply (flags_apart 8 i f g Hd); [lia|reflexivity|exact Hg]
            |apply (flags_apart 9 i f g Hd); [lia|reflexivity|exact Hg]]
    end.
Qed.

(** [CS_FLAG_FULL_LOC] is among the unchanged parts exactly when the
    definition had it. *)
Lemma unchanged_full_loc (save_meta : Z) :
  disjoint_flags cs_flags ->
  Z.land (unchanged_parts save_meta) CS_FLAG_FULL_LOC <> 0%Z <->
  Z.land save_meta CS_FLAG_FULL_LOC <> 0%Z.
Proof.
  intros Hd. unfold unchanged_parts.
  set (m := keep_flag save_meta CS_FLAG_BY_CELL _).
  assert (Z.land m CS_FLAG_FULL_LOC = 0%Z) as Hm.
  { subst m. repeat apply keep_flag_apart; try reflexivity.
    - apart Hd 5%nat 4%nat.
    - apart Hd 6%nat 4%nat.
    - apart Hd 7%nat 4%nat.
    - apart Hd 8%nat 4%nat.
    - apart Hd 9%nat 4%nat. }
  unfold keep_flag at 1.
  destruct (decide (Z.land save_meta CS_FLAG_FULL_LOC <> 0%Z)) as [Hf|Hf].
  - split; [tauto|]. intros _. apply land_lor_ne_r, land_self_ne.
    intros Hz. apply Hf. rewrite Hz. apply Z.land_0_r.
  - rewrite Hm. tauto.
Qed.

(** X11: a change of reduction keeps the cells of a source term: the
    definition covers all cells after the call exactly when it did before,
    its zone is the same, and [_set_mask] records it in the same words. *)
Theorem set_reduction_keeps_cells (st st' : cs_xdef_t) (flag : Z) :
  disjoint_flags cs_flags ->
  cs_source_term_set_reduction (Some st) flag = Ok st' ->
  (full_loc st' <-> full_loc st) /\
  (forall c, covers st' c <-> covers st c) /\
  forall st_id cell_mask,
    _set_mask (Some st') st_id cell_mask = _set_mask (Some st) st_id cell_mask.
Proof.
  intros Hd Hrun.
  assert (z_id st' = z_id st /\ (full_loc st' <-> full_loc st)) as [Hz Hfull].
  { unfold cs_source_term_set_reduction in Hrun.
    destruct (decide (Z.land (meta st) flag <> 0%Z)) as [Hhas|_].
    { injection Hrun as <-. tauto. }
    assert (forall loc,
      Z.land loc CS_FLAG_FULL_LOC = 0%Z ->
      full_loc (with_meta st (Z.lor (unchanged_parts (meta st)) loc)) <->
      full_loc st) as Hkeep.
    { intros loc Hloc. unfold full_loc. cbn [meta with_meta].
      rewrite <- (unchanged_full_loc (meta st) Hd).
      rewrite Z.land_lor_distr_l, Hloc, Z.lor_0_r. tauto. }
    destruct (decide (Z.land flag CS_FLAG_DUAL <> 0%Z)) as [_|_].
    { run_bind Hrun.
      destruct (decide (Z.land (meta st) CS_FLAG_VERTEX <> 0%Z)); [|discriminate].
      injection Hrun as <-. split; [reflexivity|]. apply Hkeep.
      apply land_lor_0; [apart Hd 1%nat 4%nat|apart Hd 3%nat 4%nat]. }
    destruct (decide (Z.land flag CS_FLAG_PRIMAL <> 0%Z)) as [_|_]; [|discriminate].
    run_bind Hrun.
    destruct (decide (Z.land (meta st) CS_FLAG_CELL <> 0%Z)); [|discriminate].
    injection Hrun as <-. split; [reflexivity|]. apply Hkeep.
    apply land_lor_0; [apart Hd 0%nat 4%nat|apart Hd 2%nat 4%nat]. }
  split; [exact Hfull|]. split.
  - intros c. unfold covers. rewrite Hz, Hfull. tauto.
  - intros st_id cell_mask. unfold _set_mask. rewrite Hz.
    destruct (decide (full_loc st')) as [H1|H1], (decide (full_loc st)) as [H2|H2];
      try reflexivity; tauto.
Qed.

Ltac apart_from Hd i :=
  first [apart Hd i 0%nat | apart Hd i 1%nat | apart Hd i 2%nat | apart Hd i 3%nat
        |apart Hd i 4%nat | apart Hd i 5%nat | apart Hd i 6%nat | apart Hd i 7%nat
        |apart Hd i 8%nat | apart Hd i 9%nat].

(** Two flags of [cs_flags], or unions of them, or zero, share no bit. *)
Ltac no_common_bit Hd :=
  repeat apply land_lor_0;
  repeat (rewrite Z.land_comm; apply land_lor_0);
  first [assumption | reflexivity | apply Z.land_0_r
        |apart_from Hd 0%nat | apart_from Hd 1%nat | apart_from Hd 2%nat
        |apart_from Hd 3%nat | apart_from Hd 4%nat | apart_from Hd 5%nat
        |apart_from Hd 6%nat | apart_from Hd 7%nat | apart_from Hd 8%nat
        |apart_from Hd 9%nat].

(** The unchanged parts of a flag made of a location and of
    [CS_FLAG_FULL_LOC] or nothing. *)
Lemma unchanged_of_located (loc z : Z) :
  disjoint_flags cs_flags ->
  z = CS_FLAG_FULL_LOC \/ z = 0%Z ->
  Z.land loc CS_FLAG_FULL_LOC = 0%Z ->
  Z.land loc CS_FLAG_SCALAR = 0%Z -> Z.land loc CS_FLAG_VECTOR = 0%Z ->
  Z.land loc CS_FLAG_TENSOR = 0%Z -> Z.land loc CS_FLAG_BORDER = 0%Z ->
  Z.land loc CS_FLAG_BY_CELL = 0%Z ->
  unchanged_parts (Z.lor loc z) = z.
Proof.
  intros Hd Hz Hfull Hs Hv Ht Hb Hc. unfold unchanged_parts.
  rewrite (keep_flag_skip _ CS_FLAG_SCALAR)
    by (destruct Hz as [-> | ->]; no_common_bit Hd).
  rewrite (keep_flag_skip _ CS_FLAG_VECTOR)
    by (destruct Hz as [-> | ->]; no_common_bit Hd).
  rewrite (keep_flag_skip _ CS_FLAG_TENSOR)
    by (destruct Hz as [-> | ->]; no_common_bit Hd).
  rewrite (keep_flag_skip _ CS_FLAG_BORDER)
    by (destruct Hz as [-> | ->]; no_common_bit Hd).
  rewrite (keep_flag_skip _ CS_FLAG_BY_CELL)
    by (destruct Hz as [-> | ->]; no_common_bit Hd).
  unfold keep_flag. destruct Hz as [-> | ->].
  - rewrite decide_True; [reflexivity|].
    apply land_lor_ne_r, land_self_ne. nonzero Hd 4%nat.
  - rewrite decide_False; [reflexivity|].
    intros Hne. apply Hne. rewrite Z.lor_0_r. exact Hfull.
Qed.

Lemma zone_flag_cases (st : cs_xdef_t) :
  zone_flag st = CS_FLAG_FULL_LOC \/ zone_flag st = 0%Z.
Proof. unfold zone_flag. destruct (decide (z_id st = 0%Z)); tauto. Qed.

(** From dual cells to primal vertices. *)
Lemma dual_cells_to_primal (st : cs_xdef_t) :
  disjoint_flags cs_flags ->
  meta st = Z.lor (Z.lor CS_FLAG_DUAL CS_FLAG_CELL) (zone_flag st) ->
  cs_source_term_set_reduction (Some st) CS_FLAG_PRIMAL =
  Ok (with_meta st (Z.lor (zone_flag st) (Z.lor CS_FLAG_PRIMAL CS_FLAG_VERTEX))).
Proof.
  intros Hd Hmeta. pose proof (zone_flag_cases st) as Hz.
  unfold cs_source_term_set_reduction. rewrite Hmeta.
  rewrite decide_False
    by (intros Hne; apply Hne; destruct Hz as [-> | ->]; no_common_bit Hd).
  rewrite decide_False by (intros Hne; apply Hne; no_common_bit Hd).
  rewrite decide_True by (apply land_self_ne; nonzero Hd 0%nat).
  rewrite bool_decide_eq_true_2
    by (apply land_lor_ne, land_lor_ne, land_self_ne; nonzero Hd 1%nat).
  cbn [c_assert bind].
  rewrite decide_True
    by (apply land_lor_ne, land_lor_ne_r, land_self_ne; nonzero Hd 3%nat).
  rewrite unchanged_of_located by (first [exact Hd|exact Hz|no_common_bit Hd]).
  reflexivity.
Qed.

(** From primal vertices to dual cells. *)
Lemma primal_vertices_to_dual (st : cs_xdef_t) :
  disjoint_flags cs_flags ->
  meta st = Z.lor (zone_flag st) (Z.lor CS_FLAG_PRIMAL CS_FLAG_VERTEX) ->
  cs_source_term_set_reduction (Some st) CS_FLAG_DUAL =
  Ok (with_meta st (Z.lor (zone_flag st) (Z.lor CS_FLAG_DUAL CS_FLAG_CELL))).
Proof.
  intros Hd Hmeta. pose proof (zone_flag_cases st) as Hz.
  unfold cs_source_term_set_reduction. rewrite Hmeta.
  rewrite decide_False
    by (intros Hne; apply Hne; destruct Hz as [-> | ->]; no_common_bit Hd).
  rewrite decide_True by (apply land_self_ne; nonzero Hd 1%nat).
  rewrite bool_decide_eq_true_2
    by (apply land_lor_ne_r, land_lor_ne, land_self_ne; nonzero Hd 0%nat).
  cbn [c_assert bind].
  rewrite decide_True
    by (apply land_lor_ne_r, land_lor_ne_r, land_self_ne; nonzero Hd 2%nat).
  rewrite (Z.lor_comm (zone_flag st) (Z.lor CS_FLAG_PRIMAL CS_FLAG_VERTEX)).
  rewrite unchanged_of_located by (first [exact Hd|exact Hz|no_common_bit Hd]).
  reflexivity.
Qed.

(** X12: a source term with the default flag of the vertex-based scheme
    (dual cells) can be reduced to primal vertices, and reducing it to
    dual cells again gives the definition back. *)
Theorem set_reduction_round_trip (st : cs_xdef_t) :
  disjoint_flags cs_flags ->
  created_for CS_SPACE_SCHEME_CDOVB st ->
  exists st1,
    cs_source_term_set_reduction (Some st) CS_FLAG_PRIMAL = Ok st1 /\
    Z.land (meta st1) CS_FLAG_PRIMAL <> 0%Z /\
    Z.land (meta st1) CS_FLAG_DUAL = 0%Z /\
    cs_source_term_set_reduction (Some st1) CS_FLAG_DUAL = Ok st.
Proof.
  intros Hd [Hmeta _]. cbn [cs_source_term_set_default_flag] in Hmeta.
  fold (zone_flag st) in Hmeta.
  pose proof (zone_flag_cases st) as Hz.
  eexists. split; [apply (dual_cells_to_primal st Hd Hmeta)|].
  cbn [meta with_meta]. split; [|split].
  - apply land_lor_ne_r, land_lor_ne, land_self_ne. nonzero Hd 0%nat.
  - destruct Hz as [-> | ->]; no_common_bit Hd.
  - rewrite primal_vertices_to_dual; [|exact Hd|reflexivity].
    f_equal. destruct st as [ty zid m q inp].
    unfold with_meta, zone_flag in *. cbn in *. rewrite Hmeta.
    f_equal. apply Z.lor_comm.
Qed.

(** X13: reduced to primal vertices, a source term of the vertex-based
    scheme gets from [cs_source_term_init] the evaluator of a potential at
    primal vertices, by value or by analytic function. *)
Theorem reduced_to_primal_binds_pvsp (st : cs_xdef_t) :
  disjoint_flags cs_flags ->
  created_for CS_SPACE_SCHEME_CDOVB st ->
  exists st1,
    cs_source_term_set_reduction (Some st) CS_FLAG_PRIMAL = Ok st1 /\
    forall n_source_terms source_terms sys_flag0 r i,
      cs_source_term_init CS_SPACE_SCHEME_CDOVB n_source_terms source_terms
        sys_flag0 = Ok r ->
      (i < n_source_terms)%nat -> source_terms !! i = Some (Some st1) ->
      compute_source r !! i =
      Some (Some (match type st with
                  | CS_XDEF_BY_VALUE => cs_source_term_pvsp_by_value
                  | _ => cs_source_term_pvsp_by_analytic
                  end)).
Proof.
  intros Hd [Hmeta Htype]. cbn [cs_source_term_set_default_flag] in Hmeta.
  fold (zone_flag st) in Hmeta.
  pose proof (zone_flag_cases st) as Hz.
  eexists. split; [apply (dual_cells_to_primal st Hd Hmeta)|].
  intros n_source_terms source_terms sys_flag0 r i Hinit Hi Hst.
  destruct (init_ok _ _ _ _ _ Hinit) as (_ & _ & Hbound & _).
  destruct (Hbound i Hi) as (st' & bits & f & Hst' & Hbind & Hf).
  rewrite Hst in Hst'. injection Hst' as <-. rewrite Hf. do 2 f_equal.
  revert Hbind. unfold bind_evaluator. cbn [meta type with_meta].
  rewrite decide_False
    by (intros Hne; apply Hne; destruct Hz as [-> | ->]; no_common_bit Hd).
  rewrite bool_decide_eq_true_2
    by (apply land_lor_ne_r, land_lor_ne, land_self_ne; nonzero Hd 0%nat).
  cbn [c_assert bind].
  destruct Htype as [-> | [-> _]]; intros [= _ <-]; reflexivity.
Qed.

(** X14: the default flags of the other schemes cannot be reduced
    otherwise: on a source term with the default flag of a scheme other
    than the vertex-based one, [cs_source_term_set_reduction] stops on an
    error or leaves the definition as it is. *)
Theorem other_defaults_keep_their_reduction (space_scheme : cs_space_scheme_t)
    (st st' : cs_xdef_t) (flag : Z) :
  disjoint_flags cs_flags ->
  space_scheme <> CS_SPACE_SCHEME_CDOVB ->
  created_for space_scheme st ->
  cs_source_term_set_reduction (Some st) flag = Ok st' ->
  st' = st.
Proof.
  intros Hd Hscheme [Hmeta _] Hrun. fold (zone_flag st) in Hmeta.
  pose proof (zone_flag_cases st) as Hz.
  unfold cs_source_term_set_reduction in Hrun.
  destruct (decide (Z.land (meta st) flag <> 0%Z)) as [_|_]; [congruence|].
  assert (Z.land (meta st) CS_FLAG_VERTEX = 0%Z) as Hv.
  { rewrite Hmeta.
    destruct space_scheme; [congruence|..]; cbn [cs_source_term_set_default_flag];
      destruct Hz as [-> | ->]; no_common_bit Hd. }
  assert (Z.land (meta st) CS_FLAG_DUAL = 0%Z) as Hdual.
  { rewrite Hmeta.
    destruct space_scheme; [congruence|..]; cbn [cs_source_term_set_default_flag];
      destruct Hz as [-> | ->]; no_common_bit Hd. }
  destruct (decide (Z.land flag CS_FLAG_DUAL <> 0%Z)) as [_|_].
  - run_bind Hrun. rewrite decide_False in Hrun by tauto. discriminate.
  - destruct (decide (Z.land flag CS_FLAG_PRIMAL <> 0%Z)) as [_|_]; [|discriminate].
    rewrite bool_decide_eq_false_2 in Hrun by tauto. discriminate.
Qed.

(** ** Constant functions *)

Lemma anai_eval_constant (anai : cs_xdef_analytic_input_t) (k t : cs_real_t)
    (n_pts : nat) (xyz : list cs_real_t) :
  constant_function anai k -> anai_eval anai t n_pts xyz = replicate n_pts k.
Proof.
  intros Hk. unfold anai_eval. rewrite Hk.
  apply resize_all_alt. rewrite length_replicate. reflexivity.
Qed.

(** X15: on a constant function, the evaluators by analytic function of a
    potential and of a density on primal cells do what the evaluators by
    value do on the value of the function. *)
Theorem constant_function_as_value (st_a st_v : cs_xdef_t)
    (anai : cs_xdef_analytic_input_t) (vals : list cs_real_t) (k : cs_real_t)
    (cm : cs_cell_mesh_t) (cb : cs_cell_builder_t) (values : list cs_real_t) :
  input st_a = input_analytic anai -> constant_function anai k ->
  input st_v = input_values vals -> vals !! 0%nat = Some k ->
  cs_source_term_pvsp_by_analytic (Some st_a) cm cb values =
    cs_source_term_pvsp_by_value (Some st_v) cm cb values /\
  cs_source_term_vcsp_by_analytic (Some st_a) cm cb values =
    cs_source_term_vcsp_by_value (Some st_v) cm cb values /\
  cs_source_term_fbsd_bary_by_analytic (Some st_a) cm cb values =
    cs_source_term_fbsd_by_value (Some st_v) cm cb values.
Proof.
  intros Ha Hk Hv H0. apply list_lookup_total_correct in H0.
  unfold cs_source_term_pvsp_by_analytic, cs_source_term_pvsp_by_value,
    cs_source_term_vcsp_by_analytic, cs_source_term_vcsp_by_value,
    cs_source_term_fbsd_bary_by_analytic, cs_source_term_fbsd_by_value.
  rewrite Ha, Hv. cbn [as_values as_analytic bind]. rewrite H0.
  rewrite !(anai_eval_constant anai k) by exact Hk.
  split; [|split].
  - reflexivity.
  - reflexivity.
  - cbn. do 2 f_equal. ring.
Qed.


End MoreProofs.

(** * More properties, on the sample values *)

Lemma sample_flags_disjoint : disjoint_flags cs_flags.
Proof.
  split.
  - repeat apply Forall_cons_2; try apply Forall_nil_2; discriminate.
  - intros i j a b Hij Hi Hj.
    assert (j < 10)%nat as Hj10 by (apply lookup_lt_Some in Hj; exact Hj).
    do 10 (destruct i as [|i];
           [do 10 (destruct j as [|j]; [first [lia|injection Hi as <-;
                                               injection Hj as <-; reflexivity]|]);
            lia|]).
    lia.
Qed.

Lemma sample_test_flag (flag ref : Z) : subflag ref flag -> cs_test_flag flag ref = true.
Proof. intros Hsub. apply Z.eqb_eq. exact Hsub. Qed.

Lemma dual_two_created : created_for CS_SPACE_SCHEME_CDOVB dual_two.
Proof. split; [reflexivity|left; reflexivity]. Qed.

Lemma sample_constant_is_constant : constant_function sample_constant (dbl 2).
Proof. intros t n_pts xyz. reflexivity. Qed.

(** The sample cell holds all the quantities, and the builder a Hodge
    matrix. *)
Lemma init_flag_suffices_witness :
  (forall flag ref, subflag ref flag -> cs_test_flag flag ref = true) /\
  cs_source_term_init CS_SPACE_SCHEME_CDOVB 2
    [Some dual_two; Some dual_three_zone1] 0 = Ok sample_init_two /\
  (0 < 2)%nat /\
  [Some dual_two; Some dual_three_zone1] !! 0%nat = Some (Some dual_two) /\
  compute_source sample_init_two !! 0%nat =
    Some (Some cs_source_term_dcsd_by_value) /\
  subflag (msh_flag sample_init_two) (flag (sample_cell 0)) /\
  hdg sample_hodge <> None /\
  cs_source_term_dcsd_by_value (Some dual_two) (sample_cell 0) sample_hodge
    [0; 0; 0; 0] <> Err assert_failure.
Proof.
  split; [exact sample_test_flag|]. split; [reflexivity|]. split; [lia|].
  split; [reflexivity|]. split; [reflexivity|]. split; [reflexivity|].
  split; [discriminate|].
  apply (init_flag_suffices CS_SPACE_SCHEME_CDOVB 2
           [Some dual_two; Some dual_three_zone1] 0 sample_init_two 0 dual_two
           cs_source_term_dcsd_by_value (sample_cell 0) sample_hodge [0; 0; 0; 0]).
  - exact sample_test_flag.
  - reflexivity.
  - lia.
  - reflexivity.
  - reflexivity.
  - reflexivity.
  - discriminate.
Defined.

(** Two densities on dual cells: the flag of the system is as it was. *)
Lemma init_sys_flag_witness :
  cs_source_term_init CS_SPACE_SCHEME_CDOVB 2
    [Some dual_two; Some dual_three_zone1] 0 = Ok sample_init_two /\
  ((sys_flag sample_init_two = 0%Z /\
    ~ ((CS_SPACE_SCHEME_CDOVB = CS_SPACE_SCHEME_CDOVB \/
        CS_SPACE_SCHEME_CDOVB = CS_SPACE_SCHEME_CDOVCB) /\
       exists i st, (i < 2)%nat /\
                    [Some dual_two; Some dual_three_zone1] !! i = Some (Some st) /\
                    Z.land (meta st) CS_FLAG_PRIMAL <> 0%Z)) \/
   (sys_flag sample_init_two =
      Z.lor 0 (Z.lor CS_FLAG_SYS_HLOC_CONF CS_FLAG_SYS_SOURCES_HLOC) /\
    (CS_SPACE_SCHEME_CDOVB = CS_SPACE_SCHEME_CDOVB \/
     CS_SPACE_SCHEME_CDOVB = CS_SPACE_SCHEME_CDOVCB) /\
    exists i st, (i < 2)%nat /\
                 [Some dual_two; Some dual_three_zone1] !! i = Some (Some st) /\
                 Z.land (meta st) CS_FLAG_PRIMAL <> 0%Z)).
Proof.
  split; [reflexivity|].
  apply (init_sys_flag CS_SPACE_SCHEME_CDOVB 2
           [Some dual_two; Some dual_three_zone1] 0 sample_init_two).
  reflexivity.
Defined.

(** The cell 0 is in the zone 1 of [dual_three_zone1], and [dual_two] is
    everywhere. *)
Lemma mask_hides_nothing_on_covered_cell_witness :
  (CS_N_MAX_SOURCE_TERMS <= cs_mask_bits)%nat /\
  cs_source_term_init CS_SPACE_SCHEME_CDOVB 2
    [Some dual_two; Some dual_three_zone1] 0 = Ok sample_init_two /\
  (c_id (sample_cell 0) < n_cells cs_cdo_quant)%nat /\
  (forall i st, (i < 2)%nat ->
     [Some dual_two; Some dual_three_zone1] !! i = Some (Some st) ->
     covers st (c_id (sample_cell 0))) /\
  cs_source_term_compute_cellwise 2 [Some dual_two; Some dual_three_zone1]
    (sample_cell 0) CS_FLAG_SYS_SOURCETERM (source_mask sample_init_two)
    (compute_source sample_init_two) sample_cb (zeroed 4) =
  cs_source_term_compute_cellwise 2 [Some dual_two; Some dual_three_zone1]
    (sample_cell 0) CS_FLAG_SYS_SOURCETERM None
    (compute_source sample_init_two) sample_cb (zeroed 4).
Proof.
  assert (forall i st, (i < 2)%nat ->
            [Some dual_two; Some dual_three_zone1] !! i = Some (Some st) ->
            covers st (c_id (sample_cell 0))) as Hcov.
  { intros [|[|i]] st Hi Hst; [| |lia]; injection Hst as <-.
    - left. unfold full_loc. vm_compute. discriminate.
    - right. apply list_elem_of_In. vm_compute. left. reflexivity. }
  split; [vm_compute; lia|]. split; [reflexivity|]. split; [vm_compute; lia|].
  split; [exact Hcov|].
  apply (mask_hides_nothing_on_covered_cell CS_SPACE_SCHEME_CDOVB 2
           [Some dual_two; Some dual_three_zone1] 0 CS_FLAG_SYS_SOURCETERM
           sample_init_two (sample_cell 0) sample_cb (zeroed 4)).
  - vm_compute. lia.
  - reflexivity.
  - vm_compute. lia.
  - exact Hcov.
Defined.

(** The densities 2 and 3, in both orders: 5/4 at each vertex. *)
Lemma adding_terms_commute_witness :
  let csys1 :=
    {| n_dofs := 4; source := [dbl 1.25; dbl 1.25; dbl 1.25; dbl 1.25] |} in
  accumulates cs_source_term_dcsd_by_value /\
  cs_source_term_compute_cellwise 2 [Some dual_two; Some dual_three_zone1]
    (sample_cell 0) CS_FLAG_SYS_SOURCETERM None
    [Some cs_source_term_dcsd_by_value; Some cs_source_term_dcsd_by_value]
    sample_cb (zeroed 4) = Ok csys1 /\
  cs_source_term_compute_cellwise 2 [Some dual_three_zone1; Some dual_two]
    (sample_cell 0) CS_FLAG_SYS_SOURCETERM None
    [Some cs_source_term_dcsd_by_value; Some cs_source_term_dcsd_by_value]
    sample_cb (zeroed 4) = Ok csys1 /\
  csys1 = csys1.
Proof.
  intros csys1.
  assert (cs_source_term_compute_cellwise 2 [Some dual_two; Some dual_three_zone1]
    (sample_cell 0) CS_FLAG_SYS_SOURCETERM None
    [Some cs_source_term_dcsd_by_value; Some cs_source_term_dcsd_by_value]
    sample_cb (zeroed 4) = Ok csys1) as H1 by by_evaluation.
  assert (cs_source_term_compute_cellwise 2 [Some dual_three_zone1; Some dual_two]
    (sample_cell 0) CS_FLAG_SYS_SOURCETERM None
    [Some cs_source_term_dcsd_by_value; Some cs_source_term_dcsd_by_value]
    sample_cb (zeroed 4) = Ok csys1) as H2 by by_evaluation.
  split; [apply dcsd_by_value_accumulates|]. split; [exact H1|]. split; [exact H2|].
  apply (adding_terms_commute (Some dual_two) (Some dual_three_zone1)
           cs_source_term_dcsd_by_value cs_source_term_dcsd_by_value
           (sample_cell 0) CS_FLAG_SYS_SOURCETERM sample_cb (zeroed 4) csys1 csys1).
  - apply dcsd_by_value_accumulates.
  - apply dcsd_by_value_accumulates.
  - exact H1.
  - exact H2.
Defined.

(** [dual_two], from dual cells to primal vertices. *)
Lemma set_reduction_is_idempotent_witness :
  cs_source_term_set_reduction (Some dual_two) CS_FLAG_PRIMAL =
    Ok primal_vertices_two /\
  (exists m, cs_source_term_get_flag (Some primal_vertices_two) = Ok m /\
             Z.land m CS_FLAG_PRIMAL <> 0%Z) /\
  (type primal_vertices_two = type dual_two /\
   z_id primal_vertices_two = z_id dual_two /\
   qtype primal_vertices_two = qtype dual_two /\
   input primal_vertices_two = input dual_two) /\
  cs_source_term_set_reduction (Some primal_vertices_two) CS_FLAG_PRIMAL =
    Ok primal_vertices_two.
Proof.
  split; [reflexivity|].
  apply (set_reduction_is_idempotent dual_two primal_vertices_two CS_FLAG_PRIMAL).
  reflexivity.
Defined.

Lemma set_reduction_keeps_cells_witness :
  disjoint_flags cs_flags /\
  cs_source_term_set_reduction (Some dual_two) CS_FLAG_PRIMAL =
    Ok primal_vertices_two /\
  (full_loc primal_vertices_two <-> full_loc dual_two) /\
  (forall c, covers primal_vertices_two c <-> covers dual_two c) /\
  forall st_id cell_mask,
    _set_mask (Some primal_vertices_two) st_id cell_mask =
    _set_mask (Some dual_two) st_id cell_mask.
Proof.
  split; [exact sample_flags_disjoint|]. split; [reflexivity|].
  apply (set_reduction_keeps_cells dual_two primal_vertices_two CS_FLAG_PRIMAL).
  - exact sample_flags_disjoint.
  - reflexivity.
Defined.

(** The density 2 and the function [x], with the default flag of the
    vertex-based scheme. *)
Lemma default_source_terms_are_bound_witness :
  CS_SPACE_SCHEME_CDOVB <> CS_SPACE_SCHEME_HHO /\
  CS_FLAG_DUAL <> 0%Z /\ CS_FLAG_PRIMAL <> 0%Z /\
  Z.land CS_FLAG_PRIMAL CS_FLAG_DUAL = 0%Z /\
  Z.land CS_FLAG_FULL_LOC CS_FLAG_DUAL = 0%Z /\
  (2 <= CS_N_MAX_SOURCE_TERMS)%nat /\
  (forall i, (i < 2)%nat ->
     exists st, [Some dual_two; Some dual_x] !! i = Some (Some st) /\
                created_for CS_SPACE_SCHEME_CDOVB st) /\
  exists r,
    cs_source_term_init CS_SPACE_SCHEME_CDOVB 2 [Some dual_two; Some dual_x] 0 =
      Ok r /\
    forall i st, (i < 2)%nat -> [Some dual_two; Some dual_x] !! i = Some (Some st) ->
      compute_source r !! i = Some (default_evaluator CS_SPACE_SCHEME_CDOVB st).
Proof.
  assert (forall i, (i < 2)%nat ->
     exists st, [Some dual_two; Some dual_x] !! i = Some (Some st) /\
                created_for CS_SPACE_SCHEME_CDOVB st) as Hall.
  { intros [|[|i]] Hi; [| |lia]; eexists; (split; [reflexivity|]).
    - exact dual_two_created.
    - split; [reflexivity|]. right. split; [reflexivity|discriminate]. }
  split; [discriminate|]. split; [discriminate|]. split; [discriminate|].
  split; [reflexivity|]. split; [reflexivity|]. split; [vm_compute; lia|].
  split; [exact Hall|].
  apply (default_source_terms_are_bound CS_SPACE_SCHEME_CDOVB 2
           [Some dual_two; Some dual_x] 0).
  - discriminate.
  - discriminate.
  - discriminate.
  - reflexivity.
  - reflexivity.
  - vm_compute. lia.
  - exact Hall.
Defined.

Lemma set_reduction_round_trip_witness :
  disjoint_flags cs_flags /\
  created_for CS_SPACE_SCHEME_CDOVB dual_two /\
  exists st1,
    cs_source_term_set_reduction (Some dual_two) CS_FLAG_PRIMAL = Ok st1 /\
    Z.land (meta st1) CS_FLAG_PRIMAL <> 0%Z /\
    Z.land (meta st1) CS_FLAG_DUAL = 0%Z /\
    cs_source_term_set_reduction (Some st1) CS_FLAG_DUAL = Ok dual_two.
Proof.
  split; [exact sample_flags_disjoint|]. split; [exact dual_two_created|].
  apply (set_reduction_round_trip dual_two).
  - exact sample_flags_disjoint.
  - exact dual_two_created.
Defined.

Lemma reduced_to_primal_binds_pvsp_witness :
  disjoint_flags cs_flags /\
  created_for CS_SPACE_SCHEME_CDOVB dual_two /\
  exists st1,
    cs_source_term_set_reduction (Some dual_two) CS_FLAG_PRIMAL = Ok st1 /\
    forall n_source_terms source_terms sys_flag0 r i,
      cs_source_term_init CS_SPACE_SCHEME_CDOVB n_source_terms source_terms
        sys_flag0 = Ok r ->
      (i < n_source_terms)%nat -> source_terms !! i = Some (Some st1) ->
      compute_source r !! i = Some (Some cs_source_term_pvsp_by_value).
Proof.
  split; [exact sample_flags_disjoint|]. split; [exact dual_two_created|].
  apply (reduced_to_primal_binds_pvsp dual_two).
  - exact sample_flags_disjoint.
  - exact dual_two_created.
Defined.

(** The density 2 on primal cells, the default of the face-based scheme:
    it is on primal cells already. *)
Lemma other_defaults_keep_their_reduction_witness :
  disjoint_flags cs_flags /\
  CS_SPACE_SCHEME_CDOFB <> CS_SPACE_SCHEME_CDOVB /\
  created_for CS_SPACE_SCHEME_CDOFB primal_two /\
  cs_source_term_set_reduction (Some primal_two) CS_FLAG_PRIMAL = Ok primal_two /\
  primal_two = primal_two.
Proof.
  assert (created_for CS_SPACE_SCHEME_CDOFB primal_two) as Hcr.
  { split; [reflexivity|left; reflexivity]. }
  split; [exact sample_flags_disjoint|]. split; [discriminate|].
  split; [exact Hcr|]. split; [reflexivity|].
  apply (other_defaults_keep_their_reduction CS_SPACE_SCHEME_CDOFB primal_two
           primal_two CS_FLAG_PRIMAL).
  - exact sample_flags_disjoint.
  - discriminate.
  - exact Hcr.
  - reflexivity.
Defined.

(** The constant function 2 and the value 2. *)
Lemma constant_function_as_value_witness :
  input dual_constant = input_analytic sample_constant /\
  constant_function sample_constant (dbl 2) /\
  input dual_two = input_values [dbl 2] /\
  [dbl 2] !! 0%nat = Some (dbl 2) /\
  cs_source_term_pvsp_by_analytic (Some dual_constant) (sample_cell 0) sample_hodge
      [0; 0; 0; 0; 0] =
    cs_source_term_pvsp_by_value (Some dual_two) (sample_cell 0) sample_hodge
      [0; 0; 0; 0; 0] /\
  cs_source_term_vcsp_by_analytic (Some dual_constant) (sample_cell 0) sample_hodge
      [0; 0; 0; 0; 0] =
    cs_source_term_vcsp_by_value (Some dual_two) (sample_cell 0) sample_hodge
      [0; 0; 0; 0; 0] /\
  cs_source_term_fbsd_bary_by_analytic (Some dual_constant) (sample_cell 0)
      sample_hodge [0; 0; 0; 0; 0] =
    cs_source_term_fbsd_by_value (Some dual_two) (sample_cell 0) sample_hodge
      [0; 0; 0; 0; 0].
Proof.
  pose proof sample_constant_is_constant as Hk.
  split; [reflexivity|]. split; [exact Hk|]. split; [reflexivity|].
  split; [reflexivity|].
  apply (constant_function_as_value dual_constant dual_two sample_constant
           [dbl 2] (dbl 2) (sample_cell 0) sample_hodge [0; 0; 0; 0; 0]).
  - reflexivity.
  - exact Hk.
  - reflexivity.
  - reflexivity.
Defined.
